(** * DorfLife: the behaviour-and-lifecycle simulation engine

    A shallow embedding of the reproduction configuration and its validation
    (ReproductionConfig.js), the event bus (ReproductionEventBus.js), the world
    interface (WorldInterface.js), the shared mating routine
    (BaseStrategy.js, FemaleSelection.js), strategy assignment
    (StrategyFactory.js, ReproductionSystem.js), gestation
    (PregnancyManager.js) and the aging and combat engine
    (LifespanCombatSystem.js).

    Modelling conventions.
    - A JavaScript number is a rational ([Q]); a property that may be
      [undefined] is an [option].  Arithmetic that JavaScript would answer
      with NaN or an infinity (a division by zero, arithmetic on
      [undefined]) raises the exception [OutOfModel] instead.
    - Objects live in a heap ([gmap ref Dwarf]); [game.dwarfs] is a list of
      references, so aliasing and in-place mutation are kept.
    - [Math.random] reads an oracle [nat -> Q] through a draw counter;
      [Date.now] reads a clock field.
    - The configuration object handed to validation is the exception: its
      properties are whatever the caller put there, a number (NaN and the
      infinities among them), a string, a boolean, [null], an object or
      nothing.
    - Event subscribers work on an observer state of their own (type [Obs]);
      a subscriber returns or raises. What a subscriber does to anything
      else (the integration's rivalry handler draws random numbers and
      starts timers) is outside the model. *)

From Stdlib Require Import QArith Qminmax Qround ZArith Lia Lqa Ascii.
From stdpp Require Import gmap strings list pretty.

Local Open Scope Q_scope.

(** ** JavaScript numbers *)

Definition Qlt_bool (a b : Q) : bool := negb (Qle_bool b a).

(** [Number.isInteger] on a finite number. *)
Definition Number_isInteger (q : Q) : bool :=
  Z.eqb (Z.modulo (Qnum q) (Zpos (Qden q))) 0.

(** Relational operators with a possibly [undefined] left operand: a
    comparison with [undefined] is false. *)
Definition num_gt (a : option Q) (b : Q) : bool :=
  match a with Some q => Qlt_bool b q | None => false end.
Definition num_le (a : option Q) (b : Q) : bool :=
  match a with Some q => Qle_bool q b | None => false end.
Definition num_lt (a : option Q) (b : Q) : bool :=
  match a with Some q => Qlt_bool q b | None => false end.
Definition num_ge (a : option Q) (b : Q) : bool :=
  match a with Some q => Qle_bool b q | None => false end.

(** [typeof v === 'undefined'] *)
Definition is_undefined {A} (v : option A) : bool :=
  match v with None => true | Some _ => false end.

(** Truthiness of a possibly [undefined] boolean and number. *)
Definition truthy (b : option bool) : bool := default false b.
Definition num_truthy (a : option Q) : bool :=
  match a with Some q => negb (Qeq_bool q 0) | None => false end.

(** ** ReproductionConfig.js *)

Module ReproductionConfig.

(** A number: a rational, NaN or an infinity. *)
Inductive number :=
| Real (q : Q)
| NaN
| Infinite (negative : bool).

(** A value stored under a property of a configuration object as a caller
    supplies it: a number, a string, a boolean, [null], or an object (an
    array, a function) where a setting is expected, which the checks see
    through the number it converts to as an operand of a comparison and
    through the string it converts to. A missing property, which reads as
    [undefined], is [None] where the property is read. The objects and the
    array the configuration is made of have types of their own below. *)
Inductive jsval :=
| JNum (q : Q)
| JNaN
| JInfinity (negative : bool)
| JStr (s : string)
| JBool (b : bool)
| JNull
| JObject (converted : number) (text : string).

(** [typeof v === 'number'], with the number when it is one. *)
Definition as_number (v : option jsval) : option number :=
  match v with
  | Some (JNum q) => Some (Real q)
  | Some JNaN => Some NaN
  | Some (JInfinity negative) => Some (Infinite negative)
  | _ => None
  end.

(** [a <= c], [a < c] and [a > c] for a number [a] and a rational [c]: a
    comparison with NaN is false. *)
Definition number_le (a : number) (c : Q) : bool :=
  match a with
  | Real q => Qle_bool q c
  | NaN => false
  | Infinite negative => negative
  end.

Definition number_lt (a : number) (c : Q) : bool :=
  match a with
  | Real q => Qlt_bool q c
  | NaN => false
  | Infinite negative => negative
  end.

Definition number_gt (a : number) (c : Q) : bool :=
  match a with
  | Real q => Qlt_bool c q
  | NaN => false
  | Infinite negative => negb negative
  end.

(** [Number.isInteger(v)]: no conversion, so only a number can pass. *)
Definition Number_isInteger_value (v : option jsval) : bool :=
  match v with
  | Some (JNum q) => Number_isInteger q
  | _ => false
  end.

(** The configuration as the engine reads it, once its settings are
    numbers. *)
Record AgreeablenessConfig := {
  agr_threshold : option Q;
  blueBonus : Q;
  orangePenalty : Q
}.

Record OpennessConfig := {
  opn_threshold : option Q;
  yellowBonus : Q
}.

Record NeuroticismConfig := {
  neu_threshold : option Q;
  orangeBonus : Q
}.

Record FemaleSelectionConfig := {
  baseScore : Q;
  randomVariance : Q;
  cfg_agreeableness : AgreeablenessConfig;
  cfg_openness : OpennessConfig;
  cfg_neuroticism : NeuroticismConfig;
  evaluationChance : Q;
  proximityRadius : Q
}.

Record SpatialConfig := {
  fleeTimer : Q;
  babySpawnRadius : Q
}.

Record Config := {
  MATING_SUCCESS_RATE : Q;
  PREGNANCY_DURATION : Q;
  MATURITY_THRESHOLD : Q;
  FEMALE_REPRODUCTION_COOLDOWN : Q;
  MALE_REPRODUCTION_COOLDOWN : Q;
  MALE_STRATEGIES : list string;
  ORANGE_STRATEGY : option (gmap string jsval);
  BLUE_STRATEGY : option (gmap string jsval);
  YELLOW_STRATEGY : option (gmap string jsval);
  FEMALE_SELECTION : FemaleSelectionConfig;
  SPATIAL : SpatialConfig
}.

Definition ORANGE_STRATEGY_default : gmap string jsval :=
  list_to_map
    [ ("name", JStr "orange"); ("displayName", JStr "Territorial");
      ("cooldown", JNum 300); ("territoryRadius", JNum 80);
      ("matingDistance", JNum 25); ("matingChance", JNum (2 # 100));
      ("competitorDistance", JNum 60); ("displacementChance", JNum (1 # 10));
      ("color", JStr "#FF6600") ]%string.

Definition BLUE_STRATEGY_default : gmap string jsval :=
  list_to_map
    [ ("name", JStr "blue"); ("displayName", JStr "Guardian");
      ("cooldown", JNum 240); ("guardDistance", JNum 30);
      ("matingChance", JNum (15 # 1000)); ("maxGuardRange", JNum 40);
      ("color", JStr "#0066FF") ]%string.

Definition YELLOW_STRATEGY_default : gmap string jsval :=
  list_to_map
    [ ("name", JStr "yellow"); ("displayName", JStr "Sneaky");
      ("cooldown", JNum 180); ("matingDistance", JNum 35);
      ("matingChance", JNum (25 # 1000)); ("guardDetectionRadius", JNum 50);
      ("hidingRange", JNum 100); ("color", JStr "#FFFF00") ]%string.

Definition FEMALE_SELECTION_default : FemaleSelectionConfig := {|
  baseScore := 50;
  randomVariance := 20;
  cfg_agreeableness :=
    {| agr_threshold := Some 60; blueBonus := 30; orangePenalty := -(10) |};
  cfg_openness := {| opn_threshold := Some 70; yellowBonus := 20 |};
  cfg_neuroticism := {| neu_threshold := Some 40; orangeBonus := 25 |};
  evaluationChance := 8 # 1000;
  proximityRadius := 40
|}.

Definition REPRODUCTION_CONFIG : Config := {|
  MATING_SUCCESS_RATE := 7 # 10;
  PREGNANCY_DURATION := 3600;
  MATURITY_THRESHOLD := 1800;
  FEMALE_REPRODUCTION_COOLDOWN := 7200;
  MALE_REPRODUCTION_COOLDOWN := 3600;
  MALE_STRATEGIES := ["orange"; "blue"; "yellow"]%string;
  ORANGE_STRATEGY := Some ORANGE_STRATEGY_default;
  BLUE_STRATEGY := Some BLUE_STRATEGY_default;
  YELLOW_STRATEGY := Some YELLOW_STRATEGY_default;
  FEMALE_SELECTION := FEMALE_SELECTION_default;
  SPATIAL := {| fleeTimer := 180; babySpawnRadius := 40 |}
|}.

(** *** The configuration object a caller supplies *)

(** [config.FEMALE_SELECTION]; a trait entry is the [threshold] property of
    the trait's object, and [None] when there is no such object. *)
Record FemaleSelectionObject := {
  given_baseScore : option jsval;
  given_randomVariance : option jsval;
  given_evaluationChance : option jsval;
  given_agreeableness : option (option jsval);
  given_openness : option (option jsval);
  given_neuroticism : option (option jsval)
}.

(** The object handed to [validateConfig]: every property is whatever the
    caller put there. [given_MALE_STRATEGIES] is [None] when the property
    is no array, a strategy is [None] when the property is no object, and
    [given_FEMALE_SELECTION] is [None] when the property is [undefined] or
    [null]. *)
Record ConfigObject := {
  given_MATING_SUCCESS_RATE : option jsval;
  given_PREGNANCY_DURATION : option jsval;
  given_MATURITY_THRESHOLD : option jsval;
  given_FEMALE_REPRODUCTION_COOLDOWN : option jsval;
  given_MALE_REPRODUCTION_COOLDOWN : option jsval;
  given_MALE_STRATEGIES : option (list jsval);
  given_ORANGE_STRATEGY : option (gmap string jsval);
  given_BLUE_STRATEGY : option (gmap string jsval);
  given_YELLOW_STRATEGY : option (gmap string jsval);
  given_FEMALE_SELECTION : option FemaleSelectionObject
}.

(** A configuration of the engine as the object it is. *)
Definition as_given (config : Config) : ConfigObject := {|
  given_MATING_SUCCESS_RATE := Some (JNum (MATING_SUCCESS_RATE config));
  given_PREGNANCY_DURATION := Some (JNum (PREGNANCY_DURATION config));
  given_MATURITY_THRESHOLD := Some (JNum (MATURITY_THRESHOLD config));
  given_FEMALE_REPRODUCTION_COOLDOWN :=
    Some (JNum (FEMALE_REPRODUCTION_COOLDOWN config));
  given_MALE_REPRODUCTION_COOLDOWN := Some (JNum (MALE_REPRODUCTION_COOLDOWN config));
  given_MALE_STRATEGIES := Some (JStr <$> MALE_STRATEGIES config);
  given_ORANGE_STRATEGY := ORANGE_STRATEGY config;
  given_BLUE_STRATEGY := BLUE_STRATEGY config;
  given_YELLOW_STRATEGY := YELLOW_STRATEGY config;
  given_FEMALE_SELECTION :=
    let femaleConfig := FEMALE_SELECTION config in
    Some {|
      given_baseScore := Some (JNum (baseScore femaleConfig));
      given_randomVariance := Some (JNum (randomVariance femaleConfig));
      given_evaluationChance := Some (JNum (evaluationChance femaleConfig));
      given_agreeableness :=
        Some (JNum <$> agr_threshold (cfg_agreeableness femaleConfig));
      given_openness := Some (JNum <$> opn_threshold (cfg_openness femaleConfig));
      given_neuroticism := Some (JNum <$> neu_threshold (cfg_neuroticism femaleConfig))
    |}
|}.

(** *** Validation *)

(** What validation throws: the [Error] it builds, with the configuration
    entry at fault and what the message requires of it (the offending
    value, which the source interpolates into the message, is left out),
    or the [TypeError] of reading a property of [undefined]. *)
Record ConfigError := {
  err_entry : string;
  err_requires : string
}.

Inductive Thrown :=
| Invalid (e : ConfigError)
| CannotReadProperty (property : string).

Definition Validation := (Thrown + unit)%type.

Definition reject (entry requires : string) : Validation :=
  inl (Invalid {| err_entry := entry; err_requires := requires |}).

Definition accept : Validation := inr tt.

(** Sequencing of two checks: the first [throw] ends validation. *)
Definition and_then (a b : Validation) : Validation :=
  match a with inl e => inl e | inr _ => b end.

Notation "a ;;; b" := (and_then a b) (at level 100, right associativity).

(** [props.forEach(prop => { if (...) throw ... })] *)
Fixpoint for_each {A} (check : A -> Validation) (l : list A) : Validation :=
  match l with
  | [] => accept
  | a :: l' => check a ;;; for_each check l'
  end.

(** [typeof strategyConfig[prop] !== 'number' || strategyConfig[prop] <= 0] *)
Definition not_positive_number (v : option jsval) : bool :=
  match as_number v with
  | Some n => number_le n 0
  | None => true
  end.

Definition is_hex_digit (c : Ascii.ascii) : bool :=
  let n := Ascii.nat_of_ascii c in
  ((48 <=? n) && (n <=? 57) || (65 <=? n) && (n <=? 70)
   || (97 <=? n) && (n <=? 102))%nat.

(** [/^#[0-9A-Fa-f]{6}$/.test(s)] *)
Definition is_hex_color (s : string) : bool :=
  match String.list_ascii_of_string s with
  | h :: ds =>
      Ascii.eqb h "#"%char && (length ds =? 6)%nat && forallb is_hex_digit ds
  | [] => false
  end.

(** [!strategyConfig.color || !regex.test(strategyConfig.color)]: the
    test converts its argument to a string. An object is never falsy; a
    number, a boolean or [null] is tested through its spelling, which never
    starts with [#]. *)
Definition bad_color (v : option jsval) : bool :=
  match v with
  | Some (JStr s) => negb (is_hex_color s)
  | Some (JObject _ text) => negb (is_hex_color text)
  | _ => true
  end.

Definition positive_props (strategyName : string) : list string :=
  (if String.eqb strategyName "ORANGE_STRATEGY" then
     ["territoryRadius"; "matingDistance"; "competitorDistance";
      "displacementChance"]
   else [])%string
  ++ (if String.eqb strategyName "BLUE_STRATEGY" then
        ["guardDistance"; "maxGuardRange"]
      else [])%string
  ++ (if String.eqb strategyName "YELLOW_STRATEGY" then
        ["matingDistance"; "guardDetectionRadius"; "hidingRange"]
      else [])%string.

Definition check_positive (strategyName : string) (o : gmap string jsval)
    (prop : string) : Validation :=
  if not_positive_number (o !! prop)
  then reject (strategyName +:+ "." +:+ prop) "Must be positive number."
  else accept.

(** [config.MALE_STRATEGIES.includes(s)]: only a string is equal to a
    string. *)
Definition includes (strategies : list jsval) (s : string) : bool :=
  existsb (fun v => match v with JStr t => String.eqb t s | _ => false end)
    strategies.

Definition check_strategy_present (strategies : list jsval) (s : string)
    : Validation :=
  if includes strategies s then accept
  else reject "MALE_STRATEGIES" ("Missing required strategy: " +:+ s).

(** [!traitConfig || typeof traitConfig.threshold !== 'number'], then
    [traitConfig.threshold < 0 || traitConfig.threshold > 100] *)
Definition check_threshold (tt' : string * option (option jsval)) : Validation :=
  match tt'.2 ≫= as_number with
  | None =>
      reject ("FEMALE_SELECTION." +:+ tt'.1 +:+ ".threshold")
             "threshold configuration."
  | Some n =>
      if number_lt n 0 || number_gt n 100
      then reject ("FEMALE_SELECTION." +:+ tt'.1 +:+ ".threshold")
                  "Must be between 0 and 100."
      else accept
  end.

Section Validation.

(** The number a string converts to ([Number(s)]) is the host's. *)
Variable StringToNumber : string -> number.

(** The number an operand of [<=], [<] or [>] is converted to. *)
Definition ToNumber (v : option jsval) : number :=
  match v with
  | Some (JNum q) => Real q
  | Some JNaN => NaN
  | Some (JInfinity negative) => Infinite negative
  | Some (JStr s) => StringToNumber s
  | Some (JBool b) => Real (if b then 1 else 0)
  | Some JNull => Real 0
  | Some (JObject converted _) => converted
  | None => NaN
  end.

(** [validateStrategyConfig(strategyConfig, strategyName)] *)
Definition validateStrategyConfig (strategyConfig : option (gmap string jsval))
    (strategyName : string) : Validation :=
  match strategyConfig with
  | None => reject strategyName "must be configuration object."
  | Some o =>
      for_each (check_positive strategyName o) ["cooldown"; "matingChance"]%string ;;;
      (if number_gt (ToNumber (o !! "matingChance"%string)) 1
       then reject (strategyName +:+ ".matingChance") "Must be probability (0-1)."
       else accept) ;;;
      (if bad_color (o !! "color"%string)
       then reject (strategyName +:+ ".color") "Must be valid hex color."
       else accept) ;;;
      for_each (check_positive strategyName o) (positive_props strategyName)
  end.

(** [v <= 0 || !Number.isInteger(v)] *)
Definition not_positive_integer (v : option jsval) : bool :=
  number_le (ToNumber v) 0 || negb (Number_isInteger_value v).

Definition check_cooldown (ic : nat * option jsval) : Validation :=
  if not_positive_integer ic.2
  then reject ("cooldown at index " +:+ pretty ic.1) "Must be positive integer."
  else accept.

(** [validateConfig(config)] *)
Definition validateConfig (config : ConfigObject) : Validation :=
  (if number_le (ToNumber (given_MATING_SUCCESS_RATE config)) 0
      || number_gt (ToNumber (given_MATING_SUCCESS_RATE config)) 1
   then reject "MATING_SUCCESS_RATE" "Must be between 0 and 1."
   else accept) ;;;
  (if not_positive_integer (given_PREGNANCY_DURATION config)
   then reject "PREGNANCY_DURATION" "Must be positive integer."
   else accept) ;;;
  (if not_positive_integer (given_MATURITY_THRESHOLD config)
   then reject "MATURITY_THRESHOLD" "Must be positive integer."
   else accept) ;;;
  for_each check_cooldown
    [ (0%nat, given_FEMALE_REPRODUCTION_COOLDOWN config);
      (1%nat, given_MALE_REPRODUCTION_COOLDOWN config) ] ;;;
  (match given_MALE_STRATEGIES config with
   | Some strategies =>
       if negb (length strategies =? 3)%nat
       then reject "MALE_STRATEGIES" "must be array of exactly 3 strategies."
       else accept
   | None => reject "MALE_STRATEGIES" "must be array of exactly 3 strategies."
   end) ;;;
  for_each (check_strategy_present (default [] (given_MALE_STRATEGIES config)))
    ["orange"; "blue"; "yellow"]%string ;;;
  validateStrategyConfig (given_ORANGE_STRATEGY config) "ORANGE_STRATEGY" ;;;
  validateStrategyConfig (given_BLUE_STRATEGY config) "BLUE_STRATEGY" ;;;
  validateStrategyConfig (given_YELLOW_STRATEGY config) "YELLOW_STRATEGY" ;;;
  match given_FEMALE_SELECTION config with
  | None => inl (CannotReadProperty "baseScore")
  | Some femaleConfig =>
      (if number_le (ToNumber (given_baseScore femaleConfig)) 0
       then reject "FEMALE_SELECTION.baseScore" "Must be positive."
       else accept) ;;;
      (if number_lt (ToNumber (given_randomVariance femaleConfig)) 0
       then reject "FEMALE_SELECTION.randomVariance" "Must be non-negative."
       else accept) ;;;
      (if number_le (ToNumber (given_evaluationChance femaleConfig)) 0
          || number_gt (ToNumber (given_evaluationChance femaleConfig)) 1
       then reject "FEMALE_SELECTION.evaluationChance" "Must be between 0 and 1."
       else accept) ;;;
      for_each check_threshold
        [ ("agreeableness", given_agreeableness femaleConfig);
          ("openness", given_openness femaleConfig);
          ("neuroticism", given_neuroticism femaleConfig) ]%string
  end.

(** *** What validation asks of a configuration, said at once *)

Definition is_integer (q : Q) : Prop := exists z : Z, q == inject_Z z.

Definition positive_integer (q : Q) : Prop := 0 < q /\ is_integer q.

(** The value is a number, and a positive integer. *)
Definition positive_integer_value (v : option jsval) : Prop :=
  exists q, v = Some (JNum q) /\ positive_integer q.

(** What the comparisons without a test of the type let through: NaN
    passes every one of them. *)
Definition probability_or_NaN (n : number) : Prop :=
  n = NaN \/ exists q, n = Real q /\ 0 < q /\ q <= 1.

Definition positive_or_NaN (n : number) : Prop :=
  n = NaN \/ n = Infinite false \/ exists q, n = Real q /\ 0 < q.

Definition not_negative_or_NaN (n : number) : Prop :=
  n = NaN \/ n = Infinite false \/ exists q, n = Real q /\ 0 <= q.

Definition percentage_or_NaN (n : number) : Prop :=
  n = NaN \/ exists q, n = Real q /\ 0 <= q /\ q <= 100.

(** The value is a string that spells a hex color, or an object that
    converts to such a string. *)
Definition hex_colored (v : option jsval) : Prop :=
  exists c,
    (v = Some (JStr c) \/ exists converted, v = Some (JObject converted c))
    /\ is_hex_color c = true.

(** The entry [prop] of [o] has the type of a number and is not at or
    below zero. *)
Definition positive_entry (o : gmap string jsval) (prop : string) : Prop :=
  exists n, as_number (o !! prop) = Some n /\ positive_or_NaN n.

Definition strategy_ok (strategyName : string)
    (strategyConfig : option (gmap string jsval)) : Prop :=
  exists o,
    strategyConfig = Some o
    /\ positive_entry o "cooldown"
    /\ (exists n, as_number (o !! "matingChance"%string) = Some n
                  /\ probability_or_NaN n)
    /\ hex_colored (o !! "color"%string)
    /\ Forall (positive_entry o) (positive_props strategyName).

Definition threshold_ok (trait : option (option jsval)) : Prop :=
  exists threshold n,
    trait = Some threshold /\ as_number threshold = Some n /\ percentage_or_NaN n.

Definition config_ok (config : ConfigObject) : Prop :=
  probability_or_NaN (ToNumber (given_MATING_SUCCESS_RATE config))
  /\ positive_integer_value (given_PREGNANCY_DURATION config)
  /\ positive_integer_value (given_MATURITY_THRESHOLD config)
  /\ positive_integer_value (given_FEMALE_REPRODUCTION_COOLDOWN config)
  /\ positive_integer_value (given_MALE_REPRODUCTION_COOLDOWN config)
  /\ (exists strategies,
        given_MALE_STRATEGIES config = Some strategies
        /\ length strategies = 3%nat
        /\ Forall (fun s => JStr s ∈ strategies) ["orange"; "blue"; "yellow"]%string)
  /\ strategy_ok "ORANGE_STRATEGY" (given_ORANGE_STRATEGY config)
  /\ strategy_ok "BLUE_STRATEGY" (given_BLUE_STRATEGY config)
  /\ strategy_ok "YELLOW_STRATEGY" (given_YELLOW_STRATEGY config)
  /\ exists femaleConfig,
       given_FEMALE_SELECTION config = Some femaleConfig
       /\ positive_or_NaN (ToNumber (given_baseScore femaleConfig))
       /\ not_negative_or_NaN (ToNumber (given_randomVariance femaleConfig))
       /\ probability_or_NaN (ToNumber (given_evaluationChance femaleConfig))
       /\ threshold_ok (given_agreeableness femaleConfig)
       /\ threshold_ok (given_openness femaleConfig)
       /\ threshold_ok (given_neuroticism femaleConfig).

End Validation.

(** What validation asks of a configuration whose settings are numbers. *)
Definition numbers_ok (config : Config) : Prop :=
  (0 < MATING_SUCCESS_RATE config /\ MATING_SUCCESS_RATE config <= 1)
  /\ positive_integer (PREGNANCY_DURATION config)
  /\ positive_integer (MATURITY_THRESHOLD config)
  /\ positive_integer (FEMALE_REPRODUCTION_COOLDOWN config)
  /\ positive_integer (MALE_REPRODUCTION_COOLDOWN config)
  /\ (length (MALE_STRATEGIES config) = 3%nat
      /\ Forall (fun s => s ∈ MALE_STRATEGIES config)
           ["orange"; "blue"; "yellow"]%string)
  /\ strategy_ok "ORANGE_STRATEGY" (ORANGE_STRATEGY config)
  /\ strategy_ok "BLUE_STRATEGY" (BLUE_STRATEGY config)
  /\ strategy_ok "YELLOW_STRATEGY" (YELLOW_STRATEGY config)
  /\ 0 < baseScore (FEMALE_SELECTION config)
  /\ 0 <= randomVariance (FEMALE_SELECTION config)
  /\ (0 < evaluationChance (FEMALE_SELECTION config)
      /\ evaluationChance (FEMALE_SELECTION config) <= 1)
  /\ Forall (fun threshold => exists t, threshold = Some t /\ 0 <= t /\ t <= 100)
       [ agr_threshold (cfg_agreeableness (FEMALE_SELECTION config));
         opn_threshold (cfg_openness (FEMALE_SELECTION config));
         neu_threshold (cfg_neuroticism (FEMALE_SELECTION config)) ].

(** The default configuration with a territorial mate-seeking cooldown of
    300.5 ticks. *)
Definition half_tick_config : Config := {|
  MATING_SUCCESS_RATE := MATING_SUCCESS_RATE REPRODUCTION_CONFIG;
  PREGNANCY_DURATION := PREGNANCY_DURATION REPRODUCTION_CONFIG;
  MATURITY_THRESHOLD := MATURITY_THRESHOLD REPRODUCTION_CONFIG;
  FEMALE_REPRODUCTION_COOLDOWN := FEMALE_REPRODUCTION_COOLDOWN REPRODUCTION_CONFIG;
  MALE_REPRODUCTION_COOLDOWN := MALE_REPRODUCTION_COOLDOWN REPRODUCTION_CONFIG;
  MALE_STRATEGIES := MALE_STRATEGIES REPRODUCTION_CONFIG;
  ORANGE_STRATEGY := Some (<["cooldown"%string := JNum (601 # 2)]> ORANGE_STRATEGY_default);
  BLUE_STRATEGY := BLUE_STRATEGY REPRODUCTION_CONFIG;
  YELLOW_STRATEGY := YELLOW_STRATEGY REPRODUCTION_CONFIG;
  FEMALE_SELECTION := FEMALE_SELECTION REPRODUCTION_CONFIG;
  SPATIAL := SPATIAL REPRODUCTION_CONFIG
|}.

(** The default configuration without a [MATING_SUCCESS_RATE], and with a
    [baseScore] that is NaN. *)
Definition rateless_config : ConfigObject := {|
  given_MATING_SUCCESS_RATE := None;
  given_PREGNANCY_DURATION := given_PREGNANCY_DURATION (as_given REPRODUCTION_CONFIG);
  given_MATURITY_THRESHOLD := given_MATURITY_THRESHOLD (as_given REPRODUCTION_CONFIG);
  given_FEMALE_REPRODUCTION_COOLDOWN :=
    given_FEMALE_REPRODUCTION_COOLDOWN (as_given REPRODUCTION_CONFIG);
  given_MALE_REPRODUCTION_COOLDOWN :=
    given_MALE_REPRODUCTION_COOLDOWN (as_given REPRODUCTION_CONFIG);
  given_MALE_STRATEGIES := given_MALE_STRATEGIES (as_given REPRODUCTION_CONFIG);
  given_ORANGE_STRATEGY := given_ORANGE_STRATEGY (as_given REPRODUCTION_CONFIG);
  given_BLUE_STRATEGY := given_BLUE_STRATEGY (as_given REPRODUCTION_CONFIG);
  given_YELLOW_STRATEGY := given_YELLOW_STRATEGY (as_given REPRODUCTION_CONFIG);
  given_FEMALE_SELECTION :=
    Some {|
      given_baseScore := Some JNaN;
      given_randomVariance := Some (JNum 20);
      given_evaluationChance := Some (JNum (8 # 1000));
      given_agreeableness := Some (Some (JNum 60));
      given_openness := Some (Some (JNum 70));
      given_neuroticism := Some (Some (JNum 40))
    |}
|}.

End ReproductionConfig.

(** ** LifespanCombatSystem.js: the configuration object *)

Module LifespanConfig.

Record t := {
  maxLifespan : Q;
  minLifespan : Q;
  agingStartAge : Q;
  maxHealth : Q;
  naturalHealing : Q;
  agingDamage : Q;
  baseDamage : Q;
  damageVariance : Q;
  attackRange : Q;
  attackCooldown : Q;
  criticalChance : Q;
  criticalMultiplier : Q;
  territorialCombatChance : Q;
  randomCombatChance : Q;
  combatEffectDuration : Q;
  deathEffectDuration : Q
}.

(** [config.key || fallback]: an absent or zero entry takes the fallback. *)
Definition or_default (config : gmap string Q) (key : string) (fallback : Q) : Q :=
  match config !! key with
  | Some q => if Qeq_bool q 0 then fallback else q
  | None => fallback
  end.

(** The constructor's [this.config]. *)
Definition of_options (config : gmap string Q) : t := {|
  maxLifespan := or_default config "maxLifespan" 36000;
  minLifespan := or_default config "minLifespan" 18000;
  agingStartAge := or_default config "agingStartAge" 25200;
  maxHealth := or_default config "maxHealth" 100;
  naturalHealing := or_default config "naturalHealing" (1 # 10);
  agingDamage := or_default config "agingDamage" (5 # 100);
  baseDamage := or_default config "baseDamage" 15;
  damageVariance := or_default config "damageVariance" 5;
  attackRange := or_default config "attackRange" 20;
  attackCooldown := or_default config "attackCooldown" 60;
  criticalChance := or_default config "criticalChance" (1 # 10);
  criticalMultiplier := or_default config "criticalMultiplier" (15 # 10);
  territorialCombatChance := or_default config "territorialCombatChance" (2 # 100);
  randomCombatChance := or_default config "randomCombatChance" (1 # 1000);
  combatEffectDuration := or_default config "combatEffectDuration" 30;
  deathEffectDuration := or_default config "deathEffectDuration" 60
|}.

(** [new LifespanCombatSystem()] *)
Definition defaults : t := Eval vm_compute in of_options ∅.

End LifespanConfig.

(** ** The entity model *)

(** A reference to a dwarf object. *)
Definition ref := nat.

(** A property holding an object reference: [undefined], [null] or an
    object. *)
Inductive jsref :=
| Undefined
| Null
| Obj (r : ref).

Definition ref_undefined (v : jsref) : bool :=
  match v with Undefined => true | _ => false end.

(** [a === b] for a reference-valued property against an object. *)
Definition points_to (v : jsref) (r : ref) : bool :=
  match v with Obj r' => Nat.eqb r' r | _ => false end.

Record Personality := {
  agreeableness : Q;
  openness : Q;
  neuroticism : Q;
  extraversion : Q;
  conscientiousness : Q
}.

Record CombatStats := {
  attack : Q;
  defense : Q;
  speed : Q;
  critChance : Q
}.

Record DamageNumber := {
  dn_damage : Z;
  dn_x : Q;
  dn_y : Q;
  dn_timer : Q;
  dn_isCritical : bool;
  dn_velocity_x : Q;
  dn_velocity_y : Q
}.

(** Reproductive sub-state of a dwarf. *)
Record Reproductive := {
  reproductionStrategy : option string;
  mateSeekingTimer : option Q;
  reproductionCooldown : option Q;
  isPregnant : option bool;
  pregnancyTimer : option Q;
  guardedFemale : jsref;
  territoryX : option Q;
  territoryY : option Q
}.

(** Vitality sub-state of a dwarf. *)
Record Vitality := {
  age : option Q;
  maxLifespan : option Q;
  health : option Q;
  maxHealth : option Q;
  combatStats : option CombatStats;
  attackCooldown : option Q;
  combatEffectTimer : option Q;
  isInCombat : option bool;
  combatTarget : jsref;
  lastAttacker : jsref;
  healthBarVisible : option bool;
  damageNumbers : option (list DamageNumber);
  isDead : option bool
}.

Record Dwarf := {
  name : string;
  x : Q;
  y : Q;
  gender : string;
  isAdult : bool;
  personality : option Personality;
  walkSpeed : option Q;
  efficiency : option Q;
  targetX : option Q;
  targetY : option Q;
  repro : Reproductive;
  vital : Vitality
}.

(** *** Property assignment *)

Definition set_reproductionStrategy (v : option string) (r : Reproductive) :=
  {| reproductionStrategy := v; mateSeekingTimer := mateSeekingTimer r;
     reproductionCooldown := reproductionCooldown r; isPregnant := isPregnant r;
     pregnancyTimer := pregnancyTimer r; guardedFemale := guardedFemale r;
     territoryX := territoryX r; territoryY := territoryY r |}.
Definition set_mateSeekingTimer (v : option Q) (r : Reproductive) :=
  {| reproductionStrategy := reproductionStrategy r; mateSeekingTimer := v;
     reproductionCooldown := reproductionCooldown r; isPregnant := isPregnant r;
     pregnancyTimer := pregnancyTimer r; guardedFemale := guardedFemale r;
     territoryX := territoryX r; territoryY := territoryY r |}.
Definition set_reproductionCooldown (v : option Q) (r : Reproductive) :=
  {| reproductionStrategy := reproductionStrategy r;
     mateSeekingTimer := mateSeekingTimer r;
     reproductionCooldown := v; isPregnant := isPregnant r;
     pregnancyTimer := pregnancyTimer r; guardedFemale := guardedFemale r;
     territoryX := territoryX r; territoryY := territoryY r |}.
Definition set_isPregnant (v : option bool) (r : Reproductive) :=
  {| reproductionStrategy := reproductionStrategy r;
     mateSeekingTimer := mateSeekingTimer r;
     reproductionCooldown := reproductionCooldown r; isPregnant := v;
     pregnancyTimer := pregnancyTimer r; guardedFemale := guardedFemale r;
     territoryX := territoryX r; territoryY := territoryY r |}.
Definition set_pregnancyTimer (v : option Q) (r : Reproductive) :=
  {| reproductionStrategy := reproductionStrategy r;
     mateSeekingTimer := mateSeekingTimer r;
     reproductionCooldown := reproductionCooldown r; isPregnant := isPregnant r;
     pregnancyTimer := v; guardedFemale := guardedFemale r;
     territoryX := territoryX r; territoryY := territoryY r |}.
Definition set_guardedFemale (v : jsref) (r : Reproductive) :=
  {| reproductionStrategy := reproductionStrategy r;
     mateSeekingTimer := mateSeekingTimer r;
     reproductionCooldown := reproductionCooldown r; isPregnant := isPregnant r;
     pregnancyTimer := pregnancyTimer r; guardedFemale := v;
     territoryX := territoryX r; territoryY := territoryY r |}.
Definition set_territoryX (v : option Q) (r : Reproductive) :=
  {| reproductionStrategy := reproductionStrategy r;
     mateSeekingTimer := mateSeekingTimer r;
     reproductionCooldown := reproductionCooldown r; isPregnant := isPregnant r;
     pregnancyTimer := pregnancyTimer r; guardedFemale := guardedFemale r;
     territoryX := v; territoryY := territoryY r |}.
Definition set_territoryY (v : option Q) (r : Reproductive) :=
  {| reproductionStrategy := reproductionStrategy r;
     mateSeekingTimer := mateSeekingTimer r;
     reproductionCooldown := reproductionCooldown r; isPregnant := isPregnant r;
     pregnancyTimer := pregnancyTimer r; guardedFemale := guardedFemale r;
     territoryX := territoryX r; territoryY := v |}.

Definition set_age (v : option Q) (t : Vitality) :=
  {| age := v; maxLifespan := maxLifespan t; health := health t;
     maxHealth := maxHealth t; combatStats := combatStats t;
     attackCooldown := attackCooldown t;
     combatEffectTimer := combatEffectTimer t; isInCombat := isInCombat t;
     combatTarget := combatTarget t; lastAttacker := lastAttacker t;
     healthBarVisible := healthBarVisible t;
     damageNumbers := damageNumbers t; isDead := isDead t |}.
Definition set_health (v : option Q) (t : Vitality) :=
  {| age := age t; maxLifespan := maxLifespan t; health := v;
     maxHealth := maxHealth t; combatStats := combatStats t;
     attackCooldown := attackCooldown t;
     combatEffectTimer := combatEffectTimer t; isInCombat := isInCombat t;
     combatTarget := combatTarget t; lastAttacker := lastAttacker t;
     healthBarVisible := healthBarVisible t;
     damageNumbers := damageNumbers t; isDead := isDead t |}.
Definition set_attackCooldown (v : option Q) (t : Vitality) :=
  {| age := age t; maxLifespan := maxLifespan t; health := health t;
     maxHealth := maxHealth t; combatStats := combatStats t;
     attackCooldown := v;
     combatEffectTimer := combatEffectTimer t; isInCombat := isInCombat t;
     combatTarget := combatTarget t; lastAttacker := lastAttacker t;
     healthBarVisible := healthBarVisible t;
     damageNumbers := damageNumbers t; isDead := isDead t |}.
Definition set_combatEffectTimer (v : option Q) (t : Vitality) :=
  {| age := age t; maxLifespan := maxLifespan t; health := health t;
     maxHealth := maxHealth t; combatStats := combatStats t;
     attackCooldown := attackCooldown t;
     combatEffectTimer := v; isInCombat := isInCombat t;
     combatTarget := combatTarget t; lastAttacker := lastAttacker t;
     healthBarVisible := healthBarVisible t;
     damageNumbers := damageNumbers t; isDead := isDead t |}.
Definition set_isInCombat (v : option bool) (t : Vitality) :=
  {| age := age t; maxLifespan := maxLifespan t; health := health t;
     maxHealth := maxHealth t; combatStats := combatStats t;
     attackCooldown := attackCooldown t;
     combatEffectTimer := combatEffectTimer t; isInCombat := v;
     combatTarget := combatTarget t; lastAttacker := lastAttacker t;
     healthBarVisible := healthBarVisible t;
     damageNumbers := damageNumbers t; isDead := isDead t |}.
Definition set_combatTarget (v : jsref) (t : Vitality) :=
  {| age := age t; maxLifespan := maxLifespan t; health := health t;
     maxHealth := maxHealth t; combatStats := combatStats t;
     attackCooldown := attackCooldown t;
     combatEffectTimer := combatEffectTimer t; isInCombat := isInCombat t;
     combatTarget := v; lastAttacker := lastAttacker t;
     healthBarVisible := healthBarVisible t;
     damageNumbers := damageNumbers t; isDead := isDead t |}.
Definition set_lastAttacker (v : jsref) (t : Vitality) :=
  {| age := age t; maxLifespan := maxLifespan t; health := health t;
     maxHealth := maxHealth t; combatStats := combatStats t;
     attackCooldown := attackCooldown t;
     combatEffectTimer := combatEffectTimer t; isInCombat := isInCombat t;
     combatTarget := combatTarget t; lastAttacker := v;
     healthBarVisible := healthBarVisible t;
     damageNumbers := damageNumbers t; isDead := isDead t |}.
Definition set_healthBarVisible (v : option bool) (t : Vitality) :=
  {| age := age t; maxLifespan := maxLifespan t; health := health t;
     maxHealth := maxHealth t; combatStats := combatStats t;
     attackCooldown := attackCooldown t;
     combatEffectTimer := combatEffectTimer t; isInCombat := isInCombat t;
     combatTarget := combatTarget t; lastAttacker := lastAttacker t;
     healthBarVisible := v;
     damageNumbers := damageNumbers t; isDead := isDead t |}.
Definition set_damageNumbers (v : option (list DamageNumber)) (t : Vitality) :=
  {| age := age t; maxLifespan := maxLifespan t; health := health t;
     maxHealth := maxHealth t; combatStats := combatStats t;
     attackCooldown := attackCooldown t;
     combatEffectTimer := combatEffectTimer t; isInCombat := isInCombat t;
     combatTarget := combatTarget t; lastAttacker := lastAttacker t;
     healthBarVisible := healthBarVisible t;
     damageNumbers := v; isDead := isDead t |}.
Definition set_isDead (v : option bool) (t : Vitality) :=
  {| age := age t; maxLifespan := maxLifespan t; health := health t;
     maxHealth := maxHealth t; combatStats := combatStats t;
     attackCooldown := attackCooldown t;
     combatEffectTimer := combatEffectTimer t; isInCombat := isInCombat t;
     combatTarget := combatTarget t; lastAttacker := lastAttacker t;
     healthBarVisible := healthBarVisible t;
     damageNumbers := damageNumbers t; isDead := v |}.

Definition with_repro (f : Reproductive -> Reproductive) (d : Dwarf) : Dwarf :=
  {| name := name d; x := x d; y := y d; gender := gender d;
     isAdult := isAdult d; personality := personality d;
     walkSpeed := walkSpeed d; efficiency := efficiency d;
     targetX := targetX d; targetY := targetY d;
     repro := f (repro d); vital := vital d |}.
Definition with_vital (f : Vitality -> Vitality) (d : Dwarf) : Dwarf :=
  {| name := name d; x := x d; y := y d; gender := gender d;
     isAdult := isAdult d; personality := personality d;
     walkSpeed := walkSpeed d; efficiency := efficiency d;
     targetX := targetX d; targetY := targetY d;
     repro := repro d; vital := f (vital d) |}.
Definition set_position (px py : Q) (d : Dwarf) : Dwarf :=
  {| name := name d; x := px; y := py; gender := gender d;
     isAdult := isAdult d; personality := personality d;
     walkSpeed := walkSpeed d; efficiency := efficiency d;
     targetX := targetX d; targetY := targetY d;
     repro := repro d; vital := vital d |}.
Definition set_target (tx ty : option Q) (d : Dwarf) : Dwarf :=
  {| name := name d; x := x d; y := y d; gender := gender d;
     isAdult := isAdult d; personality := personality d;
     walkSpeed := walkSpeed d; efficiency := efficiency d;
     targetX := tx; targetY := ty;
     repro := repro d; vital := vital d |}.
Definition set_efficiency (v : option Q) (d : Dwarf) : Dwarf :=
  {| name := name d; x := x d; y := y d; gender := gender d;
     isAdult := isAdult d; personality := personality d;
     walkSpeed := walkSpeed d; efficiency := v;
     targetX := targetX d; targetY := targetY d;
     repro := repro d; vital := vital d |}.

(** ** Events, logs and deferred actions *)

Record BirthMother := {
  bm_name : string;
  bm_x : Q;
  bm_y : Q;
  bm_reproductionCooldown : option Q
}.

Record BirthBaby := {
  bb_name : string;
  bb_x : Q;
  bb_y : Q;
  bb_gender : string;
  bb_reproductionStrategy : option string
}.

(** The payloads the modelled components emit. *)
Inductive Payload :=
| MatingFailure (male female reason : string)
| MatingAttempt (male female : string) (strategy : option string)
    (distance : Q) (success : bool)
| MatingSuccess (male female : string) (strategy : option string)
    (initiatedBy : option string)
| Birth (mother : BirthMother) (baby : BirthBaby) (pregnancyDuration : option Q)
| StrategyAssigned (male : string) (male_x male_y : Q) (strategy : option string)
| ReproductionInitialized (dwarf gender : string) (strategy : option string)
    (adult : bool)
| Custom (fields : list (string * string)).

Record EventData := {
  payload : Payload;
  data_timestamp : option Z
}.

Record EventObject := {
  ev_type : string;
  ev_timestamp : Z;
  ev_data : EventData
}.

Inductive ConsoleLine :=
| console_log (msg : string)
| console_error (msg : string).

Record LogEntry := {
  log_message : string;
  log_important : bool;
  log_type : option string
}.

Record Skull := {
  skull_x : Q;
  skull_y : Q;
  skull_name : string;
  skull_age : Q;
  skull_maxAge : Q;
  skull_opacity : Q
}.

Record CombatEffect := {
  ce_x : Q;
  ce_y : Q;
  ce_timer : Q
}.

Record DeathEffect := {
  de_x : Q;
  de_y : Q;
  de_timer : Q;
  de_name : string
}.

Record Stats := {
  totalDeaths : Z;
  deathsByAge : Z;
  deathsByCombat : Z;
  totalCombats : Z;
  totalDamageDealt : Z
}.

Record LifespanSystem := {
  skulls : list Skull;
  combatEffects : list CombatEffect;
  deathEffects : list DeathEffect;
  stats : Stats
}.

(** An action handed to [setTimeout]: it runs after the current call stack,
    never inside the tick that scheduled it. *)
Inductive Timer :=
| Retaliation (attacker target : ref) (delay : Z).

Inductive exn :=
| TypeError (msg : string)
| Error (msg : string)
| OutOfModel (msg : string).

Section Engine.

Context {Obs : Type}.

(** JavaScript's [Math.sqrt]. *)
Variable Math_sqrt : Q -> Q.

(** The host's global [Dwarf] constructor, when the host defines one:
    [new Dwarf(x, y, name, isAdult)] builds the object from its arguments
    and the coming random numbers, and says how many of them it drew. *)
Variable Dwarf_constructor :
  option (Q -> Q -> option string -> bool -> (nat -> Q) -> Dwarf * nat).

(** *** ReproductionEventBus.js: listeners *)

(** What calling a subscriber does: it updates the observer state and
    returns, or raises. *)
Inductive Outcome :=
| Returns (o : Obs)
| Raises (o : Obs) (error : string).

(** A function value: its identity (for [===]) and its behaviour, which
    reads the event and acts on the observer state only. *)
Record Callback := {
  cb_id : nat;
  cb_run : EventObject -> Obs -> Outcome
}.

Record Listener := {
  callback : Callback;
  once : bool;
  priority : Q
}.

Record EventBus := {
  listeners : gmap string (list Listener);
  eventHistory : list EventObject;
  maxHistorySize : nat;
  debugMode : bool
}.

(** *** The state of the running program *)

Record State := {
  heap : gmap ref Dwarf;
  dwarfs : option (list ref);
  random : nat -> Q;
  draws : nat;
  clock : Z;
  console : list ConsoleLine;
  gameLog : option (list LogEntry);
  bus : EventBus;
  obs : Obs;
  lifespan : LifespanSystem;
  pregnantFemales : list ref;
  timers : list Timer
}.

Definition set_heap (v : gmap ref Dwarf) (s : State) : State :=
  {| heap := v; dwarfs := dwarfs s; random := random s; draws := draws s;
     clock := clock s; console := console s; gameLog := gameLog s;
     bus := bus s; obs := obs s; lifespan := lifespan s;
     pregnantFemales := pregnantFemales s; timers := timers s |}.
Definition set_dwarfs (v : option (list ref)) (s : State) : State :=
  {| heap := heap s; dwarfs := v; random := random s; draws := draws s;
     clock := clock s; console := console s; gameLog := gameLog s;
     bus := bus s; obs := obs s; lifespan := lifespan s;
     pregnantFemales := pregnantFemales s; timers := timers s |}.
Definition set_draws (v : nat) (s : State) : State :=
  {| heap := heap s; dwarfs := dwarfs s; random := random s; draws := v;
     clock := clock s; console := console s; gameLog := gameLog s;
     bus := bus s; obs := obs s; lifespan := lifespan s;
     pregnantFemales := pregnantFemales s; timers := timers s |}.
Definition set_console (v : list ConsoleLine) (s : State) : State :=
  {| heap := heap s; dwarfs := dwarfs s; random := random s; draws := draws s;
     clock := clock s; console := v; gameLog := gameLog s;
     bus := bus s; obs := obs s; lifespan := lifespan s;
     pregnantFemales := pregnantFemales s; timers := timers s |}.
Definition set_gameLog (v : option (list LogEntry)) (s : State) : State :=
  {| heap := heap s; dwarfs := dwarfs s; random := random s; draws := draws s;
     clock := clock s; console := console s; gameLog := v;
     bus := bus s; obs := obs s; lifespan := lifespan s;
     pregnantFemales := pregnantFemales s; timers := timers s |}.
Definition set_bus (v : EventBus) (s : State) : State :=
  {| heap := heap s; dwarfs := dwarfs s; random := random s; draws := draws s;
     clock := clock s; console := console s; gameLog := gameLog s;
     bus := v; obs := obs s; lifespan := lifespan s;
     pregnantFemales := pregnantFemales s; timers := timers s |}.
Definition set_obs (v : Obs) (s : State) : State :=
  {| heap := heap s; dwarfs := dwarfs s; random := random s; draws := draws s;
     clock := clock s; console := console s; gameLog := gameLog s;
     bus := bus s; obs := v; lifespan := lifespan s;
     pregnantFemales := pregnantFemales s; timers := timers s |}.
Definition set_lifespan (v : LifespanSystem) (s : State) : State :=
  {| heap := heap s; dwarfs := dwarfs s; random := random s; draws := draws s;
     clock := clock s; console := console s; gameLog := gameLog s;
     bus := bus s; obs := obs s; lifespan := v;
     pregnantFemales := pregnantFemales s; timers := timers s |}.
Definition set_pregnantFemales (v : list ref) (s : State) : State :=
  {| heap := heap s; dwarfs := dwarfs s; random := random s; draws := draws s;
     clock := clock s; console := console s; gameLog := gameLog s;
     bus := bus s; obs := obs s; lifespan := lifespan s;
     pregnantFemales := v; timers := timers s |}.
Definition set_timers (v : list Timer) (s : State) : State :=
  {| heap := heap s; dwarfs := dwarfs s; random := random s; draws := draws s;
     clock := clock s; console := console s; gameLog := gameLog s;
     bus := bus s; obs := obs s; lifespan := lifespan s;
     pregnantFemales := pregnantFemales s; timers := v |}.

(** *** Computations: state and exceptions *)

Inductive Res (A : Type) :=
| Ok (a : A) (s : State)
| Throw (e : exn) (s : State).
Arguments Ok {A} a s.
Arguments Throw {A} e s.

Definition M (A : Type) := State -> Res A.

Definition ret {A} (a : A) : M A := fun s => Ok a s.

Definition bind {A B} (m : M A) (k : A -> M B) : M B :=
  fun s => match m s with
           | Ok a s' => k a s'
           | Throw e s' => Throw e s'
           end.

Definition throw {A} (e : exn) : M A := fun s => Throw e s.

(** [try { m } catch (error) { handler(error) }] *)
Definition try_catch {A} (m : M A) (handler : exn -> M A) : M A :=
  fun s => match m s with
           | Ok a s' => Ok a s'
           | Throw e s' => handler e s'
           end.

Definition gets {A} (f : State -> A) : M A := fun s => Ok (f s) s.

Definition modify (f : State -> State) : M unit := fun s => Ok tt (f s).

Notation "v <- m ;; k" := (bind m (fun v => k))
  (at level 100, m at next level, right associativity).
Notation "m ;; k" := (bind m (fun _ => k))
  (at level 100, right associativity).

Definition when (b : bool) (m : M unit) : M unit :=
  if b then m else ret tt.

(** [list.forEach(body)] and [for (const a of list) body] over a list that
    the body does not resize. *)
Fixpoint forEach {A} (l : list A) (body : A -> M unit) : M unit :=
  match l with
  | [] => ret tt
  | a :: l' => body a ;; forEach l' body
  end.

(** [list.filter(keep)] with a predicate that has effects. *)
Fixpoint filterM {A} (keep : A -> M bool) (l : list A) : M (list A) :=
  match l with
  | [] => ret []
  | a :: l' =>
      b <- keep a ;;
      rest <- filterM keep l' ;;
      ret (if b then a :: rest else rest)
  end.

(** Reading an object through a reference. *)
Definition read (r : ref) : M Dwarf :=
  fun s => match heap s !! r with
           | Some d => Ok d s
           | None => Throw (OutOfModel "dangling reference") s
           end.

(** Assigning properties of the object behind a reference. *)
Definition assign (r : ref) (f : Dwarf -> Dwarf) : M unit :=
  modify (fun s => set_heap (alter f r (heap s)) s).

Definition Math_random : M Q :=
  fun s => Ok (random s (draws s)) (set_draws (S (draws s)) s).

Definition Date_now : M Z := gets clock.

Definition console_write (l : ConsoleLine) : M unit :=
  modify (fun s => set_console (console s ++ [l]) s).

(** [Math.floor] *)
Definition Math_floor (q : Q) : Z := Qfloor q.

(** [a / b]; a zero divisor leaves the rationals. *)
Definition divide (a b : Q) : M Q :=
  if Qeq_bool b 0 then throw (OutOfModel "division by zero") else ret (a / b).

(** *** ReproductionEventBus.js *)

Definition with_listeners (f : gmap string (list Listener) -> gmap string (list Listener))
    (b : EventBus) : EventBus :=
  {| listeners := f (listeners b); eventHistory := eventHistory b;
     maxHistorySize := maxHistorySize b; debugMode := debugMode b |}.

Definition with_history (f : list EventObject -> list EventObject)
    (b : EventBus) : EventBus :=
  {| listeners := listeners b; eventHistory := f (eventHistory b);
     maxHistorySize := maxHistorySize b; debugMode := debugMode b |}.

(** [new ReproductionEventBus()] *)
Definition ReproductionEventBus_new : EventBus :=
  {| listeners := ∅; eventHistory := []; maxHistorySize := 1000;
     debugMode := false |}.

(** One insertion step of [listeners.sort((a, b) => b.priority - a.priority)]:
    the sort is stable, so [l] goes before the first listener whose priority
    does not exceed its own. *)
Fixpoint insert_by_priority (l : Listener) (ls : list Listener) : list Listener :=
  match ls with
  | [] => [l]
  | l' :: ls' =>
      if Qle_bool (priority l') (priority l) then l :: l' :: ls'
      else l' :: insert_by_priority l ls'
  end.

Fixpoint sort_by_priority (ls : list Listener) : list Listener :=
  match ls with
  | [] => []
  | l :: ls' => insert_by_priority l (sort_by_priority ls')
  end.

Record SubscribeOptions := {
  opt_once : option bool;
  opt_priority : option Q
}.

(** [subscribe(eventType, callback, options)]; the unsubscribe function it
    returns is [unsubscribe eventType callback]. *)
Definition subscribe (eventType : string) (cb : Callback)
    (options : SubscribeOptions) : M unit :=
  let listener :=
    {| callback := cb;
       once := default false (opt_once options);
       priority := match opt_priority options with
                   | Some p => if Qeq_bool p 0 then 0 else p
                   | None => 0
                   end |} in
  modify (fun s =>
    set_bus (with_listeners (fun m =>
      <[eventType := sort_by_priority (default [] (m !! eventType) ++ [listener])]> m)
      (bus s)) s).

(** [listeners.splice(listeners.findIndex(l => l.callback === callback), 1)] *)
Fixpoint remove_first (id : nat) (ls : list Listener) : list Listener :=
  match ls with
  | [] => []
  | l :: ls' =>
      if Nat.eqb (cb_id (callback l)) id then ls' else l :: remove_first id ls'
  end.

Definition unsubscribe (eventType : string) (cb : Callback) : M unit :=
  modify (fun s =>
    set_bus (with_listeners (fun m =>
      match m !! eventType with
      | None => m
      | Some ls =>
          let ls' := remove_first (cb_id cb) ls in
          match ls' with
          | [] => delete eventType m
          | _ => <[eventType := ls']> m
          end
      end) (bus s)) s).

(** [_addToHistory(eventObject)] *)
Definition _addToHistory (eventObject : EventObject) : M unit :=
  modify (fun s =>
    set_bus (with_history (fun h =>
      let h' := h ++ [eventObject] in
      if (maxHistorySize (bus s) <? length h')%nat then tail h' else h')
      (bus s)) s).

(** [listener.callback(eventObject)] *)
Definition call_listener (l : Listener) (eventObject : EventObject) : M unit :=
  fun s => match cb_run (callback l) eventObject (obs s) with
           | Returns o => Ok tt (set_obs o s)
           | Raises o error => Throw (Error error) (set_obs o s)
           end.

(** The body of the loop of [emit]: one listener is called inside
    [try { ... } catch (error) { console.error(...) }]. *)
Definition notify (eventType : string) (eventObject : EventObject)
    (listener : Listener) : M unit :=
  try_catch
    (call_listener listener eventObject ;;
     when (once listener) (unsubscribe eventType (callback listener)))
    (fun error =>
       console_write (console_error
         ("[ReproductionEventBus] Error in event listener for " +:+ eventType))).

(** [emit(eventType, eventData)] *)
Definition emit (eventType : string) (eventData : EventData) : M unit :=
  now <- Date_now ;;
  let eventObject :=
    {| ev_type := eventType; ev_timestamp := now; ev_data := eventData |} in
  _addToHistory eventObject ;;
  debug <- gets (fun s => debugMode (bus s)) ;;
  when debug (console_write (console_log ("[ReproductionEventBus] " +:+ eventType))) ;;
  ls <- gets (fun s => listeners (bus s) !! eventType) ;;
  match ls with
  | None => ret tt
  | Some listenersCopy => forEach listenersCopy (notify eventType eventObject)
  end.

(** *** WorldInterface.js *)

(** [getAllDwarfs()] *)
Definition getAllDwarfs : M (list ref) :=
  gets (fun s => default [] (dwarfs s)).

(** [calculateDistance(obj1, obj2)] *)
Definition calculateDistance (obj1 obj2 : ref) : M Q :=
  o1 <- read obj1 ;;
  o2 <- read obj2 ;;
  let dx := x o1 - x o2 in
  let dy := y o1 - y o2 in
  ret (Math_sqrt (dx * dx + dy * dy)).

(** [getNearbyDwarfs(centerDwarf, radius)], without the optional filter. *)
Definition getNearbyDwarfs (centerDwarf : ref) (radius : Q) : M (list ref) :=
  allDwarfs <- getAllDwarfs ;;
  filterM (fun dwarf =>
    if Nat.eqb dwarf centerDwarf then ret false
    else
      distance <- calculateDistance centerDwarf dwarf ;;
      ret (Qlt_bool distance radius)) allDwarfs.

(** [addDwarf(dwarf)] *)
Definition addDwarf (dwarf : ref) : M unit :=
  modify (fun s => set_dwarfs (Some (default [] (dwarfs s) ++ [dwarf])) s).

(** [addLog(message, important, type)]: the host's global [addLog] when it
    is defined, the console otherwise. *)
Definition addLog (message : string) (important : bool) (type : option string)
    : M unit :=
  fun s =>
    match gameLog s with
    | Some entries =>
        Ok tt (set_gameLog (Some (entries ++
          [{| log_message := message; log_important := important;
              log_type := type |}])) s)
    | None =>
        console_write
          (console_log ("[" +:+ default "LOG" type +:+ "] " +:+ message)) s
    end.

(** [createDwarf(x, y, name, isAdult)]: the new object gets a reference no
    object has. *)
Definition createDwarf (px py : Q) (nm : option string) (adult : bool) : M ref :=
  match Dwarf_constructor with
  | Some construct =>
      fun s =>
        let '(d, n) := construct px py nm adult (fun i => random s (draws s + i)%nat) in
        let r := fresh (dom (heap s)) in
        Ok r (set_draws (draws s + n)%nat (set_heap (<[r := d]> (heap s)) s))
  | None => throw (Error "Dwarf constructor not available in global scope")
  end.

(** [setDwarfTarget(dwarf, x, y)] *)
Definition setDwarfTarget (dwarf : ref) (tx ty : Q) : M unit :=
  assign dwarf (set_target (Some tx) (Some ty)).

(** *** BaseStrategy.js: the shared mating routine *)

Import ReproductionConfig.

Definition strategy_text (s : option string) : string := default "undefined" s.

(** [male.reproductionStrategy === tag] *)
Definition strategy_is (s : option string) (tag : string) : bool :=
  match s with Some t => String.eqb t tag | None => false end.

Definition expecting_message (m f : Dwarf) : string :=
  name m +:+ " (" +:+ strategy_text (reproductionStrategy (repro m))
    +:+ ") and " +:+ name f +:+ " are expecting!".

(** [attemptMating(male, female)] *)
Definition attemptMating (config : Config) (male female : ref) : M bool :=
  f <- read female ;;
  if num_gt (reproductionCooldown (repro f)) 0 || truthy (isPregnant (repro f))
  then
    m <- read male ;;
    now <- Date_now ;;
    emit "mating_failure"
      {| payload := MatingFailure (name m) (name f) "female_not_available";
         data_timestamp := Some now |} ;;
    ret false
  else
    distance <- calculateDistance male female ;;
    r <- Math_random ;;
    let success := Qlt_bool r (MATING_SUCCESS_RATE config) in
    m <- read male ;;
    now <- Date_now ;;
    emit "mating_attempt"
      {| payload := MatingAttempt (name m) (name f)
                      (reproductionStrategy (repro m)) distance success;
         data_timestamp := Some now |} ;;
    if success then
      assign female (with_repro (set_isPregnant (Some true))) ;;
      assign female (with_repro (set_pregnancyTimer (Some 0))) ;;
      assign female (with_repro
        (set_reproductionCooldown (Some (FEMALE_REPRODUCTION_COOLDOWN config)))) ;;
      assign male (with_repro
        (set_reproductionCooldown (Some (MALE_REPRODUCTION_COOLDOWN config)))) ;;
      addLog (expecting_message m f) true (Some "success"%string) ;;
      now <- Date_now ;;
      emit "mating_success"
        {| payload := MatingSuccess (name m) (name f)
                        (reproductionStrategy (repro m)) None;
           data_timestamp := Some now |} ;;
      ret true
    else ret false.

(** *** FemaleSelection.js *)

(** [a > threshold] against a configured threshold. *)
Definition above (a : Q) (threshold : option Q) : bool :=
  match threshold with Some t => Qlt_bool t a | None => false end.
Definition below (a : Q) (threshold : option Q) : bool :=
  match threshold with Some t => Qlt_bool a t | None => false end.

(** The body of [scoreMate] once the female's personality, the male's
    strategy and the random number are at hand. *)
Definition scoreMate_body (femaleConfig : FemaleSelectionConfig)
    (p : Personality) (strategy : option string) (r : Q) : Q :=
  let score := baseScore femaleConfig in
  let score :=
    if above (agreeableness p) (agr_threshold (cfg_agreeableness femaleConfig))
    then
      let score :=
        if strategy_is strategy "blue"
        then score + blueBonus (cfg_agreeableness femaleConfig) else score in
      if strategy_is strategy "orange"
      then score + orangePenalty (cfg_agreeableness femaleConfig) else score
    else score in
  let score :=
    if above (openness p) (opn_threshold (cfg_openness femaleConfig))
    then
      if strategy_is strategy "yellow"
      then score + yellowBonus (cfg_openness femaleConfig) else score
    else score in
  let score :=
    if below (neuroticism p) (neu_threshold (cfg_neuroticism femaleConfig))
    then
      if strategy_is strategy "orange"
      then score + orangeBonus (cfg_neuroticism femaleConfig) else score
    else score in
  score + r * randomVariance femaleConfig.

(** [scoreMate(female, male)] *)
Definition scoreMate (config : Config) (female male : ref) : M Q :=
  f <- read female ;;
  m <- read male ;;
  match personality f with
  | None => throw (TypeError "Cannot read properties of undefined")
  | Some p =>
      r <- Math_random ;;
      ret (scoreMate_body (FEMALE_SELECTION config) p
             (reproductionStrategy (repro m)) r)
  end.

(** [attemptMatingWithFemale(male, female)] *)
Definition attemptMatingWithFemale (config : Config) (male female : ref) : M bool :=
  f <- read female ;;
  if num_gt (reproductionCooldown (repro f)) 0 || truthy (isPregnant (repro f))
  then ret false
  else
    r <- Math_random ;;
    let success := Qlt_bool r (MATING_SUCCESS_RATE config) in
    if success then
      assign female (with_repro (set_isPregnant (Some true))) ;;
      assign female (with_repro (set_pregnancyTimer (Some 0))) ;;
      assign female (with_repro
        (set_reproductionCooldown (Some (FEMALE_REPRODUCTION_COOLDOWN config)))) ;;
      assign male (with_repro
        (set_reproductionCooldown (Some (MALE_REPRODUCTION_COOLDOWN config)))) ;;
      m <- read male ;;
      addLog (expecting_message m f) true (Some "success"%string) ;;
      now <- Date_now ;;
      emit "mating_success"
        {| payload := MatingSuccess (name m) (name f)
                        (reproductionStrategy (repro m)) (Some "female"%string);
           data_timestamp := Some now |} ;;
      ret true
    else ret false.

(** [acceptMating(female, male)] *)
Definition acceptMating (config : Config) (female male : ref) : M bool :=
  success <- attemptMatingWithFemale config male female ;;
  f <- read female ;;
  m <- read male ;;
  now <- Date_now ;;
  (if success then
     emit "mate_selected"
       {| payload := Custom [("female", name f); ("male", name m)]%string;
          data_timestamp := Some now |}
   else
     emit "mate_rejected"
       {| payload := Custom [("female", name f); ("male", name m);
                             ("reason", "mating_failed")]%string;
          data_timestamp := Some now |}) ;;
  ret success.

(** *** StrategyFactory.js *)

(** [strategies[Math.floor(r * strategies.length)]] *)
Definition pick (strategies : list string) (r : Q) : option string :=
  let i := Math_floor (r * inject_Z (Z.of_nat (length strategies))) in
  if (i <? 0)%Z then None else strategies !! Z.to_nat i.

(** [initializeStrategyProperties(male)] *)
Definition initializeStrategyProperties (male : ref) : M unit :=
  m <- read male ;;
  if strategy_is (reproductionStrategy (repro m)) "orange" then
    when (is_undefined (territoryX (repro m)))
      (assign male (with_repro (set_territoryX (Some (x m))))) ;;
    m <- read male ;;
    when (is_undefined (territoryY (repro m)))
      (assign male (with_repro (set_territoryY (Some (y m)))))
  else if strategy_is (reproductionStrategy (repro m)) "blue" then
    when (ref_undefined (guardedFemale (repro m)))
      (assign male (with_repro (set_guardedFemale Null)))
  else ret tt.

(** [assignRandomStrategy(male)] *)
Definition assignRandomStrategy (config : Config) (male : ref) : M unit :=
  m <- read male ;;
  if negb (String.eqb (gender m) "male") then ret tt
  else
    let strategies := MALE_STRATEGIES config in
    r <- Math_random ;;
    let selectedStrategy := pick strategies r in
    assign male (with_repro (set_reproductionStrategy selectedStrategy)) ;;
    initializeStrategyProperties male ;;
    now <- Date_now ;;
    emit "strategy_assigned"
      {| payload := StrategyAssigned (name m) (x m) (y m) selectedStrategy;
         data_timestamp := Some now |}.

(** *** ReproductionSystem.js *)

(** [initializeReproductionTraits(dwarf)]; [None] is a missing argument. *)
Definition initializeReproductionTraits (config : Config) (dwarf : option ref)
    : M unit :=
  match dwarf with
  | None => ret tt
  | Some dwarf =>
      d <- read dwarf ;;
      when (String.eqb (gender d) "male") (assignRandomStrategy config dwarf) ;;
      d <- read dwarf ;;
      when (is_undefined (isPregnant (repro d)))
        (assign dwarf (with_repro (set_isPregnant (Some false)))) ;;
      when (is_undefined (pregnancyTimer (repro d)))
        (assign dwarf (with_repro (set_pregnancyTimer (Some 0)))) ;;
      when (is_undefined (reproductionCooldown (repro d)))
        (assign dwarf (with_repro (set_reproductionCooldown (Some 0)))) ;;
      when (is_undefined (mateSeekingTimer (repro d)))
        (assign dwarf (with_repro (set_mateSeekingTimer (Some 0)))) ;;
      d <- read dwarf ;;
      now <- Date_now ;;
      emit "dwarf_reproduction_initialized"
        {| payload := ReproductionInitialized (name d) (gender d)
                        (reproductionStrategy (repro d)) (isAdult d);
           data_timestamp := Some now |}
  end.

(** *** PregnancyManager.js *)

(** [this.pregnantFemales.add(female)] on an insertion-ordered [Set]. *)
Definition pregnantFemales_add (female : ref) : M unit :=
  modify (fun s =>
    set_pregnantFemales
      (if bool_decide (female ∈ pregnantFemales s) then pregnantFemales s
       else pregnantFemales s ++ [female]) s).

Definition pregnantFemales_delete (female : ref) : M unit :=
  modify (fun s =>
    set_pregnantFemales (filter (fun r => r ≠ female) (pregnantFemales s)) s).

(** [giveBirth(mother)]; [reproductionSystem] says whether the manager was
    given one. *)
Definition giveBirth (config : Config) (reproductionSystem : bool)
    (mother : ref) : M unit :=
  m <- read mother ;;
  if negb (truthy (isPregnant (repro m))) then ret tt
  else
    pregnantFemales_delete mother ;;
    assign mother (with_repro (set_isPregnant (Some false))) ;;
    assign mother (with_repro (set_pregnancyTimer (Some 0))) ;;
    assign mother (with_repro
      (set_reproductionCooldown (Some (FEMALE_REPRODUCTION_COOLDOWN config)))) ;;
    let offsetRange := babySpawnRadius (SPATIAL config) in
    r1 <- Math_random ;;
    let babyX := x m + r1 * offsetRange - (offsetRange / 2) in
    r2 <- Math_random ;;
    let babyY := y m + r2 * offsetRange - (offsetRange / 2) in
    baby <- createDwarf babyX babyY None false ;;
    when reproductionSystem (initializeReproductionTraits config (Some baby)) ;;
    addDwarf baby ;;
    m <- read mother ;;
    b <- read baby ;;
    addLog (name m +:+ " gave birth to " +:+ name b +:+ "!") true
      (Some "success"%string) ;;
    now <- Date_now ;;
    emit "birth"
      {| payload :=
           Birth
             {| bm_name := name m; bm_x := x m; bm_y := y m;
                bm_reproductionCooldown := reproductionCooldown (repro m) |}
             {| bb_name := name b; bb_x := x b; bb_y := y b;
                bb_gender := gender b;
                bb_reproductionStrategy := reproductionStrategy (repro b) |}
             (pregnancyTimer (repro m));
         data_timestamp := Some now |} ;;
    console_write (console_log
      ("PregnancyManager: " +:+ name m +:+ " gave birth to " +:+ name b)).

(** [updatePregnancy(female)] *)
Definition updatePregnancy (config : Config) (reproductionSystem : bool)
    (female : ref) : M unit :=
  f <- read female ;;
  if negb (truthy (isPregnant (repro f))) then ret tt
  else
    pregnantFemales_add female ;;
    match pregnancyTimer (repro f) with
    | None => throw (OutOfModel "increment of undefined")
    | Some t =>
        assign female (with_repro (set_pregnancyTimer (Some (t + 1)))) ;;
        if Qle_bool (PREGNANCY_DURATION config) (t + 1)
        then giveBirth config reproductionSystem female
        else ret tt
    end.

(** *** LifespanCombatSystem.js *)

Definition with_stats (f : Stats -> Stats) (l : LifespanSystem) : LifespanSystem :=
  {| skulls := skulls l; combatEffects := combatEffects l;
     deathEffects := deathEffects l; stats := f (stats l) |}.
Definition with_skulls (f : list Skull -> list Skull) (l : LifespanSystem)
    : LifespanSystem :=
  {| skulls := f (skulls l); combatEffects := combatEffects l;
     deathEffects := deathEffects l; stats := stats l |}.
Definition with_combatEffects (f : list CombatEffect -> list CombatEffect)
    (l : LifespanSystem) : LifespanSystem :=
  {| skulls := skulls l; combatEffects := f (combatEffects l);
     deathEffects := deathEffects l; stats := stats l |}.
Definition with_deathEffects (f : list DeathEffect -> list DeathEffect)
    (l : LifespanSystem) : LifespanSystem :=
  {| skulls := skulls l; combatEffects := combatEffects l;
     deathEffects := f (deathEffects l); stats := stats l |}.

Definition system (f : LifespanSystem -> LifespanSystem) : M unit :=
  modify (fun s => set_lifespan (f (lifespan s)) s).

(** [dwarf.combatStats], whose properties the engine reads unguarded. *)
Definition combatStats_of (d : Dwarf) : M CombatStats :=
  match combatStats (vital d) with
  | Some c => ret c
  | None => throw (TypeError "Cannot read properties of undefined")
  end.

(** [handleAging(dwarf)] *)
Definition handleAging (config : LifespanConfig.t) (dwarf : ref) : M unit :=
  d <- read dwarf ;;
  match age (vital d), maxLifespan (vital d) with
  | Some a, Some lifespan' =>
      ageRatio <- divide a lifespan' ;;
      if Qle_bool (7 # 10) ageRatio then
        let agingFactor := (ageRatio - (7 # 10)) / (3 # 10) in
        match health (vital d) with
        | None => throw (OutOfModel "arithmetic on undefined")
        | Some h =>
            assign dwarf (with_vital
              (set_health (Some (h - LifespanConfig.agingDamage config * agingFactor)))) ;;
            when (num_truthy (efficiency d))
              (assign dwarf (fun d' =>
                 set_efficiency
                   (option_map (fun e => Qmax (3 # 10) (e * (1 - agingFactor * (3 # 10))))
                      (efficiency d')) d'))
        end
      else ret tt
  | _, _ => ret tt
  end.

(** [handleHealthUpdate(dwarf)] *)
Definition handleHealthUpdate (config : LifespanConfig.t) (dwarf : ref) : M unit :=
  d <- read dwarf ;;
  match health (vital d), maxHealth (vital d) with
  | Some h, Some mh =>
      when (Qlt_bool h mh && negb (truthy (isInCombat (vital d)))
            && Qlt_bool (mh * (3 # 10)) h)
        (assign dwarf (with_vital
           (set_health (Some (Qmin mh (h + LifespanConfig.naturalHealing config)))))) ;;
      d <- read dwarf ;;
      assign dwarf (with_vital
        (set_healthBarVisible (Some (num_lt (health (vital d)) (mh * (9 # 10))))))
  | _, _ =>
      assign dwarf (with_vital (set_healthBarVisible (Some false)))
  end.

Definition tick_damageNumber (n : DamageNumber) : DamageNumber :=
  {| dn_damage := dn_damage n;
     dn_x := dn_x n + dn_velocity_x n;
     dn_y := dn_y n + dn_velocity_y n;
     dn_timer := dn_timer n - 1;
     dn_isCritical := dn_isCritical n;
     dn_velocity_x := dn_velocity_x n;
     dn_velocity_y := dn_velocity_y n + (1 # 10) |}.

(** [updateDamageNumbers(dwarf)]: the loop runs from the last entry to the
    first, advances each one once and splices the expired ones out. *)
Definition updateDamageNumbers (dwarf : ref) : M unit :=
  d <- read dwarf ;;
  match damageNumbers (vital d) with
  | None => ret tt
  | Some numbers =>
      assign dwarf (with_vital (set_damageNumbers
        (Some (List.filter (fun n => Qlt_bool 0 (dn_timer n))
                 (map tick_damageNumber numbers)))))
  end.

(** [isTerritorialDispute(dwarf1, dwarf2)] *)
Definition isTerritorialDispute (d1 d2 : Dwarf) : bool :=
  strategy_is (reproductionStrategy (repro d1)) "orange"
  && strategy_is (reproductionStrategy (repro d2)) "orange"
  && String.eqb (gender d1) "male" && String.eqb (gender d2) "male".

(** [shouldEngageInCombat(attacker, target)] *)
Definition shouldEngageInCombat (config : LifespanConfig.t)
    (attacker target : ref) : M bool :=
  a <- read attacker ;;
  t <- read target ;;
  if String.eqb (gender a) (gender t) && negb (isTerritorialDispute a t)
  then ret false
  else if isTerritorialDispute a t then
    r <- Math_random ;;
    ret (Qlt_bool r (LifespanConfig.territorialCombatChance config))
  else
    r <- Math_random ;;
    if Qlt_bool r (LifespanConfig.randomCombatChance config) then
      match personality a with
      | Some p =>
          let aggression := (100 - agreeableness p) + neuroticism p in
          r' <- Math_random ;;
          ret (Qlt_bool (r' * 200) aggression)
      | None => ret true
      end
    else ret false.

(** [addDamageNumber(target, damage, isCritical)] *)
Definition addDamageNumber (target : ref) (damage : Z) (isCritical : bool) : M unit :=
  t <- read target ;;
  r1 <- Math_random ;;
  r2 <- Math_random ;;
  assign target (with_vital (fun v =>
    set_damageNumbers
      (Some (default [] (damageNumbers v) ++
         [{| dn_damage := damage;
             dn_x := x t + r1 * 20 - 10;
             dn_y := y t - 20;
             dn_timer := 60;
             dn_isCritical := isCritical;
             dn_velocity_x := r2 * 2 - 1;
             dn_velocity_y := -(2) |}])) v)).

(** [addCombatEffect(attacker, target)] *)
Definition addCombatEffect (config : LifespanConfig.t) (attacker target : ref)
    : M unit :=
  a <- read attacker ;;
  t <- read target ;;
  system (with_combatEffects (fun l => l ++
    [{| ce_x := (x a + x t) / 2; ce_y := (y a + y t) / 2;
        ce_timer := LifespanConfig.combatEffectDuration config |}])).

(** [performAttack(attacker, target, world)] *)
Definition performAttack (config : LifespanConfig.t) (attacker target : ref)
    : M unit :=
  a <- read attacker ;;
  if num_gt (attackCooldown (vital a)) 0 then ret tt
  else
    r <- Math_random ;;
    let baseDamage :=
      LifespanConfig.baseDamage config + r * LifespanConfig.damageVariance config in
    attackerStats <- combatStats_of a ;;
    t <- read target ;;
    targetStats <- combatStats_of t ;;
    damage <- divide (baseDamage * attack attackerStats) (defense targetStats) ;;
    let critChance' :=
      LifespanConfig.criticalChance config + critChance attackerStats in
    r' <- Math_random ;;
    let isCritical := Qlt_bool r' critChance' in
    let damage :=
      if isCritical then damage * LifespanConfig.criticalMultiplier config
      else damage in
    let finalDamage := Math_floor damage in
    match health (vital t) with
    | None => throw (OutOfModel "arithmetic on undefined")
    | Some h =>
        assign target (with_vital (set_health (Some (h - inject_Z finalDamage)))) ;;
        assign target (with_vital (set_lastAttacker (Obj attacker))) ;;
        assign attacker (with_vital (set_isInCombat (Some true))) ;;
        assign target (with_vital (set_isInCombat (Some true))) ;;
        assign attacker (with_vital (set_combatTarget (Obj target))) ;;
        assign target (with_vital (set_combatTarget (Obj attacker))) ;;
        cooldown <- divide (LifespanConfig.attackCooldown config) (speed attackerStats) ;;
        assign attacker (with_vital (set_attackCooldown (Some cooldown))) ;;
        assign attacker (with_vital
          (set_combatEffectTimer (Some (LifespanConfig.combatEffectDuration config)))) ;;
        assign target (with_vital
          (set_combatEffectTimer (Some (LifespanConfig.combatEffectDuration config)))) ;;
        addDamageNumber target finalDamage isCritical ;;
        addCombatEffect config attacker target ;;
        system (with_stats (fun st =>
          {| totalDeaths := totalDeaths st; deathsByAge := deathsByAge st;
             deathsByCombat := deathsByCombat st;
             totalCombats := (totalCombats st + 1)%Z;
             totalDamageDealt := (totalDamageDealt st + finalDamage)%Z |})) ;;
        console_write (console_log
          (name a +:+ (if isCritical then " CRITICAL HIT " else " hit ") +:+ name t
             +:+ " for " +:+ pretty finalDamage +:+ " damage")) ;;
        t <- read target ;;
        if num_gt (health (vital t)) 0
           && match attackCooldown (vital t) with
              | Some c => Qeq_bool c 0
              | None => false
              end
        then
          r'' <- Math_random ;;
          when (Qlt_bool r'' (7 # 10))
            (modify (fun s => set_timers (timers s ++ [Retaliation attacker target 10]) s))
        else ret tt
    end.

(** [moveTowardsTarget(dwarf, target)] *)
Definition moveTowardsTarget (dwarf target : ref) : M unit :=
  d <- read dwarf ;;
  t <- read target ;;
  let dx := x t - x d in
  let dy := y t - y d in
  let distance := Math_sqrt (dx * dx + dy * dy) in
  if Qlt_bool 0 distance then
    stats' <- combatStats_of d ;;
    let moveSpeed :=
      (if num_truthy (walkSpeed d) then default 1 (walkSpeed d) else 1)
      * speed stats' in
    assign dwarf (fun d' =>
      set_position (x d' + (dx / distance) * moveSpeed)
                   (y d' + (dy / distance) * moveSpeed) d') ;;
    assign dwarf (set_target (Some (x t)) (Some (y t)))
  else ret tt.

(** The target [handleCombatBehavior] picks: the first entry of
    [potentialTargets], which keeps the order of [world.getAllDwarfs()]. *)
Definition potentialTargets (config : LifespanConfig.t) (dwarf : ref)
    : M (list ref) :=
  nearbyDwarfs <- getNearbyDwarfs dwarf (LifespanConfig.attackRange config * 2) ;;
  filterM (fun target =>
    t <- read target ;;
    if num_gt (health (vital t)) 0 && negb (Nat.eqb target dwarf)
    then shouldEngageInCombat config dwarf target
    else ret false) nearbyDwarfs.

(** [handleCombatBehavior(dwarf, world)] *)
Definition handleCombatBehavior (config : LifespanConfig.t) (dwarf : ref) : M unit :=
  d <- read dwarf ;;
  if negb (isAdult d) || num_gt (attackCooldown (vital d)) 0 then ret tt
  else
    targets <- potentialTargets config dwarf ;;
    match targets with
    | [] => ret tt
    | target :: _ =>
        distance <- calculateDistance dwarf target ;;
        if Qle_bool distance (LifespanConfig.attackRange config)
        then performAttack config dwarf target
        else
          d <- read dwarf ;;
          if points_to (combatTarget (vital d)) target
          then moveTowardsTarget dwarf target
          else ret tt
    end.

(** [createSkull(dwarf)] *)
Definition createSkull (dwarf : ref) : M unit :=
  d <- read dwarf ;;
  system (with_skulls (fun l => l ++
    [{| skull_x := x d; skull_y := y d; skull_name := name d +:+ "'s remains";
        skull_age := 0; skull_maxAge := 18000; skull_opacity := 1 |}])).

(** [addDeathEffect(dwarf)] *)
Definition addDeathEffect (config : LifespanConfig.t) (dwarf : ref) : M unit :=
  d <- read dwarf ;;
  system (with_deathEffects (fun l => l ++
    [{| de_x := x d; de_y := y d;
        de_timer := LifespanConfig.deathEffectDuration config;
        de_name := name d |}])).

Definition ageInMinutes (d : Dwarf) : string :=
  match age (vital d) with
  | Some a => pretty (Math_floor (a / 60))
  | None => "NaN"
  end.

(** The loop body of [handleDeath]: [otherDwarf.combatTarget === dwarf]. *)
Definition clear_combat_state (dwarf otherDwarf : ref) : M unit :=
  o <- read otherDwarf ;;
  if points_to (combatTarget (vital o)) dwarf then
    assign otherDwarf (with_vital (set_combatTarget Null)) ;;
    assign otherDwarf (with_vital (set_isInCombat (Some false)))
  else ret tt.

(** [handleDeath(dwarf, world)] *)
Definition handleDeath (config : LifespanConfig.t) (dwarf : ref) : M unit :=
  d <- read dwarf ;;
  let deathCause := if num_le (health (vital d)) 0 then "combat" else "age" in
  createSkull dwarf ;;
  addDeathEffect config dwarf ;;
  system (with_stats (fun st =>
    {| totalDeaths := (totalDeaths st + 1)%Z;
       deathsByAge :=
         if String.eqb deathCause "age" then (deathsByAge st + 1)%Z
         else deathsByAge st;
       deathsByCombat :=
         if String.eqb deathCause "age" then deathsByCombat st
         else (deathsByCombat st + 1)%Z;
       totalCombats := totalCombats st;
       totalDamageDealt := totalDamageDealt st |})) ;;
  console_write (console_log
    (name d +:+ " died of " +:+ deathCause +:+ " at age " +:+ ageInMinutes d +:+ "m")) ;;
  hostLog <- gets gameLog ;;
  when (bool_decide (is_Some hostLog))
    (addLog (name d +:+ " died of " +:+ deathCause +:+ " (age: "
               +:+ ageInMinutes d +:+ "m)") true (Some "warning"%string)) ;;
  allDwarfs <- getAllDwarfs ;;
  forEach allDwarfs (clear_combat_state dwarf) ;;
  assign dwarf (with_vital (set_isDead (Some true))) ;;
  assign dwarf (with_vital (set_health (Some 0))).

(** [updateDwarf(dwarf, world)] *)
Definition updateDwarf (config : LifespanConfig.t) (dwarf : ref) : M unit :=
  d <- read dwarf ;;
  if negb (num_truthy (health (vital d))) || num_le (health (vital d)) 0
  then ret tt
  else
    assign dwarf (with_vital (fun v =>
      set_age (Some ((if num_truthy (age v) then default 0 (age v) else 0) + 1)) v)) ;;
    handleAging config dwarf ;;
    handleHealthUpdate config dwarf ;;
    d <- read dwarf ;;
    when (num_gt (attackCooldown (vital d)) 0)
      (assign dwarf (with_vital (fun v =>
         set_attackCooldown (option_map (fun c => c - 1) (attackCooldown v)) v))) ;;
    when (num_gt (combatEffectTimer (vital d)) 0)
      (assign dwarf (with_vital (fun v =>
         set_combatEffectTimer (option_map (fun c => c - 1) (combatEffectTimer v)) v))) ;;
    updateDamageNumbers dwarf ;;
    handleCombatBehavior config dwarf ;;
    d <- read dwarf ;;
    if num_le (health (vital d)) 0
       || match age (vital d), maxLifespan (vital d) with
          | Some a, Some lifespan' => Qle_bool lifespan' a
          | _, _ => false
          end
    then handleDeath config dwarf
    else ret tt.

Definition tick_skull (k : Skull) : M Skull :=
  let age' := skull_age k + 1 in
  ratio <- divide age' (skull_maxAge k) ;;
  ret {| skull_x := skull_x k; skull_y := skull_y k; skull_name := skull_name k;
         skull_age := age'; skull_maxAge := skull_maxAge k;
         skull_opacity := Qmax 0 (1 - ratio) |}.

Fixpoint mapM {A B} (f : A -> M B) (l : list A) : M (list B) :=
  match l with
  | [] => ret []
  | a :: l' => rest <- mapM f l' ;; b <- f a ;; ret (b :: rest)
  end.

(** [updateSkulls()]: from the last skull to the first. *)
Definition updateSkulls : M unit :=
  ks <- gets (fun s => skulls (lifespan s)) ;;
  ks' <- mapM tick_skull ks ;;
  system (with_skulls (fun _ =>
    List.filter (fun k => Qlt_bool (skull_age k) (skull_maxAge k)) ks')).

(** [updateEffects()] *)
Definition updateEffects : M unit :=
  system (with_combatEffects (fun l =>
    List.filter (fun e => Qlt_bool 0 (ce_timer e))
      (map (fun e => {| ce_x := ce_x e; ce_y := ce_y e; ce_timer := ce_timer e - 1 |}) l))) ;;
  system (with_deathEffects (fun l =>
    List.filter (fun e => Qlt_bool 0 (de_timer e))
      (map (fun e => {| de_x := de_x e; de_y := de_y e; de_timer := de_timer e - 1;
                        de_name := de_name e |}) l))).

(** [update(dwarfs, world)] *)
Definition update (config : LifespanConfig.t) (dwarfs' : list ref) : M unit :=
  forEach dwarfs' (fun dwarf =>
    d <- read dwarf ;;
    if negb (truthy (isDead (vital d))) then updateDwarf config dwarf
    else ret tt) ;;
  updateSkulls ;;
  updateEffects.

(** *** ReproductionEventBus.js: the history *)

(** [array.slice(-limit)] for a [limit] above zero: the last [trunc(limit)]
    entries, and the whole array when [limit] is below one ([-limit]
    truncates to zero). *)
Definition slice_last {A} (limit : Q) (l : list A) : list A :=
  let k := Z.to_nat (Qfloor limit) in
  if (k =? 0)%nat then l else drop (length l - k) l.

(** [getEventHistory(eventType, limit)]; [None] is [null] or a missing
    argument. *)
Definition getEventHistory (eventType : option string) (limit : option Q)
    : M (list EventObject) :=
  history <- gets (fun s => eventHistory (bus s)) ;;
  let history :=
    match eventType with
    | Some ty =>
        if String.eqb ty "" then history
        else List.filter (fun event => String.eqb (ev_type event) ty) history
    | None => history
    end in
  let history :=
    match limit with
    | Some n => if Qlt_bool 0 n then slice_last n history else history
    | None => history
    end in
  ret history.

(** *** WorldInterface.js: population queries *)

(** [getAdultDwarfs()] *)
Definition getAdultDwarfs : M (list ref) :=
  allDwarfs <- getAllDwarfs ;;
  filterM (fun dwarf => d <- read dwarf ;; ret (isAdult d)) allDwarfs.

(** [getAvailableFemales()] *)
Definition getAvailableFemales : M (list ref) :=
  allDwarfs <- getAllDwarfs ;;
  filterM (fun dwarf =>
    d <- read dwarf ;;
    ret (isAdult d && String.eqb (gender d) "female"
         && negb (truthy (isPregnant (repro d)))
         && num_le (reproductionCooldown (repro d)) 0)) allDwarfs.

(** [getAdultMales()] *)
Definition getAdultMales : M (list ref) :=
  adults <- getAdultDwarfs ;;
  filterM (fun dwarf => d <- read dwarf ;; ret (String.eqb (gender d) "male")) adults.

Record StrategyCounts := {
  count_orange : nat;
  count_blue : nat;
  count_yellow : nat
}.

Record PopulationStats := {
  ps_total : nat;
  ps_adults : nat;
  ps_children : Z;
  ps_males : nat;
  ps_females : nat;
  ps_pregnant : nat;
  ps_availableFemales : nat;
  ps_malesByStrategy : StrategyCounts
}.

(** [getPopulationStats()] *)
Definition getPopulationStats : M PopulationStats :=
  allDwarfs <- getAllDwarfs ;;
  adults <- getAdultDwarfs ;;
  males <- getAdultMales ;;
  females <- filterM (fun dwarf =>
    d <- read dwarf ;; ret (String.eqb (gender d) "female")) adults ;;
  pregnant <- filterM (fun dwarf =>
    d <- read dwarf ;; ret (truthy (isPregnant (repro d)))) females ;;
  orange <- filterM (fun dwarf =>
    m <- read dwarf ;; ret (strategy_is (reproductionStrategy (repro m)) "orange")) males ;;
  blue <- filterM (fun dwarf =>
    m <- read dwarf ;; ret (strategy_is (reproductionStrategy (repro m)) "blue")) males ;;
  yellow <- filterM (fun dwarf =>
    m <- read dwarf ;; ret (strategy_is (reproductionStrategy (repro m)) "yellow")) males ;;
  available <- getAvailableFemales ;;
  ret {| ps_total := length allDwarfs;
         ps_adults := length adults;
         ps_children := Z.of_nat (length allDwarfs) - Z.of_nat (length adults);
         ps_males := length males;
         ps_females := length females;
         ps_pregnant := length pregnant;
         ps_availableFemales := length available;
         ps_malesByStrategy :=
           {| count_orange := length orange; count_blue := length blue;
              count_yellow := length yellow |} |}.

(** *** PregnancyManager.js: queries *)

(** [isReadyForBirth(female)] *)
Definition isReadyForBirth (config : Config) (female : ref) : M bool :=
  f <- read female ;;
  ret (truthy (isPregnant (repro f))
       && num_ge (pregnancyTimer (repro f)) (PREGNANCY_DURATION config)).

(** [getTimeUntilBirth(female)] *)
Definition getTimeUntilBirth (config : Config) (female : ref) : M Q :=
  f <- read female ;;
  if negb (truthy (isPregnant (repro f))) then ret (-(1))
  else
    match pregnancyTimer (repro f) with
    | None => throw (OutOfModel "arithmetic on undefined")
    | Some t => ret (Qmax 0 (PREGNANCY_DURATION config - t))
    end.

(** *** LifespanCombatSystem.js: initialization and statistics *)

Definition set_maxLifespan (v : option Q) (t : Vitality) : Vitality :=
  {| age := age t; maxLifespan := v; health := health t; maxHealth := maxHealth t;
     combatStats := combatStats t; attackCooldown := attackCooldown t;
     combatEffectTimer := combatEffectTimer t; isInCombat := isInCombat t;
     combatTarget := combatTarget t; lastAttacker := lastAttacker t;
     healthBarVisible := healthBarVisible t; damageNumbers := damageNumbers t;
     isDead := isDead t |}.
Definition set_maxHealth (v : option Q) (t : Vitality) : Vitality :=
  {| age := age t; maxLifespan := maxLifespan t; health := health t; maxHealth := v;
     combatStats := combatStats t; attackCooldown := attackCooldown t;
     combatEffectTimer := combatEffectTimer t; isInCombat := isInCombat t;
     combatTarget := combatTarget t; lastAttacker := lastAttacker t;
     healthBarVisible := healthBarVisible t; damageNumbers := damageNumbers t;
     isDead := isDead t |}.
Definition set_combatStats (v : option CombatStats) (t : Vitality) : Vitality :=
  {| age := age t; maxLifespan := maxLifespan t; health := health t;
     maxHealth := maxHealth t; combatStats := v; attackCooldown := attackCooldown t;
     combatEffectTimer := combatEffectTimer t; isInCombat := isInCombat t;
     combatTarget := combatTarget t; lastAttacker := lastAttacker t;
     healthBarVisible := healthBarVisible t; damageNumbers := damageNumbers t;
     isDead := isDead t |}.

(** The [combatStats] that [assignCombatStats(dwarf)] gives a dwarf of the
    class [class]; [None] is a dwarf without a class. *)
Definition assignCombatStats (class : option string) : CombatStats :=
  match class with
  | Some "fighter"%string =>
      {| attack := 12 # 10; defense := 11 # 10; speed := 1; critChance := 12 # 100 |}
  | Some "mage"%string =>
      {| attack := 9 # 10; defense := 8 # 10; speed := 11 # 10; critChance := 15 # 100 |}
  | Some "archer"%string =>
      {| attack := 1; defense := 9 # 10; speed := 12 # 10; critChance := 1 # 10 |}
  | _ => {| attack := 1; defense := 1; speed := 1; critChance := 1 # 10 |}
  end.

(** [initializeDwarf(dwarf)]; [class] is [dwarf.class], a property the
    [Dwarf] record does not carry. *)
Definition initializeDwarf (config : LifespanConfig.t) (class : option string)
    (dwarf : ref) : M unit :=
  r1 <- Math_random ;;
  assign dwarf (with_vital (set_maxLifespan
    (Some (LifespanConfig.minLifespan config
           + r1 * (LifespanConfig.maxLifespan config
                   - LifespanConfig.minLifespan config))))) ;;
  r2 <- Math_random ;;
  assign dwarf (with_vital (set_maxHealth
    (Some (LifespanConfig.maxHealth config + r2 * 20 - 10)))) ;;
  assign dwarf (with_vital (fun v => set_health (maxHealth v) v)) ;;
  assign dwarf (with_vital (fun v =>
    set_age (Some (if num_truthy (age v) then default 0 (age v) else 0)) v)) ;;
  assign dwarf (with_vital (set_attackCooldown (Some 0))) ;;
  assign dwarf (with_vital (set_isInCombat (Some false))) ;;
  assign dwarf (with_vital (set_combatTarget Null)) ;;
  assign dwarf (with_vital (set_lastAttacker Null)) ;;
  assign dwarf (with_vital (set_combatEffectTimer (Some 0))) ;;
  assign dwarf (with_vital (set_combatStats (Some (assignCombatStats class)))) ;;
  assign dwarf (with_vital (set_healthBarVisible (Some false))) ;;
  assign dwarf (with_vital (set_damageNumbers (Some []))) ;;
  d <- read dwarf ;;
  console_write (console_log
    ("Initialized " +:+ name d +:+ ": lifespan "
       +:+ pretty (Math_floor (default 0 (maxLifespan (vital d)) / 60))
       +:+ "min, health "
       +:+ pretty (Math_floor (default 0 (maxHealth (vital d)))))).

(** *** LifespanUtils *)

(** [a / b] outside a computation; [None] when the quotient is no
    rational. *)
Definition quotient (a b : Q) : option Q :=
  if Qeq_bool b 0 then None else Some (a / b).

(** [LifespanUtils.calculateAgeEfficiency(age, maxLifespan)] *)
Definition calculateAgeEfficiency (age' maxLifespan' : Q) : option Q :=
  match quotient age' maxLifespan' with
  | None => None
  | Some ageRatio =>
      if Qlt_bool ageRatio (7 # 10) then Some 1
      else
        let agingFactor := (ageRatio - (7 # 10)) / (3 # 10) in
        Some (Qmax (3 # 10) (1 - agingFactor * (7 # 10)))
  end.

(** *** LifespanCombatIntegration.js *)

(** [!dwarf.isDead] over a list of references. *)
Definition living (l : list ref) : M (list ref) :=
  filterM (fun dwarf => d <- read dwarf ;; ret (negb (truthy (isDead (vital d))))) l.

(** [DorfFriendLifespanIntegration.update()] of an integration that was
    given a reproduction system, whose world is the state at hand. *)
Definition Integration_update (config : LifespanConfig.t) : M unit :=
  pop <- gets dwarfs ;;
  match pop with
  | None => ret tt
  | Some l =>
      update config l ;;
      pop' <- gets dwarfs ;;
      l' <- living (default [] pop') ;;
      modify (set_dwarfs (Some l'))
  end.

(** One step of the [reduce] of [findOldestDwarf]:
    [(current.age || 0) > (oldest.age || 0) ? current : oldest]. *)
Definition older (oldest : jsref) (current : ref) : M jsref :=
  c <- read current ;;
  match oldest with
  | Obj o =>
      o' <- read o ;;
      let age_or_0 (d : Dwarf) :=
        if num_truthy (age (vital d)) then default 0 (age (vital d)) else 0 in
      ret (if Qlt_bool (age_or_0 o') (age_or_0 c) then Obj current else oldest)
  | Null => throw (TypeError "Cannot read properties of null (reading 'age')")
  | Undefined =>
      throw (TypeError "Cannot read properties of undefined (reading 'age')")
  end.

(** [array.reduce(step, initial)] *)
Fixpoint reduce {A B} (step : B -> A -> M B) (l : list A) (acc : B) : M B :=
  match l with
  | [] => ret acc
  | a :: l' => acc' <- step acc a ;; reduce step l' acc'
  end.

(** [findOldestDwarf()] *)
Definition findOldestDwarf : M jsref :=
  pop <- gets dwarfs ;;
  livingDwarfs <- living (default [] pop) ;;
  reduce older livingDwarfs Null.

(** [current.health / current.maxHealth] *)
Definition healthPercent_of (d : Dwarf) : M Q :=
  match health (vital d), maxHealth (vital d) with
  | Some h, Some mh => divide h mh
  | _, _ => throw (OutOfModel "arithmetic on undefined")
  end.

(** One step of the [reduce] of [findHealthiestDwarf]. *)
Definition healthier (healthiest : jsref) (current : ref) : M jsref :=
  c <- read current ;;
  currentHealthPercent <- healthPercent_of c ;;
  healthiestPercent <-
    match healthiest with
    | Obj h => h' <- read h ;; healthPercent_of h'
    | _ => ret 0
    end ;;
  ret (if Qlt_bool healthiestPercent currentHealthPercent then Obj current
       else healthiest).

(** [findHealthiestDwarf()] *)
Definition findHealthiestDwarf : M jsref :=
  pop <- gets dwarfs ;;
  livingDwarfs <- living (default [] pop) ;;
  reduce healthier livingDwarfs Null.

(** *** Reasoning about computations *)

(** [run m s Q T]: from [s], [m] returns a value and a state that satisfy
    [Q], or raises an exception in a state that satisfies [T]. *)
Definition run {A} (m : M A) (s : State) (Q : A -> State -> Prop)
    (T : exn -> State -> Prop) : Prop :=
  match m s with
  | Ok a s' => Q a s'
  | Throw e s' => T e s'
  end.

(** [m] relates every state to the state it leaves, however it ends. *)
Definition preserves {A} (R : State -> State -> Prop) (m : M A) : Prop :=
  forall s, run m s (fun _ s' => R s s') (fun _ s' => R s s').

(** [m] never raises. *)
Definition total {A} (R : State -> State -> Prop) (m : M A) : Prop :=
  forall s, run m s (fun _ s' => R s s') (fun _ _ => False).

Definition never : exn -> State -> Prop := fun _ _ => False.
Definition anyhow : exn -> State -> Prop := fun _ _ => True.

(** The state with the next random numbers all equal to [r]. *)
Definition with_draw (r : Q) (s : State) : State :=
  {| heap := heap s; dwarfs := dwarfs s; random := fun _ => r; draws := draws s;
     clock := clock s; console := console s; gameLog := gameLog s;
     bus := bus s; obs := obs s; lifespan := lifespan s;
     pregnantFemales := pregnantFemales s; timers := timers s |}.

(** The score [scoreMate] returns when [Math.random] answers [r] (zero when
    the call raises). *)
Definition score_given (config : Config) (female male : ref) (s : State)
    (r : Q) : Q :=
  match scoreMate config female male (with_draw r s) with
  | Ok v _ => v
  | Throw _ _ => 0
  end.

(** What a subscriber leaves of the observer state, raised or not. *)
Definition after_call (l : Listener) (ev : EventObject) (o : Obs) : Obs :=
  match cb_run (callback l) ev o with
  | Returns o' => o'
  | Raises o' _ => o'
  end.

(** Every listener of the list called once, in order. *)
Definition deliver (ev : EventObject) (ls : list Listener) (o : Obs) : Obs :=
  fold_left (fun o l => after_call l ev o) ls o.

Definition raises (ev : EventObject) (l : Listener) (o : Obs) : bool :=
  match cb_run (callback l) ev o with
  | Returns _ => false
  | Raises _ _ => true
  end.

(** How many listeners of the list raise when each is called in turn. *)
Fixpoint raised (ev : EventObject) (ls : list Listener) (o : Obs) : nat :=
  match ls with
  | [] => 0
  | l :: ls' =>
      (if raises ev l o then 1 else 0) + raised ev ls' (after_call l ev o)
  end%nat.

Definition is_error (l : ConsoleLine) : bool :=
  match l with console_error _ => true | console_log _ => false end.

(** The states that differ from [s] in what subscribers and logging touch. *)
Definition observed (b : EventBus) (c : list ConsoleLine) (o : Obs) (s : State)
    : State :=
  set_obs o (set_console c (set_bus b s)).

(** The objects and the population are the same in both states. *)
Definition same_objects (s s' : State) : Prop :=
  heap s' = heap s /\ dwarfs s' = dwarfs s.

(** Only random numbers were drawn between the two states. *)
Definition only_draws (s s' : State) : Prop :=
  s' = set_draws (draws s') s.

(** [t] is an eligible target near [dwarf]: another dwarf of the
    population, with health left, less than [radius] away. *)
Definition eligible_near (s : State) (dwarf : ref) (radius : Q) (target : ref)
    : Prop :=
  target ∈ default [] (dwarfs s) /\ target <> dwarf /\
  exists d t,
    heap s !! dwarf = Some d /\ heap s !! target = Some t /\
    num_gt (health (vital t)) 0 = true /\
    Qlt_bool
      (Math_sqrt ((x d - x t) * (x d - x t) + (y d - y t) * (y d - y t)))
      radius = true.

(** What the aging and combat code before [handleDeath] keeps of every
    object while it updates [dwarf]: the death flag, the reproductive
    sub-state, and the references that point at [dwarf]. *)
Definition keeps_refs (dwarf : ref) (s s' : State) : Prop :=
  dwarfs s' = dwarfs s /\
  forall r d, heap s !! r = Some d ->
    exists d', heap s' !! r = Some d' /\
      isDead (vital d') = isDead (vital d) /\
      repro d' = repro d /\
      (r <> dwarf -> combatTarget (vital d) = Obj dwarf ->
       combatTarget (vital d') = Obj dwarf) /\
      (lastAttacker (vital d) = Obj dwarf -> lastAttacker (vital d') = Obj dwarf).

(** [otherDwarf.combatTarget = null; otherDwarf.isInCombat = false] *)
Definition cleared (o : Dwarf) : Dwarf :=
  with_vital (set_isInCombat (Some false)) (with_vital (set_combatTarget Null) o).

(** What the loop of [handleDeath] over [l] leaves of every object. *)
Definition combat_states_cleared (dwarf : ref) (l : list ref) (s s' : State)
    : Prop :=
  dwarfs s' = dwarfs s /\
  forall r o, heap s !! r = Some o ->
    exists o', heap s' !! r = Some o' /\
      (o' = o \/ o' = cleared o) /\
      (r ∈ l -> combatTarget (vital o) = Obj dwarf -> o' = cleared o).

(** [rp'] keeps every reproductive property that is set in [rp], the
    strategy apart. *)
Definition fills (rp rp' : Reproductive) : Prop :=
  (forall v, isPregnant rp = Some v -> isPregnant rp' = Some v)
  /\ (forall v, pregnancyTimer rp = Some v -> pregnancyTimer rp' = Some v)
  /\ (forall v, reproductionCooldown rp = Some v -> reproductionCooldown rp' = Some v)
  /\ (forall v, mateSeekingTimer rp = Some v -> mateSeekingTimer rp' = Some v)
  /\ (forall v, territoryX rp = Some v -> territoryX rp' = Some v)
  /\ (forall v, territoryY rp = Some v -> territoryY rp' = Some v)
  /\ (guardedFemale rp <> Undefined -> guardedFemale rp' = guardedFemale rp).

(** What [initializeReproductionTraits] leaves of the reproductive
    sub-state of [d] when [Math.random] answers [u]: the properties that
    were set, and the strategy of a dwarf that is not male; a male's
    strategy is the one drawn. *)
Definition filled (config : Config) (u : Q) (d : Dwarf) (rp' : Reproductive) : Prop :=
  fills (repro d) rp'
  /\ (gender d <> "male"%string ->
      reproductionStrategy rp' = reproductionStrategy (repro d))
  /\ (gender d = "male"%string ->
      reproductionStrategy rp' = pick (MALE_STRATEGIES config) u).

(** In [s], the object [d] behind [dwarf] in [s0] has a new reproductive
    sub-state that keeps what was set, with the strategy [strategy];
    nothing else of the heap and the population of [s0] has changed. *)
Definition rewritten (dwarf : ref) (d : Dwarf) (s0 : State)
    (strategy : option string) (s : State) : Prop :=
  exists rp,
    heap s = <[dwarf := with_repro (fun _ => rp) d]> (heap s0)
    /\ dwarfs s = dwarfs s0
    /\ fills (repro d) rp
    /\ reproductionStrategy rp = strategy.


(** The skull [k] after [n] more updates. *)
Definition aged_by (n : nat) (k : Skull) : Skull :=
  {| skull_x := skull_x k; skull_y := skull_y k; skull_name := skull_name k;
     skull_age := skull_age k + inject_Z (Z.of_nat n);
     skull_maxAge := skull_maxAge k;
     skull_opacity :=
       Qmax 0 (1 - (skull_age k + inject_Z (Z.of_nat n)) / skull_maxAge k) |}.

(** The skull [k] is still there after [n] more updates. *)
Definition lasts (n : nat) (k : Skull) : bool :=
  Qlt_bool (skull_age k + inject_Z (Z.of_nat n)) (skull_maxAge k).

(** The same skull, with numbers equal as rationals. *)
Definition same_skull (k k' : Skull) : Prop :=
  skull_x k = skull_x k' /\ skull_y k = skull_y k'
  /\ skull_name k = skull_name k' /\ skull_age k == skull_age k'
  /\ skull_maxAge k = skull_maxAge k' /\ skull_opacity k == skull_opacity k'.

(** The death counters of [s'] against those of [s]: no counter went
    down, and the deaths added are the deaths by age plus the deaths in
    combat added. *)
Definition deaths_accounted (s s' : State) : Prop :=
  let st := stats (lifespan s) in
  let st' := stats (lifespan s') in
  (totalDeaths st <= totalDeaths st'
   /\ deathsByAge st <= deathsByAge st'
   /\ deathsByCombat st <= deathsByCombat st'
   /\ totalCombats st <= totalCombats st'
   /\ totalDeaths st' - totalDeaths st
      = (deathsByAge st' - deathsByAge st)
        + (deathsByCombat st' - deathsByCombat st))%Z.

(** Between [s] and [s'] only vitality, position, movement target and
    efficiency of the dwarfs changed: the population, the event bus and
    what its subscribers saw, the set of objects, and of every object the
    name, the gender, the adulthood, the personality, the reproductive
    state, the lifespan, the maximum health and the combat statistics are
    the same, and a dwarf that was dead is dead. *)
Definition vitality_only (s s' : State) : Prop :=
  dwarfs s' = dwarfs s /\ bus s' = bus s /\ obs s' = obs s
  /\ pregnantFemales s' = pregnantFemales s
  /\ (forall r, heap s !! r = None -> heap s' !! r = None)
  /\ forall r d, heap s !! r = Some d ->
       exists d', heap s' !! r = Some d'
         /\ name d' = name d /\ gender d' = gender d /\ isAdult d' = isAdult d
         /\ personality d' = personality d /\ walkSpeed d' = walkSpeed d
         /\ repro d' = repro d
         /\ maxLifespan (vital d') = maxLifespan (vital d)
         /\ maxHealth (vital d') = maxHealth (vital d)
         /\ combatStats (vital d') = combatStats (vital d)
         /\ (isDead (vital d) = Some true -> isDead (vital d') = Some true).

(** [config] with other lifespan settings. *)
Definition with_lifespan_settings (maxLifespan' minLifespan' agingStartAge'
    maxHealth' : Q) (config : LifespanConfig.t) : LifespanConfig.t :=
  {| LifespanConfig.maxLifespan := maxLifespan';
     LifespanConfig.minLifespan := minLifespan';
     LifespanConfig.agingStartAge := agingStartAge';
     LifespanConfig.maxHealth := maxHealth';
     LifespanConfig.naturalHealing := LifespanConfig.naturalHealing config;
     LifespanConfig.agingDamage := LifespanConfig.agingDamage config;
     LifespanConfig.baseDamage := LifespanConfig.baseDamage config;
     LifespanConfig.damageVariance := LifespanConfig.damageVariance config;
     LifespanConfig.attackRange := LifespanConfig.attackRange config;
     LifespanConfig.attackCooldown := LifespanConfig.attackCooldown config;
     LifespanConfig.criticalChance := LifespanConfig.criticalChance config;
     LifespanConfig.criticalMultiplier := LifespanConfig.criticalMultiplier config;
     LifespanConfig.territorialCombatChance :=
       LifespanConfig.territorialCombatChance config;
     LifespanConfig.randomCombatChance := LifespanConfig.randomCombatChance config;
     LifespanConfig.combatEffectDuration := LifespanConfig.combatEffectDuration config;
     LifespanConfig.deathEffectDuration := LifespanConfig.deathEffectDuration config |}.

(** The damage of an attack with the attacker's statistics [sa] against
    the statistics [st], when [Math.random] answers [r] for the damage and
    [r'] for the critical hit. *)
Definition attack_damage (config : LifespanConfig.t) (sa st : CombatStats)
    (r r' : Q) : Z :=
  let damage :=
    (LifespanConfig.baseDamage config + r * LifespanConfig.damageVariance config)
    * attack sa / defense st in
  Math_floor
    (if Qlt_bool r' (LifespanConfig.criticalChance config + critChance sa)
     then damage * LifespanConfig.criticalMultiplier config
     else damage).

(** The listeners are in the order of delivery: no listener has a higher
    priority than one before it. *)
Fixpoint descending (ls : list Listener) : Prop :=
  match ls with
  | [] => True
  | l :: ls' => Forall (fun l' => priority l' <= priority l) ls' /\ descending ls'
  end.

(** The listener that [subscribe] makes of its arguments. *)
Definition listener_of (cb : Callback) (options : SubscribeOptions) : Listener :=
  {| callback := cb;
     once := default false (opt_once options);
     priority := match opt_priority options with
                 | Some p => if Qeq_bool p 0 then 0 else p
                 | None => 0
                 end |}.

(** The listeners of [ls] that a delivery of [ev] leaves subscribed when
    the observer state is [o] at its start: all but the one-time listeners
    that returned. *)
Fixpoint kept (ev : EventObject) (ls : list Listener) (o : Obs) : list Listener :=
  match ls with
  | [] => []
  | l :: ls' =>
      (if once l && negb (raises ev l o) then [] else [l])
      ++ kept ev ls' (after_call l ev o)
  end.

(** The entry of the listener map for a list of listeners: an empty list
    has none. *)
Definition listed (ls : list Listener) : option (list Listener) :=
  match ls with [] => None | _ => Some ls end.

(** [_addToHistory]: the history [h] after the event [ev], under the bound
    [size]. *)
Definition recorded (size : nat) (h : list EventObject) (ev : EventObject)
    : list EventObject :=
  if (size <? length (h ++ [ev]))%nat then tail (h ++ [ev]) else h ++ [ev].

(** The test [p] on the object behind a reference; a dangling reference
    fails it. *)
Definition holds_of (s : State) (p : Dwarf -> bool) (r : ref) : bool :=
  match heap s !! r with Some d => p d | None => false end.

(** [world.calculateDistance(a, b)] on two objects. *)
Definition distance_between (a b : Dwarf) : Q :=
  Math_sqrt ((x a - x b) * (x a - x b) + (y a - y b) * (y a - y b)).

(** No reference of the population dangles. *)
Definition population_in_heap (s : State) : Prop :=
  Forall (fun r => is_Some (heap s !! r)) (default [] (dwarfs s)).

(** The dwarf is not flagged dead. *)
Definition alive (d : Dwarf) : bool := negb (truthy (isDead (vital d))).

(** [health / maxHealth] of a dwarf that has both numbers. *)
Definition health_ratio (d : Dwarf) : Q :=
  default 0 (health (vital d)) / default 0 (maxHealth (vital d)).

(** The dwarf has a health and a maximum health other than zero. *)
Definition has_health (d : Dwarf) : Prop :=
  exists h mh, health (vital d) = Some h /\ maxHealth (vital d) = Some mh /\ ~ mh == 0.

(** The ratio behind the running best of [findHealthiestDwarf]; [null]
    counts as zero. *)
Definition standing (s : State) (best : jsref) : Q :=
  match best with
  | Obj b => match heap s !! b with Some d => health_ratio d | None => 0 end
  | _ => 0
  end.

End Engine.

Arguments Ok {Obs A} a s.
Arguments Throw {Obs A} e s.

Notation "v <- m ;; k" := (bind m (fun v => k))
  (at level 100, m at next level, right associativity).
Notation "m ;; k" := (bind m (fun _ => k))
  (at level 100, right associativity).

(** ** Expected values *)

(** A distribution of [Math.random] with finite support: weights and
    values. *)
Definition Distribution := list (Q * Q).

Definition total_weight (D : Distribution) : Q :=
  fold_right (fun wv acc => fst wv + acc) 0 D.

(** The expected value of [f] of the random number. *)
Definition expect (D : Distribution) (f : Q -> Q) : Q :=
  fold_right (fun wv acc => fst wv * f (snd wv) + acc) 0 D.

Import ReproductionConfig.

(** ** Concrete worlds *)

(** A square root that is exact on the squares of rationals. *)
Definition exact_sqrt (q : Q) : Q :=
  let r := Qred q in Z.sqrt (Qnum r) # Pos.sqrt (Qden r).

Definition blank_repro : Reproductive :=
  {| reproductionStrategy := None; mateSeekingTimer := None;
     reproductionCooldown := None; isPregnant := None; pregnancyTimer := None;
     guardedFemale := Undefined; territoryX := None; territoryY := None |}.

Definition ready_repro (strategy : option string) : Reproductive :=
  {| reproductionStrategy := strategy; mateSeekingTimer := Some 0;
     reproductionCooldown := Some 0; isPregnant := Some false;
     pregnancyTimer := Some 0; guardedFemale := Undefined;
     territoryX := None; territoryY := None |}.

Definition blank_vital : Vitality :=
  {| age := None; maxLifespan := None; health := None; maxHealth := None;
     combatStats := None; attackCooldown := None; combatEffectTimer := None;
     isInCombat := None; combatTarget := Undefined; lastAttacker := Undefined;
     healthBarVisible := None; damageNumbers := None; isDead := None |}.

(** The vitality [initializeDwarf] gives a dwarf of no particular class,
    at the given age and health. *)
Definition fresh_vital (age' lifespan' health' : Q) : Vitality :=
  {| age := Some age'; maxLifespan := Some lifespan'; health := Some health';
     maxHealth := Some 100;
     combatStats := Some {| attack := 1; defense := 1; speed := 1;
                            critChance := 1 # 10 |};
     attackCooldown := Some 0; combatEffectTimer := Some 0;
     isInCombat := Some false; combatTarget := Null; lastAttacker := Null;
     healthBarVisible := Some false; damageNumbers := Some []; isDead := None |}.

Definition dwarf_at (nm gender' : string) (px py : Q) (adult : bool)
    (rp : Reproductive) (vt : Vitality) : Dwarf :=
  {| name := nm; x := px; y := py; gender := gender'; isAdult := adult;
     personality := None; walkSpeed := None; efficiency := None;
     targetX := None; targetY := None; repro := rp; vital := vt |}.

Definition with_personality (p : Personality) (d : Dwarf) : Dwarf :=
  {| name := name d; x := x d; y := y d; gender := gender d;
     isAdult := isAdult d; personality := Some p;
     walkSpeed := walkSpeed d; efficiency := efficiency d;
     targetX := targetX d; targetY := targetY d;
     repro := repro d; vital := vital d |}.

(** A host constructor: the dwarf stands where it is put, its gender is
    drawn, everything else is unset. *)
Definition host_Dwarf (px py : Q) (nm : option string) (adult : bool)
    (rnd : nat -> Q) : Dwarf * nat :=
  (dwarf_at (default "Dwarf" nm)
     (if Qlt_bool (rnd 0%nat) (1 # 2) then "male" else "female")
     px py adult blank_repro blank_vital, 1%nat).

Definition no_stats : Stats :=
  {| totalDeaths := 0; deathsByAge := 0; deathsByCombat := 0;
     totalCombats := 0; totalDamageDealt := 0 |}.

(** The world whose population is [ds], in this order, with the random
    numbers [rnd], the event bus [b] and the observer state [o]. *)
Definition world_of {Obs} (ds : list Dwarf) (rnd : nat -> Q) (b : EventBus)
    (o : Obs) : @State Obs :=
  {| heap := list_to_map (zip (seq 0 (length ds)) ds);
     dwarfs := Some (seq 0 (length ds));
     random := rnd; draws := 0; clock := 0; console := [];
     gameLog := Some []; bus := b; obs := o;
     lifespan := {| skulls := []; combatEffects := []; deathEffects := [];
                    stats := no_stats |};
     pregnantFemales := []; timers := [] |}.

Definition quiet_world (ds : list Dwarf) (rnd : nat -> Q) : @State unit :=
  world_of ds rnd ReproductionEventBus_new tt.

Definition state_of {Obs A} (r : @Res Obs A) : State :=
  match r with Ok _ s | Throw _ s => s end.

Definition returned {Obs A} (r : @Res Obs A) : option A :=
  match r with Ok a _ => Some a | Throw _ _ => None end.

(** A property of the object behind [r]. *)
Definition look {Obs B} (f : Dwarf -> B) (r : ref) (s : @State Obs) : option B :=
  f <$> heap s !! r.

(** An old dwarf one tick from the end of its life, a dwarf that fought it,
    and a guardian of it. *)
Definition elder : Dwarf :=
  dwarf_at "Elda" "female" 0 0 false (ready_repro None) (fresh_vital 99 100 50).

Definition rival : Dwarf :=
  dwarf_at "Brok" "male" 100 0 true (ready_repro (Some "orange"))
    (set_isInCombat (Some true)
       (set_lastAttacker (Obj 0%nat)
          (set_combatTarget (Obj 0%nat) (fresh_vital 10 1000 80)))).

Definition guardian : Dwarf :=
  dwarf_at "Gorm" "male" 200 0 true
    (set_guardedFemale (Obj 0%nat) (ready_repro (Some "blue")))
    (fresh_vital 10 1000 80).

Definition last_day : @State unit :=
  quiet_world [elder; rival; guardian] (fun _ => 0).

(** A male next to a female whose reproduction cooldown still runs, and
    next to one that is available. *)
Definition suitor : Dwarf :=
  dwarf_at "Durin" "male" 10 0 true (ready_repro (Some "blue")) (fresh_vital 10 1000 80).

Definition resting_female : Dwarf :=
  dwarf_at "Hilda" "female" 0 0 true
    (set_reproductionCooldown (Some 100) (ready_repro None)) (fresh_vital 10 1000 80).

Definition available_female : Dwarf :=
  dwarf_at "Freya" "female" 0 0 true (ready_repro None) (fresh_vital 10 1000 80).

Definition courtship : @State unit :=
  quiet_world [suitor; resting_female; available_female] (fun _ => 9 # 10).

(** A male that looks for a fight, and two females in reach: the first in
    the population stands farther away than the second. *)
Definition raider : Dwarf :=
  dwarf_at "Thrain" "male" 0 0 true (ready_repro (Some "yellow")) (fresh_vital 10 1000 80).

Definition far_female : Dwarf :=
  dwarf_at "Dis" "female" 18 0 true (ready_repro None) (fresh_vital 10 1000 80).

Definition near_female : Dwarf :=
  dwarf_at "Ola" "female" 5 0 true (ready_repro None) (fresh_vital 10 1000 80).

Definition skirmish : @State unit :=
  quiet_world [raider; far_female; near_female] (fun _ => 0).

(** The same male and two females beyond the attack range, within twice
    the range: the first in the population stands farther away than the
    second, and neither is his combat target. *)
Definition distant_female : Dwarf :=
  dwarf_at "Kara" "female" 30 0 true (ready_repro None) (fresh_vital 10 1000 80).

Definition outlying_female : Dwarf :=
  dwarf_at "Liv" "female" 0 25 true (ready_repro None) (fresh_vital 10 1000 80).

Definition standoff : @State unit :=
  quiet_world [raider; distant_female; outlying_female] (fun _ => 0).

(** A pregnant female at the start of gestation, alone in the world. *)
Definition expectant (timer : Q) : Dwarf :=
  dwarf_at "Hilda" "female" 50 50 true
    (set_pregnancyTimer (Some timer) (set_isPregnant (Some true) (ready_repro None)))
    (fresh_vital 10 1000 80).

Definition nursery (timer : Q) : @State unit :=
  quiet_world [expectant timer] (fun _ => 1 # 2).

(** [n] ticks of the game loop, each running [tick]. *)
Fixpoint ticks {Obs} (n : nat) (tick : @M Obs unit) : @M Obs unit :=
  match n with
  | O => ret tt
  | S n' => tick ;; ticks n' tick
  end.

(** The [pregnancyDuration] of the birth events in the history. *)
Definition reported_durations {Obs} (s : @State Obs) : list (option Q) :=
  omap (fun ev => match payload (ev_data ev) with
                  | Birth _ _ duration => Some duration
                  | _ => None
                  end) (eventHistory (bus s)).

(** A male restored from a save: every reproductive property is set, the
    strategy is territorial. *)
Definition veteran : Dwarf :=
  dwarf_at "Balin" "male" 10 20 true
    {| reproductionStrategy := Some "orange"%string; mateSeekingTimer := Some 5;
       reproductionCooldown := Some 100; isPregnant := Some false;
       pregnancyTimer := Some 0; guardedFemale := Null;
       territoryX := Some 10; territoryY := Some 20 |}
    (fresh_vital 10 1000 80).

Definition restored : @State unit := quiet_world [veteran] (fun _ => 1 # 2).

(** An agreeable, anxious female between a guardian and a territorial
    male. *)
Definition chooser : Dwarf :=
  with_personality
    {| agreeableness := 80; openness := 50; neuroticism := 90;
       extraversion := 50; conscientiousness := 50 |}
    available_female.

Definition blue_male : Dwarf :=
  dwarf_at "Gorm" "male" 10 0 true (ready_repro (Some "blue")) (fresh_vital 10 1000 80).

Definition orange_male : Dwarf :=
  dwarf_at "Brok" "male" 0 10 true (ready_repro (Some "orange")) (fresh_vital 10 1000 80).

Definition choice : @State unit :=
  quiet_world [chooser; blue_male; orange_male] (fun _ => 0).

(** The random number is 0, 1/2 or 3/4, with weights 1/4, 1/4, 1/2. *)
Definition three_points : Distribution :=
  [(1 # 4, 0); (1 # 4, 1 # 2); (1 # 2, 3 # 4)].

(** Two skulls under the default bus: a new one and one two updates old,
    both fading over three updates. *)
Definition skull_of (age' maxAge' : Q) : Skull :=
  {| skull_x := 0; skull_y := 0; skull_name := "Elda"; skull_age := age';
     skull_maxAge := maxAge'; skull_opacity := 1 |}.

Definition graveyard : @State unit :=
  set_lifespan
    {| skulls := [skull_of 0 3; skull_of 2 3]; combatEffects := [];
       deathEffects := []; stats := no_stats |}
    (quiet_world [] (fun _ => 0)).

(** Subscribers whose observer state counts the events they saw: one that
    returns and one that raises. *)
Definition counting (id : nat) : @Callback nat :=
  {| cb_id := id; cb_run := fun _ n => Returns (S n) |}.

Definition failing (id : nat) : @Callback nat :=
  {| cb_id := id; cb_run := fun _ n => Raises n "refused" |}.

(** The listeners of births, by falling priority: a one-time listener
    that returns, a one-time listener that raises and a lasting one. *)
Definition birth_listeners : list (@Listener nat) :=
  [ {| callback := counting 1; once := true; priority := 2 |};
    {| callback := failing 2; once := true; priority := 1 |};
    {| callback := counting 3; once := false; priority := 0 |} ].

Definition audience : @State nat :=
  world_of [expectant 0] (fun _ => 1 # 2)
    {| listeners := {[ "birth"%string := birth_listeners ]};
       eventHistory := []; maxHistorySize := 1000; debugMode := false |} 0%nat.

(** The default statistics of a dwarf of no class. *)
Definition plain_stats : CombatStats :=
  {| attack := 1; defense := 1; speed := 1; critChance := 1 # 10 |}.

(** The suitor and the two females when the next random number is under
    the mating success rate. *)
Definition fortunate : @State unit := with_draw (1 # 2) courtship.

Section Facts.

Context {Obs : Type}.
Variable Math_sqrt : Q -> Q.
Variable Dwarf_constructor :
  option (Q -> Q -> option string -> bool -> (nat -> Q) -> Dwarf * nat).

Implicit Types (s : @State Obs) (r : ref) (d : Dwarf).

(** ** Rules for [run] *)

Lemma run_ret {A} (a : A) s Q T : Q a s -> run (ret a) s Q T.
Proof. done. Qed.

Lemma run_bind {A B} (m : M A) (k : A -> M B) s Q T :
  run m s (fun a s1 => run (k a) s1 Q T) T -> run (bind m k) s Q T.
Proof. unfold run, bind. by destruct (m s). Qed.

Lemma run_weaken {A} (m : @M Obs A) s (Q Q' : A -> State -> Prop) (T T' : exn -> State -> Prop) :
  run m s Q T ->
  (forall a s', Q a s' -> Q' a s') -> (forall e s', T e s' -> T' e s') ->
  run m s Q' T'.
Proof. unfold run. destruct (m s); auto. Qed.

Lemma run_throw {A} e s (Q : A -> State -> Prop) T : T e s -> run (throw e) s Q T.
Proof. done. Qed.

Lemma run_read r s d Q T : heap s !! r = Some d -> Q d s -> run (read r) s Q T.
Proof. unfold run, read. by intros ->. Qed.

Lemma run_read_anyhow r s Q :
  (forall d, heap s !! r = Some d -> Q d s) -> run (read r) s Q anyhow.
Proof. unfold run, read. destruct (heap s !! r); [auto | done]. Qed.

Lemma run_gets {A} (f : State -> A) s Q T : Q (f s) s -> run (gets f) s Q T.
Proof. done. Qed.

Lemma run_modify (f : State -> State) s Q T : Q tt (f s) -> run (modify f) s Q T.
Proof. done. Qed.

Lemma run_assign r (f : Dwarf -> Dwarf) s Q T :
  Q tt (set_heap (alter f r (heap s)) s) -> run (assign r f) s Q T.
Proof. done. Qed.

Lemma run_random s Q T :
  Q (random s (draws s)) (set_draws (S (draws s)) s) -> run Math_random s Q T.
Proof. done. Qed.

Lemma run_when (b : bool) (m : M unit) s Q T :
  (b = true -> run m s Q T) -> (b = false -> Q tt s) -> run (when b m) s Q T.
Proof. destruct b; intros H1 H2; [by apply H1 | by apply H2]. Qed.

Lemma run_divide a b s Q (T : exn -> State -> Prop) :
  (Qeq_bool b 0 = true -> T (OutOfModel "division by zero") s) ->
  (Qeq_bool b 0 = false -> Q (a / b) s) ->
  run (divide a b) s Q T.
Proof. unfold divide. destruct (Qeq_bool b 0); intros H1 H2; [by apply H1 | by apply H2]. Qed.

Lemma run_ok {A} (m : @M Obs A) s a s' Q T : run m s Q T -> m s = Ok a s' -> Q a s'.
Proof. unfold run. intros H E. by rewrite E in H. Qed.

Lemma run_never {A} (m : @M Obs A) s Q :
  run m s Q never <-> exists a s', m s = Ok a s' /\ Q a s'.
Proof.
  unfold run. destruct (m s) as [a s'|e s']; split.
  - eauto.
  - by intros (? & ? & [= -> ->] & ?).
  - intros [].
  - by intros (? & ? & ? & ?).
Qed.

Lemma run_frame {A} (R : State -> State -> Prop) (m : @M Obs A) s Q T :
  preserves R m ->
  (forall a s', R s s' -> Q a s') -> (forall e s', R s s' -> T e s') ->
  run m s Q T.
Proof. intros H HQ HT. eapply run_weaken; [apply (H s) | auto..]. Qed.

(** ** The event bus *)

Lemma observed_id s : observed (bus s) (console s) (obs s) s = s.
Proof. by destruct s. Qed.

Lemma observed_observed b c o b' c' o' s :
  observed b' c' o' (observed b c o s) = observed b' c' o' s.
Proof. done. Qed.

Lemma notify_shape eventType ev (l : Listener) s :
  exists b,
    notify eventType ev l s
    = Ok tt (observed b
        (console s ++
           (if raises ev l (obs s)
            then [console_error
                    ("[ReproductionEventBus] Error in event listener for " +:+ eventType)]
            else []))
        (after_call l ev (obs s)) s).
Proof.
  unfold notify, try_catch, bind, call_listener, raises, after_call.
  destruct (cb_run (callback l) ev (obs s)) as [o|o msg].
  - destruct (once l); cbn; rewrite app_nil_r; eexists; unfold observed; reflexivity.
  - cbn. eexists (bus s). reflexivity.
Qed.

Lemma deliver_listeners eventType ev (ls : list Listener) s :
  exists b errors,
    forEach ls (notify eventType ev) s
    = Ok tt (observed b (console s ++ errors) (deliver ev ls (obs s)) s)
    /\ forallb is_error errors = true
    /\ length errors = raised ev ls (obs s).
Proof.
  revert s. induction ls as [|l ls IH]; intros s.
  - exists (bus s), []. rewrite app_nil_r. by rewrite observed_id.
  - cbn [forEach]. unfold bind.
    destruct (notify_shape eventType ev l s) as [b1 ->].
    edestruct IH as (b & errors & -> & Herr & Hlen).
    cbn [deliver fold_left raised obs console observed set_obs set_console set_bus] in *.
    rewrite <- app_assoc.
    eexists b, (_ ++ errors). split_and!; [reflexivity | |].
    + rewrite forallb_app, Herr. by destruct (raises ev l (obs s)).
    + rewrite length_app, Hlen. by destruct (raises ev l (obs s)).
Qed.

Lemma emit_shape eventType eventData s :
  exists b errors,
    emit eventType eventData s
    = Ok tt (observed b
        (console s
           ++ (if debugMode (bus s)
               then [console_log ("[ReproductionEventBus] " +:+ eventType)] else [])
           ++ errors)
        (deliver {| ev_type := eventType; ev_timestamp := clock s;
                    ev_data := eventData |}
           (default [] (listeners (bus s) !! eventType)) (obs s)) s)
    /\ forallb is_error errors = true
    /\ length errors =
         raised {| ev_type := eventType; ev_timestamp := clock s;
                   ev_data := eventData |}
           (default [] (listeners (bus s) !! eventType)) (obs s).
Proof.
  unfold emit, bind, Date_now, gets, _addToHistory, modify.
  cbn [bus set_bus debugMode with_history listeners].
  destruct (debugMode (bus s)); cbn [when console_write modify ret bus set_bus set_console
    listeners with_history];
  (destruct (listeners (bus s) !! eventType) as [ls|]; cbn [default];
   [ edestruct deliver_listeners as (b & errors & -> & Herr & Hlen);
     cbn in Hlen; exists b, errors; split_and!; [|done..];
     unfold observed; cbn; by rewrite <- ?app_assoc
   | eexists _, []; split_and!; [|done..];
     unfold observed; cbn; by rewrite ?app_nil_r ]).
Qed.

Lemma run_emit eventType eventData s Q T :
  (forall b c o, Q tt (observed b c o s)) -> run (emit eventType eventData) s Q T.
Proof.
  intros H. unfold run.
  destruct (emit_shape eventType eventData s) as (b & errors & -> & _). apply H.
Qed.

Lemma run_addLog message important type s Q T :
  (forall g c, Q tt (set_console c (set_gameLog g s))) ->
  run (addLog message important type) s Q T.
Proof.
  intros H. unfold run, addLog. destruct (gameLog s) as [entries|] eqn:Hg.
  - specialize (H (Some (entries ++ [{| log_message := message;
        log_important := important; log_type := type |}])) (console s)).
    by destruct s.
  - cbn. specialize (H None (console s ++
      [console_log ("[" +:+ default "LOG" type +:+ "] " +:+ message)])).
    cbn in Hg. destruct s; cbn in *. by subst.
Qed.

Ltac mstep :=
  cbn beta zeta;
  lazymatch goal with
  | |- run (bind _ _) _ _ _ => apply run_bind
  | |- run (ret _) _ _ _ => apply run_ret
  | |- run (gets _) _ _ _ => apply run_gets
  | |- run Date_now _ _ _ => apply run_gets
  | |- run getAllDwarfs _ _ _ => apply run_gets
  | |- run (modify _) _ _ _ => apply run_modify
  | |- run (assign _ _) _ _ _ => apply run_assign
  | |- run (console_write _) _ _ _ => apply run_modify
  | |- run (system _) _ _ _ => apply run_modify
  | |- run Math_random _ _ _ => apply run_random
  | |- run (emit _ _) _ _ _ => apply run_emit; intros ? ? ?
  | |- run (addLog _ _ _) _ _ _ => apply run_addLog; intros ? ?
  | |- run (throw _) _ _ _ => apply run_throw
  | |- run (divide _ _) _ _ _ => apply run_divide; intros ?
  | |- run (read _) _ _ anyhow => apply run_read_anyhow; intros ? ?
  | |- run (read _) _ _ _ => eapply run_read; [eassumption |]
  | |- run (when _ _) _ _ _ => apply run_when; intros ?
  | |- run (if ?b then _ else _) _ _ _ => destruct b eqn:?
  | |- run (match ?v with _ => _ end) _ _ _ => destruct v eqn:?
  end.

Ltac heap_lookup H :=
  cbn [heap set_heap set_draws set_console set_gameLog set_bus set_obs
       set_lifespan set_dwarfs set_timers set_pregnantFemales observed];
  rewrite ?lookup_alter_eq, ?H; reflexivity.

Ltac norm_state :=
  unfold observed, set_heap, set_dwarfs, set_draws, set_console, set_gameLog,
    set_bus, set_obs, set_lifespan, set_pregnantFemales, set_timers;
  cbn [heap dwarfs random draws clock console gameLog bus obs lifespan
       pregnantFemales timers].

Ltac tstep H :=
  cbn beta zeta;
  lazymatch goal with
  | |- run (read _) _ _ _ => eapply run_read; [heap_lookup H |]
  | _ => mstep
  end;
  norm_state.


(** Stepping with the lookups of two distinct references. *)
Ltac lookup2 Ha Ht :=
  norm_state;
  repeat first [rewrite lookup_alter_eq | rewrite lookup_alter_ne by congruence];
  first [rewrite Ha | rewrite Ht]; reflexivity.

Ltac tstep2 Ha Ht :=
  cbn beta zeta;
  lazymatch goal with
  | |- run (read _) _ _ _ => eapply run_read; [lookup2 Ha Ht |]
  | _ => mstep
  end;
  norm_state.

(** ** Delivery to subscribers that raise *)

(** C8: [emit] returns, whatever the subscribers do: every listener of the
    event type is called, in order, on the state the listeners before it
    left, a listener that raises included; each exception is caught and
    leaves one error line on the console. *)
Theorem emit_isolates_raising_handlers (eventType : string) (eventData : EventData) s :
  let ev := {| ev_type := eventType; ev_timestamp := clock s; ev_data := eventData |} in
  let ls := default [] (listeners (bus s) !! eventType) in
  exists s',
    emit eventType eventData s = Ok tt s'
    /\ obs s' = deliver ev ls (obs s)
    /\ length (List.filter is_error (console s'))
       = (length (List.filter is_error (console s)) + raised ev ls (obs s))%nat.
Proof.
  intros ev ls.
  destruct (emit_shape eventType eventData s) as (b & errors & -> & Herr & Hlen).
  eexists. split_and!; [reflexivity | done |].
  cbn [console observed set_obs set_console].
  rewrite !List.filter_app, !length_app. fold ev ls in Hlen. rewrite <- Hlen.
  assert (List.filter is_error errors = errors) as ->.
  { clear Hlen. induction errors as [|e errors IH]; [done|].
    cbn in *. apply andb_prop in Herr as [-> ?]. f_equal. auto. }
  by destruct (debugMode (bus s)).
Qed.

(** ** The per-tick update of a dwarf without health *)

(** C10: the update of a dwarf whose health is unset, or not above zero,
    returns at once and leaves the whole state as it was: no age step, no
    death handling, no death flag, no reference of another dwarf cleared. *)
Theorem updateDwarf_skips_without_health (config : LifespanConfig.t) (dwarf : ref) s d :
  heap s !! dwarf = Some d ->
  (health (vital d) = None \/ exists h, health (vital d) = Some h /\ h <= 0) ->
  updateDwarf Math_sqrt config dwarf s = Ok tt s.
Proof.
  intros Hd Hh. unfold updateDwarf, bind, read. rewrite Hd.
  destruct Hh as [-> | (h & -> & Hle)]; [done|].
  cbn. apply Qle_bool_iff in Hle. rewrite Hle. by rewrite orb_true_r.
Qed.

(** ** Failed mating attempts *)

Lemma attemptMating_failure config male female s :
  run (attemptMating Math_sqrt config male female) s
    (fun success s' => success = false -> heap s' = heap s) anyhow.
Proof.
  unfold attemptMating, calculateDistance. repeat mstep; done.
Qed.

Lemma attemptMatingWithFemale_failure config male female s :
  run (attemptMatingWithFemale config male female) s
    (fun success s' => success = false -> heap s' = heap s) anyhow.
Proof.
  unfold attemptMatingWithFemale. repeat mstep; done.
Qed.

(** ** Relations that every step of a computation keeps *)

Section Preserve.

Context (R : relation (@State Obs)) `{!PreOrder R}.

Lemma preserves_ret {A} (a : A) : preserves R (ret a).
Proof. intros s. unfold run, ret. reflexivity. Qed.

Lemma preserves_throw {A} e : preserves R (@throw Obs A e).
Proof. intros s. unfold run, throw. reflexivity. Qed.

Lemma preserves_bind {A B} (m : M A) (k : A -> M B) :
  preserves R m -> (forall a, preserves R (k a)) -> preserves R (bind m k).
Proof.
  intros Hm Hk s. specialize (Hm s). unfold run, bind in *.
  destruct (m s) as [a s1|e s1]; [|done].
  specialize (Hk a s1). unfold run in Hk.
  destruct (k a s1); by etrans.
Qed.

Lemma preserves_read r : preserves R (read r).
Proof. intros s. unfold run, read. destruct (heap s !! r); reflexivity. Qed.

Lemma preserves_gets {A} (f : State -> A) : preserves R (gets f).
Proof. intros s. unfold run, gets. reflexivity. Qed.

Lemma preserves_modify (f : State -> State) :
  (forall s, R s (f s)) -> preserves R (modify f).
Proof. intros H s. apply H. Qed.

Lemma preserves_when (b : bool) (m : M unit) :
  preserves R m -> preserves R (when b m).
Proof. destruct b; [done | intros _; apply preserves_ret]. Qed.

Lemma preserves_divide a b : preserves R (divide a b).
Proof.
  unfold divide. destruct (Qeq_bool b 0); [apply preserves_throw | apply preserves_ret].
Qed.

Lemma preserves_forEach {A} (l : list A) (body : A -> M unit) :
  (forall a, preserves R (body a)) -> preserves R (forEach l body).
Proof.
  intros H. induction l as [|a l IH]; cbn [forEach].
  - apply preserves_ret.
  - apply preserves_bind; auto.
Qed.

Lemma preserves_filterM {A} (keep : A -> M bool) (l : list A) :
  (forall a, preserves R (keep a)) -> preserves R (filterM keep l).
Proof.
  intros H. induction l as [|a l IH]; cbn [filterM].
  - apply preserves_ret.
  - apply preserves_bind; [auto|]. intros b.
    apply preserves_bind; [auto|]. intros rest. apply preserves_ret.
Qed.

Lemma run_bind_keep {A B} (m : M A) (k : A -> M B) s0 s Q :
  R s0 s -> preserves R m ->
  (forall a s1, R s0 s1 -> run (k a) s1 Q anyhow) ->
  run (bind m k) s Q anyhow.
Proof.
  intros H0 Hm Hk. apply run_bind. eapply run_frame; [exact Hm | | done].
  intros a s1 H1. apply Hk. by etrans.
Qed.

End Preserve.

Ltac preorder := try lazymatch goal with |- PreOrder _ => apply _ end.

Ltac pstep :=
  cbn beta;
  lazymatch goal with
  | |- preserves _ (bind _ _) => apply preserves_bind; preorder; [| intros ?]
  | |- preserves _ (ret _) => apply preserves_ret; preorder
  | |- preserves _ (throw _) => apply preserves_throw; preorder
  | |- preserves _ (read _) => apply preserves_read; preorder
  | |- preserves _ (gets _) => apply preserves_gets; preorder
  | |- preserves _ Date_now => apply preserves_gets; preorder
  | |- preserves _ getAllDwarfs => apply preserves_gets; preorder
  | |- preserves _ (divide _ _) => apply preserves_divide; preorder
  | |- preserves _ (when _ _) => apply preserves_when; preorder
  | |- preserves _ (forEach _ _) => apply preserves_forEach; preorder; intros ?
  | |- preserves _ (filterM _ _) => apply preserves_filterM; preorder; intros ?
  | |- preserves _ (if ?b then _ else _) => destruct b eqn:?
  | |- preserves _ (match ?v with _ => _ end) => destruct v eqn:?
  end.
(** ** The aging and combat code keeps the references to the dwarf it updates *)

#[local] Instance same_objects_preorder : PreOrder (@same_objects Obs).
Proof.
  split.
  - by intros s.
  - intros s1 s2 s3 [H1 H1'] [H2 H2']. split; congruence.
Qed.

#[local] Instance keeps_refs_preorder dwarf : PreOrder (@keeps_refs Obs dwarf).
Proof.
  split.
  - intros s. split; [done|]. intros r d Hd. exists d. by split_and!.
  - intros s1 s2 s3 [H1 H1'] [H2 H2']. split; [congruence|].
    intros r d Hd.
    destruct (H1' r d Hd) as (d2 & Hd2 & Hdead2 & Hrepro2 & Hct2 & Hla2).
    destruct (H2' r d2 Hd2) as (d3 & Hd3 & Hdead3 & Hrepro3 & Hct3 & Hla3).
    exists d3. split_and!; [done | congruence | congruence | auto | auto].
Qed.

Lemma keeps_refs_same_objects dwarf s s' : same_objects s s' -> keeps_refs dwarf s s'.
Proof.
  intros [Hh Hd]. split; [done|]. intros r d Hr. exists d. rewrite Hh. by split_and!.
Qed.

(** An assignment keeps the references when the assigned properties do. *)
Lemma keeps_refs_assign dwarf r (f : Dwarf -> Dwarf) s :
  (forall d,
     isDead (vital (f d)) = isDead (vital d) /\
     repro (f d) = repro d /\
     (r <> dwarf -> combatTarget (vital d) = Obj dwarf ->
      combatTarget (vital (f d)) = Obj dwarf) /\
     (lastAttacker (vital d) = Obj dwarf ->
      lastAttacker (vital (f d)) = Obj dwarf)) ->
  keeps_refs dwarf s (set_heap (alter f r (heap s)) s).
Proof.
  intros Hf. split; [done|]. intros r' d Hd. cbn [heap set_heap].
  destruct (decide (r = r')) as [<-|Hne].
  - exists (f d). rewrite lookup_alter_eq, Hd. split; [done|]. apply Hf.
  - exists d. rewrite lookup_alter_ne by done. by split_and!.
Qed.

Lemma preserves_assign_keeps dwarf r (f : Dwarf -> Dwarf) :
  (forall d,
     isDead (vital (f d)) = isDead (vital d) /\
     repro (f d) = repro d /\
     (r <> dwarf -> combatTarget (vital d) = Obj dwarf ->
      combatTarget (vital (f d)) = Obj dwarf) /\
     (lastAttacker (vital d) = Obj dwarf ->
      lastAttacker (vital (f d)) = Obj dwarf)) ->
  preserves (@keeps_refs Obs dwarf) (assign r f).
Proof. intros Hf s. by apply keeps_refs_assign. Qed.

Lemma preserves_keeps_same_objects {A} dwarf (m : @M Obs A) :
  preserves same_objects m -> preserves (keeps_refs dwarf) m.
Proof.
  intros H s. eapply run_weaken; [apply (H s) | |];
    intros; by apply keeps_refs_same_objects.
Qed.

Lemma preserves_same_modify (f : @State Obs -> State) :
  (forall s, heap (f s) = heap s) -> (forall s, dwarfs (f s) = dwarfs s) ->
  preserves same_objects (modify f).
Proof. intros H1 H2. apply preserves_modify. by split. Qed.

Lemma preserves_same_random : preserves (@same_objects Obs) Math_random.
Proof. by intros s. Qed.

Lemma preserves_same_emit eventType eventData :
  preserves (@same_objects Obs) (emit eventType eventData).
Proof. intros s. by apply run_emit. Qed.

Lemma preserves_same_addLog message important type :
  preserves (@same_objects Obs) (addLog message important type).
Proof. intros s. by apply run_addLog. Qed.

Lemma preserves_same_calculateDistance a b :
  preserves (@same_objects Obs) (calculateDistance Math_sqrt a b).
Proof. unfold calculateDistance. repeat pstep. Qed.

Lemma preserves_same_getNearbyDwarfs center radius :
  preserves (@same_objects Obs) (getNearbyDwarfs Math_sqrt center radius).
Proof.
  unfold getNearbyDwarfs. repeat pstep. apply preserves_same_calculateDistance.
Qed.

Lemma preserves_same_shouldEngageInCombat config a b :
  preserves (@same_objects Obs) (shouldEngageInCombat config a b).
Proof. unfold shouldEngageInCombat. repeat pstep; apply preserves_same_random. Qed.

Lemma preserves_same_potentialTargets config dwarf :
  preserves (@same_objects Obs) (potentialTargets Math_sqrt config dwarf).
Proof.
  unfold potentialTargets. repeat pstep.
  - apply preserves_same_getNearbyDwarfs.
  - apply preserves_same_shouldEngageInCombat.
Qed.

Ltac kstep :=
  cbn beta;
  lazymatch goal with
  | |- preserves (keeps_refs _) (assign _ _) =>
      apply preserves_assign_keeps;
      let d := fresh "d" in
      intros d; destruct d as [? ? ? ? ? ? ? ? ? ? ? []];
      cbn; split_and!; try done; try tauto
  | |- preserves (keeps_refs _) (modify _) =>
      apply preserves_keeps_same_objects, preserves_same_modify; done
  | |- preserves (keeps_refs _) (system _) =>
      apply preserves_keeps_same_objects, preserves_same_modify; done
  | |- preserves (keeps_refs _) (console_write _) =>
      apply preserves_keeps_same_objects, preserves_same_modify; done
  | |- preserves (keeps_refs _) Math_random =>
      apply preserves_keeps_same_objects, preserves_same_random
  | |- preserves (keeps_refs _) (calculateDistance _ _ _) =>
      apply preserves_keeps_same_objects, preserves_same_calculateDistance
  | |- preserves (keeps_refs _) (potentialTargets _ _ _) =>
      apply preserves_keeps_same_objects, preserves_same_potentialTargets
  | _ => pstep
  end.

Lemma preserves_keeps_handleAging config dwarf :
  preserves (@keeps_refs Obs dwarf) (handleAging config dwarf).
Proof. unfold handleAging. repeat kstep. Qed.

Lemma preserves_keeps_handleHealthUpdate config dwarf :
  preserves (@keeps_refs Obs dwarf) (handleHealthUpdate config dwarf).
Proof. unfold handleHealthUpdate. repeat kstep. Qed.

Lemma preserves_keeps_updateDamageNumbers dwarf :
  preserves (@keeps_refs Obs dwarf) (updateDamageNumbers dwarf).
Proof. unfold updateDamageNumbers. repeat kstep. Qed.

Lemma preserves_keeps_performAttack config dwarf target :
  preserves (@keeps_refs Obs dwarf) (performAttack config dwarf target).
Proof.
  unfold performAttack, combatStats_of, addDamageNumber, addCombatEffect.
  repeat kstep.
Qed.

Lemma preserves_keeps_moveTowardsTarget dwarf target :
  preserves (@keeps_refs Obs dwarf) (moveTowardsTarget Math_sqrt dwarf target).
Proof. unfold moveTowardsTarget, combatStats_of. repeat kstep. Qed.

Lemma preserves_keeps_handleCombatBehavior config dwarf :
  preserves (@keeps_refs Obs dwarf) (handleCombatBehavior Math_sqrt config dwarf).
Proof.
  unfold handleCombatBehavior. repeat kstep.
  - apply preserves_keeps_performAttack.
  - apply preserves_keeps_moveTowardsTarget.
Qed.

(** ** The loop of [handleDeath] *)

Lemma cleared_idem o : cleared (cleared o) = cleared o.
Proof. by destruct o as [? ? ? ? ? ? ? ? ? ? ? []]. Qed.

Lemma cleared_combatTarget o : combatTarget (vital (cleared o)) = Null.
Proof. done. Qed.

Lemma combat_states_cleared_nil dwarf s : @combat_states_cleared Obs dwarf [] s s.
Proof.
  split; [done|]. intros r o Hr. exists o. split_and!; [done | by left |].
  intros Hin. by apply elem_of_nil in Hin.
Qed.

Lemma combat_states_cleared_app dwarf l1 l2 (s1 s2 s3 : @State Obs) :
  combat_states_cleared dwarf l1 s1 s2 ->
  combat_states_cleared dwarf l2 s2 s3 ->
  combat_states_cleared dwarf (l1 ++ l2) s1 s3.
Proof.
  intros [Hd1 H1] [Hd2 H2]. split; [congruence|].
  intros r o Hr.
  destruct (H1 r o Hr) as (o2 & Hr2 & Hor2 & Hin2).
  destruct (H2 r o2 Hr2) as (o3 & Hr3 & Hor3 & Hin3).
  exists o3. split; [done|].
  assert (o2 = cleared o -> o3 = cleared o) as Hkeep.
  { intros ->. destruct Hor3 as [->| ->]; [done | apply cleared_idem]. }
  split.
  - destruct Hor2 as [->| ->]; [done | right; auto].
  - intros Hin Hct. apply elem_of_app in Hin as [Hin|Hin]; [auto|].
    destruct Hor2 as [->| ->]; auto.
Qed.

Lemma run_clear_combat_state dwarf other s :
  run (clear_combat_state dwarf other) s
    (fun _ s' => combat_states_cleared dwarf [other] s s') anyhow.
Proof.
  unfold clear_combat_state. mstep. mstep. mstep.
  - mstep. mstep. mstep. split; [done|]. intros r o Hr. cbn [heap set_heap].
    destruct (decide (other = r)) as [<-|Hne].
    + rewrite !lookup_alter_eq, Hr. eexists. split; [reflexivity|].
      assert (o = d) as -> by congruence. split; [by right | done].
    + rewrite !lookup_alter_ne by done. exists o. split_and!; [done | by left |].
      intros Hin. apply list_elem_of_singleton in Hin. congruence.
  - mstep. split; [done|]. intros r o Hr. exists o. split_and!; [done | by left |].
    intros Hin Hct. apply list_elem_of_singleton in Hin as ->.
    assert (o = d) as -> by congruence. rewrite Hct in *. cbn in *.
    by rewrite Nat.eqb_refl in *.
Qed.

Lemma run_clear_loop dwarf l s :
  run (forEach l (clear_combat_state dwarf)) s
    (fun _ s' => combat_states_cleared dwarf l s s') anyhow.
Proof.
  revert s. induction l as [|a l IH]; intros s; cbn [forEach].
  - apply run_ret, combat_states_cleared_nil.
  - apply run_bind.
    eapply run_weaken; [apply run_clear_combat_state | | done].
    intros [] s1 H1. cbn beta.
    eapply run_weaken; [apply IH | | done].
    intros [] s2 H2. by apply (combat_states_cleared_app dwarf [a] l s s1 s2).
Qed.

(** What [handleDeath] leaves of the objects. *)
Lemma run_handleDeath config dwarf s :
  run (handleDeath config dwarf) s
    (fun _ s' =>
       dwarfs s' = dwarfs s /\
       (exists d', heap s' !! dwarf = Some d' /\ isDead (vital d') = Some true
                   /\ health (vital d') = Some 0) /\
       forall r o, r <> dwarf -> heap s !! r = Some o ->
         exists o', heap s' !! r = Some o' /\
           (o' = o \/ o' = cleared o) /\
           (r ∈ default [] (dwarfs s) -> combatTarget (vital o) = Obj dwarf ->
            o' = cleared o))
    anyhow.
Proof.
  unfold handleDeath, createSkull, addDeathEffect.
  mstep. mstep. rename H into Hdwarf.
  repeat mstep;
  (eapply run_weaken; [apply run_clear_loop | | done];
   intros [] s1 [Hpop Hclr]; repeat mstep;
   cbn [heap set_heap dwarfs set_lifespan set_console set_gameLog] in *;
   split; [done|]; split;
   [ destruct (Hclr dwarf d) as (o' & Ho' & _); [done|];
     eexists; rewrite !lookup_alter_eq, Ho'; by split; [reflexivity|]
   | intros r o Hne Hr; rewrite !lookup_alter_ne by done;
     destruct (Hclr r o Hr) as (o' & Ho' & Hor & Hin);
     exists o'; by split_and! ]).
Qed.

(** C1, as the code has it: a death handled in a dwarf's update clears the
    combat target (and the in-combat flag) of every other dwarf of the
    population that targeted it; the last-attacker and guarded-female
    references that point at it stay. *)
Theorem death_clears_combat_targets (config : LifespanConfig.t) (dwarf : ref)
    (s s' : @State Obs) (d d' : Dwarf) :
  updateDwarf Math_sqrt config dwarf s = Ok tt s' ->
  heap s !! dwarf = Some d -> isDead (vital d) <> Some true ->
  heap s' !! dwarf = Some d' -> isDead (vital d') = Some true ->
  forall other o,
    other ∈ default [] (dwarfs s) -> other <> dwarf -> heap s !! other = Some o ->
    exists o',
      heap s' !! other = Some o' /\
      (combatTarget (vital o) = Obj dwarf ->
       combatTarget (vital o') = Null /\ isInCombat (vital o') = Some false) /\
      (lastAttacker (vital o) = Obj dwarf -> lastAttacker (vital o') = Obj dwarf) /\
      guardedFemale (repro o') = guardedFemale (repro o).
Proof.
  intros Hrun Hd Halive Hd' Hdead other o Hin Hne Ho.
  revert Hd' Hdead.
  eapply (run_ok _ _ _ _
    (fun _ s' => heap s' !! dwarf = Some d' -> isDead (vital d') = Some true ->
       exists o', heap s' !! other = Some o' /\
         (combatTarget (vital o) = Obj dwarf ->
          combatTarget (vital o') = Null /\ isInCombat (vital o') = Some false) /\
         (lastAttacker (vital o) = Obj dwarf -> lastAttacker (vital o') = Obj dwarf) /\
         guardedFemale (repro o') = guardedFemale (repro o)) anyhow); [|exact Hrun].
  clear Hrun s'. unfold updateDwarf.
  mstep. mstep. assert (d0 = d) as -> by congruence. mstep.
  { mstep. intros Hd' Hdead. congruence. }
  assert (keeps_refs dwarf s s) as Hkeep by reflexivity.
  eapply (run_bind_keep (keeps_refs dwarf) _ _ s);
    [eassumption | kstep | intros [] s1 Hkeep1].
  eapply (run_bind_keep (keeps_refs dwarf) _ _ s);
    [eassumption | apply preserves_keeps_handleAging | intros [] s2 Hkeep2].
  eapply (run_bind_keep (keeps_refs dwarf) _ _ s);
    [eassumption | apply preserves_keeps_handleHealthUpdate | intros [] s3 Hkeep3].
  eapply (run_bind_keep (keeps_refs dwarf) _ _ s);
    [eassumption | kstep | intros d3 s4 Hkeep4].
  eapply (run_bind_keep (keeps_refs dwarf) _ _ s);
    [eassumption | kstep; kstep | intros [] s5 Hkeep5].
  eapply (run_bind_keep (keeps_refs dwarf) _ _ s);
    [eassumption | kstep; kstep | intros [] s6 Hkeep6].
  eapply (run_bind_keep (keeps_refs dwarf) _ _ s);
    [eassumption | apply preserves_keeps_updateDamageNumbers | intros [] s7 Hkeep7].
  eapply (run_bind_keep (keeps_refs dwarf) _ _ s);
    [eassumption | apply preserves_keeps_handleCombatBehavior | intros [] s8 Hkeep8].
  clear - Hkeep8 Hd Halive Hin Hne Ho.
  destruct Hkeep8 as [Hpop Hobj].
  destruct (Hobj dwarf d Hd) as (d8 & Hd8 & Hdead8 & _).
  destruct (Hobj other o Ho) as (o8 & Ho8 & _ & Hrepro8 & Hct8 & Hla8).
  mstep. mstep. mstep.
  - eapply run_weaken; [apply run_handleDeath | | done].
    intros [] s9 (Hpop9 & _ & Hothers) _ _. cbn beta in *.
    destruct (Hothers other o8 Hne Ho8) as (o9 & Ho9 & Hor & Hclr).
    exists o9. split; [done|].
    rewrite Hpop in Hclr.
    split_and!.
    + intros Hct. rewrite (Hclr Hin (Hct8 Hne Hct)). done.
    + intros Hla. specialize (Hla8 Hla). by destruct Hor as [->| ->].
    + rewrite <- Hrepro8. by destruct Hor as [->| ->].
  - mstep. intros Hd' Hdead. congruence.
Qed.

(** ** The shared mating routine *)

Lemma acceptMating_failure config female male s :
  run (acceptMating config female male) s
    (fun success s' => success = false -> heap s' = heap s) anyhow.
Proof.
  unfold acceptMating. mstep.
  eapply run_weaken; [apply attemptMatingWithFemale_failure | | done].
  intros success s1 Hs1. cbn beta.
  repeat mstep; cbn; auto.
Qed.

(** C4: a mating attempt that fails, on the male-initiated path
    ([attemptMating]) or on the female-initiated one
    ([attemptMatingWithFemale], called through [acceptMating]), leaves every
    object as it was: the pregnancy and cooldown fields of both participants
    are unchanged. *)
Theorem failed_mating_changes_nothing (config : Config) (male female : ref)
    (s s' : @State Obs) (m f : Dwarf) :
  attemptMating Math_sqrt config male female s = Ok false s'
  \/ attemptMatingWithFemale config male female s = Ok false s'
  \/ acceptMating config female male s = Ok false s' ->
  heap s !! male = Some m -> heap s !! female = Some f ->
  heap s' = heap s
  /\ exists m' f',
       heap s' !! male = Some m' /\ heap s' !! female = Some f'
       /\ isPregnant (repro f') = isPregnant (repro f)
       /\ pregnancyTimer (repro f') = pregnancyTimer (repro f)
       /\ reproductionCooldown (repro f') = reproductionCooldown (repro f)
       /\ reproductionCooldown (repro m') = reproductionCooldown (repro m).
Proof.
  intros Hrun Hm Hf.
  assert (heap s' = heap s) as Hheap.
  { destruct Hrun as [Hrun|[Hrun|Hrun]].
    - by apply (run_ok _ _ _ _ _ _ (attemptMating_failure config male female s) Hrun).
    - by apply (run_ok _ _ _ _ _ _ (attemptMatingWithFemale_failure config male female s) Hrun).
    - by apply (run_ok _ _ _ _ _ _ (acceptMating_failure config female male s) Hrun). }
  split; [done|]. exists m, f. rewrite Hheap. by split_and!.
Qed.
(** ** Configuration validation *)

Lemma Qle_bool_false a b : Qle_bool a b = false <-> b < a.
Proof.
  rewrite <- not_true_iff_false, Qle_bool_iff. split.
  - apply Qnot_le_lt.
  - apply Qlt_not_le.
Qed.

Lemma Qlt_bool_true a b : Qlt_bool a b = true <-> a < b.
Proof. unfold Qlt_bool. rewrite negb_true_iff. apply Qle_bool_false. Qed.

Lemma Qlt_bool_false a b : Qlt_bool a b = false <-> b <= a.
Proof. unfold Qlt_bool. rewrite negb_false_iff. apply Qle_bool_iff. Qed.

Lemma Number_isInteger_spec q : Number_isInteger q = true <-> is_integer q.
Proof.
  unfold Number_isInteger, is_integer. rewrite Z.eqb_eq. split.
  - intros H. exists (Qnum q / Zpos (Qden q))%Z.
    unfold Qeq, inject_Z. cbn [Qnum Qden].
    rewrite Z.mul_1_r. apply Z.div_exact in H; [lia | lia].
  - intros [z Hz]. unfold Qeq, inject_Z in Hz. cbn [Qnum Qden] in Hz.
    rewrite Z.mul_1_r in Hz. rewrite Hz. apply Z.mod_mul. lia.
Qed.

Lemma positive_passes (n : number) :
  number_le n 0 = false <-> positive_or_NaN n.
Proof.
  unfold positive_or_NaN. destruct n as [q| |[]]; cbn [number_le].
  - rewrite Qle_bool_false. firstorder congruence.
  - firstorder congruence.
  - firstorder congruence.
  - firstorder congruence.
Qed.

Lemma not_negative_passes (n : number) :
  number_lt n 0 = false <-> not_negative_or_NaN n.
Proof.
  unfold not_negative_or_NaN. destruct n as [q| |[]]; cbn [number_lt].
  - rewrite Qlt_bool_false. firstorder congruence.
  - firstorder congruence.
  - firstorder congruence.
  - firstorder congruence.
Qed.

Lemma probability_passes (n : number) :
  number_le n 0 || number_gt n 1 = false <-> probability_or_NaN n.
Proof.
  unfold probability_or_NaN. rewrite orb_false_iff.
  destruct n as [q| |[]]; cbn [number_le number_gt negb].
  - rewrite Qle_bool_false, Qlt_bool_false. firstorder congruence.
  - firstorder congruence.
  - firstorder congruence.
  - firstorder congruence.
Qed.

Lemma percentage_passes (n : number) :
  number_lt n 0 || number_gt n 100 = false <-> percentage_or_NaN n.
Proof.
  unfold percentage_or_NaN. rewrite orb_false_iff.
  destruct n as [q| |[]]; cbn [number_lt number_gt negb].
  - rewrite !Qlt_bool_false. firstorder congruence.
  - firstorder congruence.
  - firstorder congruence.
  - firstorder congruence.
Qed.

Lemma not_positive_number_false (o : gmap string jsval) prop :
  not_positive_number (o !! prop) = false <-> positive_entry o prop.
Proof.
  unfold not_positive_number, positive_entry.
  destruct (as_number (o !! prop)) as [n|].
  - rewrite positive_passes. split; [intros H; by exists n|].
    by intros (n' & [= <-] & H).
  - split; [done | by intros (n' & ? & _)].
Qed.

Lemma and_then_accept a b :
  and_then a b = inr tt <-> a = inr tt /\ b = inr tt.
Proof. destruct a as [e|[]]; cbn; [split; [done | by intros []] | tauto]. Qed.

Lemma if_reject (b : bool) entry requires :
  (if b then reject entry requires else accept) = inr tt <-> b = false.
Proof. by destruct b. Qed.

Lemma for_each_accept {A} (check : A -> Validation) l :
  for_each check l = inr tt <-> Forall (fun a => check a = inr tt) l.
Proof.
  induction l as [|a l IH]; cbn [for_each].
  - split; [by constructor | done].
  - rewrite and_then_accept, IH, Forall_cons. done.
Qed.

Lemma includes_spec (strategies : list jsval) (s : string) :
  includes strategies s = true <-> JStr s ∈ strategies.
Proof.
  unfold includes. rewrite existsb_exists, list_elem_of_In. split.
  - intros (v & Hv & Heq). destruct v; try done. apply String.eqb_eq in Heq.
    by subst.
  - intros Hin. exists (JStr s). split; [done|]. apply String.eqb_refl.
Qed.

Lemma check_threshold_accept nm trait :
  check_threshold (nm, trait) = inr tt <-> threshold_ok trait.
Proof.
  unfold check_threshold, threshold_ok. cbn [snd fst].
  destruct trait as [threshold|]; cbn [mbind option_bind].
  - destruct (as_number threshold) as [n|] eqn:Hn.
    + rewrite if_reject, percentage_passes. split.
      * intros Hok. by exists threshold, n.
      * intros (threshold' & n' & [= <-] & Hn' & Hok). congruence.
    + split; [done|]. intros (threshold' & n' & [= <-] & Hn' & _). congruence.
  - split; [done|]. by intros (threshold' & n' & ? & _).
Qed.

Section Validation.

Variable StringToNumber : string -> number.

Lemma ToNumber_as_number (v : option jsval) (n : number) :
  as_number v = Some n -> ToNumber StringToNumber v = n.
Proof. destruct v as [[]|]; cbn; congruence. Qed.

Lemma not_positive_integer_false (v : option jsval) :
  not_positive_integer StringToNumber v = false <-> positive_integer_value v.
Proof.
  unfold not_positive_integer, positive_integer_value, positive_integer.
  rewrite orb_false_iff, negb_false_iff.
  destruct v as [[q| | | | | |]|]; cbn [Number_isInteger_value ToNumber number_le];
    try (split; [by intros [_ ?] | by intros (q' & ? & _)]).
  rewrite Qle_bool_false, Number_isInteger_spec. split.
  - intros [Hpos Hint]. by exists q.
  - by intros (q' & [= <-] & Hok).
Qed.

Lemma validateStrategyConfig_accept strategyConfig strategyName :
  validateStrategyConfig StringToNumber strategyConfig strategyName = inr tt
  <-> strategy_ok strategyName strategyConfig.
Proof.
  unfold validateStrategyConfig, strategy_ok.
  destruct strategyConfig as [o|]; [|split; [done | by intros (? & ? & _)]].
  rewrite !and_then_accept, !for_each_accept, !if_reject, !Forall_cons, Forall_nil.
  unfold check_positive. setoid_rewrite if_reject.
  setoid_rewrite not_positive_number_false.
  split.
  - intros ((Hcd & Hmc & _) & Hle & Hcol & Hprops).
    exists o. split_and!; [done | done | | | done].
    + destruct Hmc as (n & Hn & Hpos). exists n. split; [done|].
      rewrite (ToNumber_as_number _ n Hn) in Hle.
      apply probability_passes, orb_false_iff. split; [|done].
      by apply positive_passes.
    + unfold bad_color in Hcol. unfold hex_colored.
      destruct (o !! "color"%string) as [[| | | c | | |converted c]|]; try done.
      * exists c. split; [by left|]. by apply negb_false_iff in Hcol.
      * exists c. split; [right; by exists converted|].
        by apply negb_false_iff in Hcol.
  - intros (o' & [= <-] & Hcd & (n & Hn & Hprob) & (c & Hc & Hhex) & Hprops).
    assert (bad_color (o !! "color"%string) = false) as Hcol.
    { unfold bad_color. destruct Hc as [->|[converted ->]]; by rewrite Hhex. }
    apply probability_passes, orb_false_iff in Hprob as [Hpos Hle].
    split_and!; [done | | done | | | done].
    + exists n. split; [done|]. by apply positive_passes.
    + by rewrite (ToNumber_as_number _ n Hn).
    + exact Hcol.
Qed.

Lemma validateConfig_accept (config : ConfigObject) :
  validateConfig StringToNumber config = inr tt <-> config_ok StringToNumber config.
Proof.
  unfold validateConfig, config_ok.
  rewrite !and_then_accept, !for_each_accept, !if_reject, !Forall_cons.
  rewrite !validateStrategyConfig_accept.
  unfold check_cooldown, check_strategy_present. cbn [snd fst].
  rewrite !if_reject, !not_positive_integer_false, probability_passes.
  assert (forall (l : list jsval) (s : string) entry requires,
    (if includes l s then accept else reject entry requires) = inr tt
    <-> JStr s ∈ l) as Hin.
  { intros l s entry requires. rewrite <- includes_spec.
    by destruct (includes l s). }
  rewrite !Hin, !Forall_nil.
  assert ((match given_MALE_STRATEGIES config with
           | Some strategies =>
               if negb (length strategies =? 3)%nat
               then reject "MALE_STRATEGIES" "must be array of exactly 3 strategies."
               else accept
           | None => reject "MALE_STRATEGIES" "must be array of exactly 3 strategies."
           end) = inr tt
          /\ (JStr "orange" ∈ default [] (given_MALE_STRATEGIES config)
              /\ JStr "blue" ∈ default [] (given_MALE_STRATEGIES config)
              /\ JStr "yellow" ∈ default [] (given_MALE_STRATEGIES config) /\ True)
          <-> exists strategies,
                given_MALE_STRATEGIES config = Some strategies
                /\ length strategies = 3%nat
                /\ Forall (fun s : string => JStr s ∈ strategies)
                     ["orange"; "blue"; "yellow"]%string) as Hstrategies.
  { destruct (given_MALE_STRATEGIES config) as [l|]; cbn [default].
    - rewrite if_reject, negb_false_iff, Nat.eqb_eq. split.
      + intros [Hlen Hin']. exists l. split; [done|]. split; [done|].
        by rewrite !Forall_cons, Forall_nil.
      + intros (l' & [= <-] & Hlen & Hin'). split; [done|].
        by rewrite !Forall_cons, Forall_nil in Hin'.
    - split; [by intros [? _] | by intros (l' & ? & _)]. }
  assert ((match given_FEMALE_SELECTION config with
           | None => inl (CannotReadProperty "baseScore")
           | Some femaleConfig =>
               (if number_le (ToNumber StringToNumber (given_baseScore femaleConfig)) 0
                then reject "FEMALE_SELECTION.baseScore" "Must be positive."
                else accept) ;;;
               (if number_lt
                     (ToNumber StringToNumber (given_randomVariance femaleConfig)) 0
                then reject "FEMALE_SELECTION.randomVariance" "Must be non-negative."
                else accept) ;;;
               (if number_le
                     (ToNumber StringToNumber (given_evaluationChance femaleConfig)) 0
                   || number_gt
                        (ToNumber StringToNumber (given_evaluationChance femaleConfig)) 1
                then reject "FEMALE_SELECTION.evaluationChance"
                            "Must be between 0 and 1."
                else accept) ;;;
               for_each check_threshold
                 [ ("agreeableness", given_agreeableness femaleConfig);
                   ("openness", given_openness femaleConfig);
                   ("neuroticism", given_neuroticism femaleConfig) ]%string
           end) = inr tt
          <-> exists femaleConfig,
                given_FEMALE_SELECTION config = Some femaleConfig
                /\ positive_or_NaN
                     (ToNumber StringToNumber (given_baseScore femaleConfig))
                /\ not_negative_or_NaN
                     (ToNumber StringToNumber (given_randomVariance femaleConfig))
                /\ probability_or_NaN
                     (ToNumber StringToNumber (given_evaluationChance femaleConfig))
                /\ threshold_ok (given_agreeableness femaleConfig)
                /\ threshold_ok (given_openness femaleConfig)
                /\ threshold_ok (given_neuroticism femaleConfig)) as Hfemale.
  { destruct (given_FEMALE_SELECTION config) as [femaleConfig|].
    - rewrite !and_then_accept, !for_each_accept, !if_reject, !Forall_cons, Forall_nil.
      rewrite !check_threshold_accept, positive_passes, not_negative_passes,
        probability_passes.
      split.
      + intros (H1 & H2 & H3 & H4 & H5 & H6 & _). by exists femaleConfig.
      + intros (f & [= <-] & H1 & H2 & H3 & H4 & H5 & H6). by split_and!.
    - split; [done | by intros (f & ? & _)]. }
  rewrite Hfemale, <- Hstrategies. clear Hfemale Hin Hstrategies. tauto.
Qed.

Lemma config_ok_of_numbers (config : Config) :
  config_ok StringToNumber (as_given config) <-> numbers_ok config.
Proof.
  unfold config_ok, numbers_ok, as_given.
  cbn [given_MATING_SUCCESS_RATE given_PREGNANCY_DURATION given_MATURITY_THRESHOLD
       given_FEMALE_REPRODUCTION_COOLDOWN given_MALE_REPRODUCTION_COOLDOWN
       given_MALE_STRATEGIES given_ORANGE_STRATEGY given_BLUE_STRATEGY
       given_YELLOW_STRATEGY given_FEMALE_SELECTION ToNumber].
  assert (forall q, probability_or_NaN (Real q) <-> 0 < q /\ q <= 1) as Hprob.
  { intros q. unfold probability_or_NaN. split.
    - by intros [?|(q' & [= <-] & ?)].
    - intros ?. right. by exists q. }
  assert (forall q, positive_integer_value (Some (JNum q)) <-> positive_integer q)
    as Hint.
  { intros q. unfold positive_integer_value. split.
    - by intros (q' & [= <-] & ?).
    - intros ?. by exists q. }
  assert (forall q, positive_or_NaN (Real q) <-> 0 < q) as Hpos.
  { intros q. unfold positive_or_NaN. split.
    - by intros [?|[?|(q' & [= <-] & ?)]].
    - intros ?. right. right. by exists q. }
  assert (forall q, not_negative_or_NaN (Real q) <-> 0 <= q) as Hnn.
  { intros q. unfold not_negative_or_NaN. split.
    - by intros [?|[?|(q' & [= <-] & ?)]].
    - intros ?. right. right. by exists q. }
  assert (forall threshold : option Q,
            threshold_ok (Some (JNum <$> threshold))
            <-> exists t, threshold = Some t /\ 0 <= t /\ t <= 100) as Hth.
  { intros [t|]; unfold threshold_ok, percentage_or_NaN; cbn.
    - split.
      + intros (threshold & n & [= <-] & [= <-] & [?|(q & [= <-] & ?)]); [done|].
        by exists t.
      + intros (t' & [= <-] & ?). exists (Some (JNum t)), (Real t).
        split_and!; [done | done |]. right. by exists t.
    - split; [by intros (threshold & n & [= <-] & ? & _) | by intros (t' & ? & _)]. }
  assert ((exists strategies : list jsval,
             Some (JStr <$> MALE_STRATEGIES config) = Some strategies
             /\ length strategies = 3%nat
             /\ Forall (fun s : string => JStr s ∈ strategies) ["orange"; "blue"; "yellow"]%string)
          <-> length (MALE_STRATEGIES config) = 3%nat
              /\ Forall (fun s : string => s ∈ MALE_STRATEGIES config)
                   ["orange"; "blue"; "yellow"]%string) as Hstr.
  { assert (forall s : string,
              JStr s ∈ JStr <$> MALE_STRATEGIES config <-> s ∈ MALE_STRATEGIES config)
      as Hmem.
    { intros s. rewrite list_elem_of_fmap. split.
      - by intros (t & [= ->] & Ht).
      - intros Hs. by exists s. }
    split.
    - intros (l & [= <-] & Hlen & Hall). rewrite length_fmap in Hlen.
      split; [done|]. eapply Forall_impl; [exact Hall|]. intros s. apply Hmem.
    - intros [Hlen Hall]. eexists. split; [done|]. rewrite length_fmap.
      split; [done|]. eapply Forall_impl; [exact Hall|]. intros s. apply Hmem. }
  rewrite Hprob, !Hint, Hstr, !Forall_cons, !Forall_nil, <- !Hth.
  split.
  - intros (H1 & H2 & H3 & H4 & H5 & H6 & H7 & H8 & H9 & f & [= <-] & H10).
    cbn [given_baseScore given_randomVariance given_evaluationChance
         given_agreeableness given_openness given_neuroticism ToNumber] in H10.
    rewrite Hpos, Hnn, Hprob in H10. tauto.
  - intros (H1 & H2 & H3 & H4 & H5 & H6 & H7 & H8 & H9 & H10).
    do 9 (split; [assumption|]). eexists. split; [reflexivity|].
    cbn [given_baseScore given_randomVariance given_evaluationChance
         given_agreeableness given_openness given_neuroticism ToNumber].
    rewrite Hpos, Hnn, Hprob. tauto.
Qed.

(** No check ends with a [TypeError] but the reading of
    [femaleConfig.baseScore]. *)
Lemma if_reject_described (b : bool) entry requires property :
  (if b then reject entry requires else accept)
  <> inl (CannotReadProperty property).
Proof. by destruct b. Qed.

Lemma and_then_described a b property :
  (forall p, a <> inl (CannotReadProperty p)) ->
  and_then a b = inl (CannotReadProperty property) ->
  b = inl (CannotReadProperty property).
Proof.
  intros Ha. destruct a as [t|[]]; cbn; [|done].
  intros [= ->]. by destruct (Ha property).
Qed.

Lemma for_each_described {A} (check : A -> Validation) l property :
  (forall a p, check a <> inl (CannotReadProperty p)) ->
  for_each check l <> inl (CannotReadProperty property).
Proof.
  intros Hc. induction l as [|a l IH]; cbn [for_each]; [done|].
  intros H. apply and_then_described in H; [done | apply Hc].
Qed.

Lemma validateStrategyConfig_described strategyConfig strategyName property :
  validateStrategyConfig StringToNumber strategyConfig strategyName
  <> inl (CannotReadProperty property).
Proof.
  unfold validateStrategyConfig. destruct strategyConfig as [o|]; [|done].
  intros H.
  apply and_then_described in H;
    [|intros p; apply for_each_described; intros; apply if_reject_described].
  do 2 (apply and_then_described in H; [|intros p; apply if_reject_described]).
  revert H. apply for_each_described. intros; apply if_reject_described.
Qed.

Lemma validateConfig_type_error (config : ConfigObject) property :
  validateConfig StringToNumber config = inl (CannotReadProperty property) ->
  given_FEMALE_SELECTION config = None /\ property = "baseScore"%string.
Proof.
  unfold validateConfig. intros H.
  do 3 (apply and_then_described in H; [|intros p; apply if_reject_described]).
  apply and_then_described in H;
    [|intros p; apply for_each_described; intros; apply if_reject_described].
  apply and_then_described in H;
    [|intros p; destruct (given_MALE_STRATEGIES config);
      [apply if_reject_described | done]].
  apply and_then_described in H;
    [|intros p; apply for_each_described; intros a q;
      unfold check_strategy_present; by destruct (includes _ _)].
  do 3 (apply and_then_described in H;
          [|intros p; apply validateStrategyConfig_described]).
  destruct (given_FEMALE_SELECTION config) as [femaleConfig|];
    [exfalso | by injection H as <-].
  do 3 (apply and_then_described in H; [|intros p; apply if_reject_described]).
  revert H. apply for_each_described. intros [nm trait] p.
  unfold check_threshold. cbn [fst snd].
  destruct (trait ≫= as_number); [apply if_reject_described | done].
Qed.


End Validation.
(** ** Strategy assignment and the initialization hook *)

Lemma alter_present {A} (f : A -> A) (k : ref) (h : gmap ref A) a :
  h !! k = Some a -> alter f k h = <[k := f a]> h.
Proof.
  intros Hk. apply map_eq. intros k'. destruct (decide (k = k')) as [<-|Hne].
  - by rewrite lookup_alter_eq, lookup_insert_eq, Hk.
  - by rewrite lookup_alter_ne, lookup_insert_ne.
Qed.

Lemma with_repro_same d : with_repro (fun _ => repro d) d = d.
Proof. by destruct d. Qed.

Lemma fills_refl rp : fills rp rp.
Proof. by unfold fills; split_and!. Qed.

Lemma rewritten_start dwarf d s :
  heap s !! dwarf = Some d ->
  rewritten dwarf d s (reproductionStrategy (repro d)) s.
Proof.
  intros Hd. exists (repro d). rewrite with_repro_same, insert_id by done.
  split_and!; [done | done | apply fills_refl | done].
Qed.

Lemma rewritten_frame dwarf d (s0 s s' : @State Obs) strategy :
  heap s' = heap s -> dwarfs s' = dwarfs s ->
  rewritten dwarf d s0 strategy s -> rewritten dwarf d s0 strategy s'.
Proof. intros Hh Hp (rp & ? & ? & ?). exists rp. by rewrite Hh, Hp. Qed.

Lemma run_seq {A B} (m : @M Obs A) (k : A -> M B) s (Q1 : A -> State -> Prop) Q T :
  run m s Q1 never -> (forall a s1, Q1 a s1 -> run (k a) s1 Q T) ->
  run (bind m k) s Q T.
Proof.
  intros Hm Hk. apply run_bind. eapply run_weaken; [exact Hm | exact Hk | by intros ? ? []].
Qed.

Lemma run_read_rewritten dwarf d (s0 s : @State Obs) strategy Q T :
  rewritten dwarf d s0 strategy s ->
  (forall rp, fills (repro d) rp -> reproductionStrategy rp = strategy ->
              Q (with_repro (fun _ => rp) d) s) ->
  run (read dwarf) s Q T.
Proof.
  intros (rp & Hh & _ & Hrp & Hst) HQ. eapply run_read; [|by apply HQ].
  by rewrite Hh, lookup_insert_eq.
Qed.

Lemma run_assign_rewritten dwarf d (s0 s : @State Obs) strategy strategy'
    (f : Reproductive -> Reproductive) (Q : unit -> State -> Prop) T :
  rewritten dwarf d s0 strategy s ->
  (forall rp, fills (repro d) rp -> reproductionStrategy rp = strategy ->
              fills (repro d) (f rp) /\ reproductionStrategy (f rp) = strategy') ->
  (forall s', rewritten dwarf d s0 strategy' s' -> Q tt s') ->
  run (assign dwarf (with_repro f)) s Q T.
Proof.
  intros (rp & Hh & Hp & Hrp & Hst) Hf HQ. apply run_assign, HQ.
  destruct (Hf rp Hrp Hst) as [Hrp' Hst'].
  exists (f rp). split_and!; [|done..].
  cbn [heap set_heap]. by rewrite Hh, alter_insert_eq.
Qed.

(** [if (typeof dwarf.p === 'undefined') dwarf.p = v] *)
Lemma run_fill dwarf d (s0 s : @State Obs) strategy (c : bool)
    (f : Reproductive -> Reproductive) (Q : unit -> State -> Prop) T :
  rewritten dwarf d s0 strategy s ->
  (c = true -> forall rp, fills (repro d) rp ->
     fills (repro d) (f rp) /\ reproductionStrategy (f rp) = reproductionStrategy rp) ->
  (forall s', rewritten dwarf d s0 strategy s' -> Q tt s') ->
  run (when c (assign dwarf (with_repro f))) s Q T.
Proof.
  intros Hs Hf HQ. apply run_when.
  - intros Hc. eapply run_assign_rewritten; [exact Hs | | exact HQ].
    intros rp Hrp Hst. destruct (Hf Hc rp Hrp) as [? Heq]. split; [done|].
    by rewrite Heq.
  - intros _. by apply HQ.
Qed.

(** A property that reads as undefined in a sub-state that keeps what [rp0]
    had set was not set in [rp0], and any value may be given to it. *)
Ltac fill_side Hrp :=
  let Hc := fresh "Hc" in
  let rp1 := fresh "rp" in
  let Hrp1 := fresh "Hrp" in
  intros Hc rp1 Hrp1; split; [|done];
  unfold fills in Hrp, Hrp1 |- *; cbn in Hc |- *;
  destruct Hrp as (?H & ?H & ?H & ?H & ?H & ?H & ?H);
  destruct Hrp1 as (?H & ?H & ?H & ?H & ?H & ?H & ?H);
  split_and!; try done;
  let v := fresh "v" in
  let Hv := fresh "Hv" in
  intros v Hv; exfalso;
  match goal with
  | H : forall _, _ -> _ |- _ => rewrite (H _ Hv) in Hc; discriminate Hc
  end.

Lemma run_initializeStrategyProperties dwarf d (s0 s : @State Obs) strategy :
  rewritten dwarf d s0 strategy s ->
  run (initializeStrategyProperties dwarf) s
    (fun _ s' => rewritten dwarf d s0 strategy s') never.
Proof.
  intros Hs. unfold initializeStrategyProperties.
  mstep. eapply run_read_rewritten; [exact Hs|]. intros rp Hrp _.
  cbn [repro with_repro x y].
  destruct (strategy_is _ "orange"); [|destruct (strategy_is _ "blue")].
  - eapply run_seq.
    { eapply (run_fill _ _ _ _ _ _ _ (fun _ s' => rewritten dwarf d s0 strategy s'));
        [exact Hs | fill_side Hrp | done]. }
    intros [] s1 Hs1. cbn beta.
    mstep. eapply run_read_rewritten; [exact Hs1|]. intros rp' Hrp' _.
    cbn [repro with_repro x y].
    eapply run_fill; [exact Hs1 | fill_side Hrp' | done].
  - eapply run_fill; [exact Hs | | done].
    intros Hc rp1 Hrp1. split; [|done].
    unfold fills in Hrp, Hrp1 |- *. cbn.
    destruct Hrp as (_ & _ & _ & _ & _ & _ & Hgf).
    destruct Hrp1 as (? & ? & ? & ? & ? & ? & _).
    split_and!; try done. intros Hset. specialize (Hgf Hset).
    rewrite Hgf in Hc. by destruct (guardedFemale (repro d)).
  - by apply run_ret.
Qed.

Lemma run_assignRandomStrategy config dwarf d (s0 s : @State Obs) strategy :
  gender d = "male"%string ->
  rewritten dwarf d s0 strategy s ->
  run (assignRandomStrategy config dwarf) s
    (fun _ s' =>
       rewritten dwarf d s0 (pick (MALE_STRATEGIES config) (random s (draws s))) s')
    never.
Proof.
  intros Hg Hs. unfold assignRandomStrategy.
  mstep. eapply run_read_rewritten; [exact Hs|]. intros rp Hrp _.
  cbn [gender with_repro name x y]. rewrite Hg. cbn [String.eqb Ascii.eqb Bool.eqb negb].
  cbv beta iota zeta.
  mstep. mstep. mstep.
  eapply (run_assign_rewritten _ _ _ _ _
            (pick (MALE_STRATEGIES config) (random s (draws s)))).
  { eapply rewritten_frame; [| |exact Hs]; reflexivity. }
  { intros rp1 Hrp1 _. split; [|reflexivity].
    unfold fills in Hrp1 |- *. exact Hrp1. }
  intros s1 Hs1. mstep.
  eapply run_weaken; [apply (run_initializeStrategyProperties _ _ _ _ _ Hs1) | | done].
  intros [] s2 Hs2. cbn beta. mstep. mstep. mstep.
  eapply rewritten_frame; [| |exact Hs2]; reflexivity.
Qed.

Lemma run_initializeReproductionTraits (config : Config) (dwarf : ref)
    (s : @State Obs) (d : Dwarf) :
  heap s !! dwarf = Some d ->
  run (initializeReproductionTraits config (Some dwarf)) s
    (fun _ s' => exists rp',
       heap s' = <[dwarf := with_repro (fun _ => rp') d]> (heap s)
       /\ dwarfs s' = dwarfs s
       /\ filled config (random s (draws s)) d rp') never.
Proof.
  intros Hd. pose proof (rewritten_start dwarf d s Hd) as Hs.
  unfold initializeReproductionTraits.
  mstep. eapply run_read_rewritten; [exact Hs|]. intros rp0 _ _.
  cbn [gender with_repro].
  set (strategy := if String.eqb (gender d) "male"
                   then pick (MALE_STRATEGIES config) (random s (draws s))
                   else reproductionStrategy (repro d)).
  eapply (run_seq _ _ _ (fun _ s1 => rewritten dwarf d s strategy s1)).
  { unfold strategy. apply run_when; intros Hg; rewrite Hg.
    - apply String.eqb_eq in Hg. by eapply run_assignRandomStrategy.
    - exact Hs. }
  intros [] s1 Hs1. cbn beta.
  mstep. eapply run_read_rewritten; [exact Hs1|]. intros rp1 Hrp1 _.
  cbn [repro with_repro].
  eapply run_seq;
    [eapply (run_fill _ _ _ _ _ _ _ (fun _ s' => rewritten dwarf d s strategy s'));
       [exact Hs1 | fill_side Hrp1 | done] |].
  intros [] s2 Hs2. cbn beta.
  eapply run_seq;
    [eapply (run_fill _ _ _ _ _ _ _ (fun _ s' => rewritten dwarf d s strategy s'));
       [exact Hs2 | fill_side Hrp1 | done] |].
  intros [] s3 Hs3. cbn beta.
  eapply run_seq;
    [eapply (run_fill _ _ _ _ _ _ _ (fun _ s' => rewritten dwarf d s strategy s'));
       [exact Hs3 | fill_side Hrp1 | done] |].
  intros [] s4 Hs4. cbn beta.
  eapply run_seq;
    [eapply (run_fill _ _ _ _ _ _ _ (fun _ s' => rewritten dwarf d s strategy s'));
       [exact Hs4 | fill_side Hrp1 | done] |].
  intros [] s5 Hs5. cbn beta.
  mstep. eapply run_read_rewritten; [exact Hs5|]. intros rp5 _ _.
  mstep. mstep. mstep.
  destruct Hs5 as (rp' & Hheap & Hpop & Hrp' & Hst).
  exists rp'. split_and!; [done | done |].
  unfold filled. split; [done|]. subst strategy.
  split; intros Hg.
  - apply String.eqb_neq in Hg. by rewrite Hg in Hst.
  - apply String.eqb_eq in Hg. by rewrite Hg in Hst.
Qed.

(** C5, as the code has it: the hook keeps every reproductive property
    that is already set, and the strategy of a dwarf that is not male; a
    male's strategy is drawn again at every call. *)
Theorem initializeReproductionTraits_fills_unset (config : Config) (dwarf : ref)
    (s : @State Obs) (d : Dwarf) :
  heap s !! dwarf = Some d ->
  exists s' d',
    initializeReproductionTraits config (Some dwarf) s = Ok tt s'
    /\ heap s' !! dwarf = Some d'
    /\ (forall v, isPregnant (repro d) = Some v -> isPregnant (repro d') = Some v)
    /\ (forall v, pregnancyTimer (repro d) = Some v -> pregnancyTimer (repro d') = Some v)
    /\ (forall v, reproductionCooldown (repro d) = Some v ->
                  reproductionCooldown (repro d') = Some v)
    /\ (forall v, mateSeekingTimer (repro d) = Some v ->
                  mateSeekingTimer (repro d') = Some v)
    /\ (forall v, territoryX (repro d) = Some v -> territoryX (repro d') = Some v)
    /\ (forall v, territoryY (repro d) = Some v -> territoryY (repro d') = Some v)
    /\ (guardedFemale (repro d) <> Undefined ->
        guardedFemale (repro d') = guardedFemale (repro d))
    /\ (gender d <> "male"%string ->
        reproductionStrategy (repro d') = reproductionStrategy (repro d))
    /\ (gender d = "male"%string ->
        reproductionStrategy (repro d')
        = pick (MALE_STRATEGIES config) (random s (draws s))).
Proof.
  intros Hd.
  pose proof (run_initializeReproductionTraits config dwarf s d Hd) as H.
  apply run_never in H
    as ([] & s' & Hrun & rp' & Hheap & _ & (H1 & H2 & H3 & H4 & H5 & H6 & H7) & H8 & H9).
  exists s', (with_repro (fun _ => rp') d). split; [done|].
  split; [by rewrite Hheap, lookup_insert_eq|]. by split_and!.
Qed.

(** ** Mate scoring *)

Lemma expect_shift (D : Distribution) (f g : Q -> Q) (c : Q) :
  (forall u : Q, f u == g u + c) ->
  expect D f == expect D g + c * total_weight D.
Proof.
  intros Hfg. induction D as [|[w v] D IH]; cbn [expect total_weight fold_right fst snd].
  - ring.
  - fold (expect D f) (expect D g) (total_weight D). rewrite IH, Hfg. ring.
Qed.

Lemma score_given_body config female male (s : @State Obs) f m p (u : Q) :
  heap s !! female = Some f -> heap s !! male = Some m ->
  personality f = Some p ->
  score_given config female male s u
  = scoreMate_body (FEMALE_SELECTION config) p (reproductionStrategy (repro m)) u.
Proof.
  intros Hf Hm Hp. unfold score_given, scoreMate, bind, read.
  cbn [heap with_draw]. rewrite Hf. cbv beta iota.
  cbn [heap with_draw]. rewrite Hm. cbv beta iota. rewrite Hp. done.
Qed.

(** C7: for a female with agreeableness above 60 and neuroticism not below
    40, under the default configuration, a guardian's score exceeds a
    territorial male's by 40 at equal random numbers, and so does its
    expected value under any distribution of the random number, the same
    for both. *)
Theorem guardian_outscores_territorial (s : @State Obs) (female g t : ref)
    (f dg dt : Dwarf) (p : Personality) (D : Distribution) :
  heap s !! female = Some f -> personality f = Some p ->
  60 < agreeableness p -> ~ neuroticism p < 40 ->
  heap s !! g = Some dg -> reproductionStrategy (repro dg) = Some "blue"%string ->
  heap s !! t = Some dt -> reproductionStrategy (repro dt) = Some "orange"%string ->
  total_weight D == 1 ->
  (forall u : Q, score_given REPRODUCTION_CONFIG female g s u
                 == score_given REPRODUCTION_CONFIG female t s u + 40)
  /\ expect D (score_given REPRODUCTION_CONFIG female g s)
     == expect D (score_given REPRODUCTION_CONFIG female t s) + 40
  /\ expect D (score_given REPRODUCTION_CONFIG female t s)
     < expect D (score_given REPRODUCTION_CONFIG female g s).
Proof.
  intros Hf Hp Hagr Hneu Hg Hblue Ht Horange HD.
  assert (forall u : Q, score_given REPRODUCTION_CONFIG female g s u
                        == score_given REPRODUCTION_CONFIG female t s u + 40) as Hsame.
  { intros u.
    rewrite (score_given_body _ _ _ _ f dg p u Hf Hg Hp).
    rewrite (score_given_body _ _ _ _ f dt p u Hf Ht Hp).
    rewrite Hblue, Horange. unfold scoreMate_body.
    cbn [FEMALE_SELECTION REPRODUCTION_CONFIG FEMALE_SELECTION_default baseScore
         randomVariance cfg_agreeableness cfg_openness cfg_neuroticism agr_threshold
         opn_threshold neu_threshold blueBonus orangePenalty yellowBonus orangeBonus].
    unfold above, below.
    apply Qlt_bool_true in Hagr. rewrite Hagr.
    assert (Qlt_bool (neuroticism p) 40 = false) as ->.
    { apply Qlt_bool_false. by apply Qnot_lt_le. }
    cbn [strategy_is]. 
    replace (String.eqb "blue" "blue") with true by reflexivity.
    replace (String.eqb "blue" "orange") with false by reflexivity.
    replace (String.eqb "orange" "blue") with false by reflexivity.
    replace (String.eqb "orange" "orange") with true by reflexivity.
    replace (String.eqb "blue" "yellow") with false by reflexivity.
    replace (String.eqb "orange" "yellow") with false by reflexivity.
    destruct (Qlt_bool 70 (openness p)); ring. }
  split; [done|].
  pose proof (expect_shift D _ _ 40 Hsame) as Hexp.
  rewrite HD in Hexp.
  assert (expect D (score_given REPRODUCTION_CONFIG female g s)
          == expect D (score_given REPRODUCTION_CONFIG female t s) + 40) as Heq.
  { rewrite Hexp. ring. }
  split; [done|].
  rewrite Heq. rewrite <- (Qplus_0_r (expect D _)) at 1.
  apply Qplus_lt_r. done.
Qed.

(** ** Gestation *)

Lemma run_createDwarf construct px py nm adult (s : @State Obs) Q T :
  Dwarf_constructor = Some construct ->
  Q (fresh (dom (heap s)))
    (set_draws (draws s + (construct px py nm adult (fun i => random s (draws s + i)%nat)).2)%nat
       (set_heap (<[fresh (dom (heap s)) :=
                     (construct px py nm adult (fun i => random s (draws s + i)%nat)).1]>
                    (heap s)) s)) ->
  run (createDwarf Dwarf_constructor px py nm adult) s Q T.
Proof.
  intros -> HQ. unfold run, createDwarf.
  by destruct (construct px py nm adult _).
Qed.

Lemma fresh_ref_unused (h : gmap ref Dwarf) : h !! fresh (dom h) = None.
Proof. apply not_elem_of_dom. apply is_fresh. Qed.

(** The end of [giveBirth], from [addDwarf] on. *)
Lemma run_announce_birth (mother baby : ref) (s : @State Obs) (m b : Dwarf) :
  heap s !! mother = Some m -> heap s !! baby = Some b ->
  run (addDwarf baby ;;
       m <- read mother ;;
       b <- read baby ;;
       addLog (name m +:+ " gave birth to " +:+ name b +:+ "!") true
         (Some "success"%string) ;;
       now <- Date_now ;;
       emit "birth"
         {| payload :=
              Birth
                {| bm_name := name m; bm_x := x m; bm_y := y m;
                   bm_reproductionCooldown := reproductionCooldown (repro m) |}
                {| bb_name := name b; bb_x := x b; bb_y := y b;
                   bb_gender := gender b;
                   bb_reproductionStrategy := reproductionStrategy (repro b) |}
                (pregnancyTimer (repro m));
            data_timestamp := Some now |} ;;
       console_write (console_log
         ("PregnancyManager: " +:+ name m +:+ " gave birth to " +:+ name b))) s
    (fun _ s' =>
       heap s' = heap s /\ dwarfs s' = Some (default [] (dwarfs s) ++ [baby]))
    never.
Proof.
  intros Hm Hb. unfold addDwarf.
  mstep. mstep. mstep. eapply run_read; [exact Hm|].
  mstep. eapply run_read; [exact Hb|].
  repeat mstep. done.
Qed.

(** C2: under the default configuration and a host constructor that puts
    the new dwarf where it is told and gives it the adulthood flag it is
    told, a pregnant female whose timer stands at 3599 gives birth in the
    next update: her pregnancy ends, her timer is back at 0, her cooldown
    is 7200, and one new object, not adult, is appended to the population
    at the offset drawn around her. *)
Theorem birth_at_term (reproductionSystem : bool) (female : ref) (s : @State Obs)
    (f : Dwarf) (t : Q)
    (construct : Q -> Q -> option string -> bool -> (nat -> Q) -> Dwarf * nat) :
  Dwarf_constructor = Some construct ->
  (forall px py nm adult rnd,
     x (construct px py nm adult rnd).1 = px
     /\ y (construct px py nm adult rnd).1 = py
     /\ isAdult (construct px py nm adult rnd).1 = adult) ->
  heap s !! female = Some f ->
  isPregnant (repro f) = Some true ->
  pregnancyTimer (repro f) = Some t -> t == 3599 ->
  exists s' baby m b,
    updatePregnancy Dwarf_constructor REPRODUCTION_CONFIG reproductionSystem female s
    = Ok tt s'
    /\ heap s' !! female = Some m
    /\ isPregnant (repro m) = Some false
    /\ pregnancyTimer (repro m) = Some 0
    /\ reproductionCooldown (repro m) = Some 7200
    /\ heap s !! baby = None
    /\ heap s' !! baby = Some b
    /\ dom (heap s') = dom (heap s) ∪ {[baby]}
    /\ dwarfs s' = Some (default [] (dwarfs s) ++ [baby])
    /\ isAdult b = false
    /\ x b == x f + random s (draws s) * 40 - 20
    /\ y b == y f + random s (S (draws s)) * 40 - 20.
Proof.
  intros Hctor Hplace Hf Hpreg Htimer Ht.
  cut (run (updatePregnancy Dwarf_constructor REPRODUCTION_CONFIG reproductionSystem
              female) s
    (fun _ s' => exists baby m b,
       heap s' !! female = Some m
       /\ isPregnant (repro m) = Some false
       /\ pregnancyTimer (repro m) = Some 0
       /\ reproductionCooldown (repro m) = Some 7200
       /\ heap s !! baby = None
       /\ heap s' !! baby = Some b
       /\ dom (heap s') = dom (heap s) ∪ {[baby]}
       /\ dwarfs s' = Some (default [] (dwarfs s) ++ [baby])
       /\ isAdult b = false
       /\ x b == x f + random s (draws s) * 40 - 20
       /\ y b == y f + random s (S (draws s)) * 40 - 20) never).
  { intros H. apply run_never in H as ([] & s' & Hrun & baby & m & b & H).
    by exists s', baby, m, b. }
  assert (Qle_bool (PREGNANCY_DURATION REPRODUCTION_CONFIG) (t + 1) = true) as Hterm.
  { apply Qle_bool_iff. rewrite Ht. discriminate. }
  unfold updatePregnancy, pregnantFemales_add.
  tstep Hf. tstep Hf. rewrite Hpreg. cbn [truthy default negb id].
  tstep Hf. tstep Hf. rewrite Htimer.
  tstep Hf. tstep Hf. rewrite Hterm.
  unfold giveBirth, pregnantFemales_delete.
  tstep Hf. tstep Hf.
  cbn [repro with_repro isPregnant set_pregnancyTimer]. rewrite Hpreg.
  cbn [truthy default negb id].
  repeat (tstep Hf).
  eapply run_createDwarf; [exact Hctor|]. norm_state.
  set (px := x _ + _ * _ - _ / 2).
  set (py := y _ + _ * _ - _ / 2).
  set (born := construct px py None false _).
  set (cribs := alter _ female (alter _ female (alter _ female (alter _ female (heap s))))).
  set (baby := fresh (dom cribs)).
  assert (dom cribs = dom (heap s)) as Hdom.
  { unfold cribs. by rewrite !dom_alter_L. }
  assert (heap s !! baby = None) as Hbaby.
  { unfold baby. rewrite Hdom. apply fresh_ref_unused. }
  assert (baby <> female) as Hne by congruence.
  assert (exists m, cribs !! female = Some m
                    /\ isPregnant (repro m) = Some false
                    /\ pregnancyTimer (repro m) = Some 0
                    /\ reproductionCooldown (repro m) = Some 7200) as (m & Hm & Hm1 & Hm2 & Hm3).
  { eexists. unfold cribs. rewrite !lookup_alter_eq, Hf. by split_and!. }
  destruct (Hplace px py None false
              (fun i => random s (S (S (draws s)) + i)%nat)) as (Hx & Hy & Hadult).
  fold born in Hx, Hy, Hadult.
  assert (px == x f + random s (draws s) * 40 - 20) as Hpx.
  { unfold px. cbn. field. }
  assert (py == y f + random s (S (draws s)) * 40 - 20) as Hpy.
  { unfold py. cbn. field. }
  assert (forall (s1 : @State Obs) b,
    heap s1 = <[baby := b]> cribs -> dwarfs s1 = dwarfs s ->
    x b = px -> y b = py -> isAdult b = false ->
    run (addDwarf baby ;;
         m <- read female ;;
         b <- read baby ;;
         addLog (name m +:+ " gave birth to " +:+ name b +:+ "!") true
           (Some "success"%string) ;;
         now <- Date_now ;;
         emit "birth"
           {| payload :=
                Birth
                  {| bm_name := name m; bm_x := x m; bm_y := y m;
                     bm_reproductionCooldown := reproductionCooldown (repro m) |}
                  {| bb_name := name b; bb_x := x b; bb_y := y b;
                     bb_gender := gender b;
                     bb_reproductionStrategy := reproductionStrategy (repro b) |}
                  (pregnancyTimer (repro m));
              data_timestamp := Some now |} ;;
         console_write (console_log
           ("PregnancyManager: " +:+ name m +:+ " gave birth to " +:+ name b))) s1
      (fun _ s' => exists baby m b,
         heap s' !! female = Some m
         /\ isPregnant (repro m) = Some false
         /\ pregnancyTimer (repro m) = Some 0
         /\ reproductionCooldown (repro m) = Some 7200
         /\ heap s !! baby = None
         /\ heap s' !! baby = Some b
         /\ dom (heap s') = dom (heap s) ∪ {[baby]}
         /\ dwarfs s' = Some (default [] (dwarfs s) ++ [baby])
         /\ isAdult b = false
         /\ x b == x f + random s (draws s) * 40 - 20
         /\ y b == y f + random s (S (draws s)) * 40 - 20) never) as Htail.
  { intros s1 b Hheap1 Hpop1 Hbx Hby Hbadult.
    eapply run_weaken;
      [apply (run_announce_birth female baby s1 m b) | | done].
    - by rewrite Hheap1, lookup_insert_ne.
    - by rewrite Hheap1, lookup_insert_eq.
    - intros [] s2 [Hheap2 Hpop2]. exists baby, m, b.
      rewrite Hheap2, Hheap1, Hpop2, Hpop1.
      rewrite lookup_insert_ne by done. rewrite lookup_insert_eq.
      rewrite dom_insert_L, Hdom. rewrite Hbx, Hby.
      split_and!; try done. apply (comm_L _). }
  mstep. apply run_when; intros ->.
  - eapply run_weaken;
      [apply (run_initializeReproductionTraits REPRODUCTION_CONFIG baby _ born.1) | | done].
    + norm_state. by rewrite lookup_insert_eq.
    + intros [] s1 (rp' & Hheap1 & Hpop1 & _). cbn beta.
      apply (Htail s1 (with_repro (fun _ => rp') born.1)); try done.
      revert Hheap1. norm_state. by rewrite insert_insert_eq.
  - apply (Htail _ born.1); done.
Qed.

(** ** Target selection and engagement *)

#[local] Instance only_draws_preorder : PreOrder (@only_draws Obs).
Proof.
  split.
  - intros s. unfold only_draws. by destruct s.
  - intros s1 s2 s3 H12 H23. unfold only_draws in *.
    rewrite H23 at 1. rewrite H12. done.
Qed.

Lemma only_draws_heap (s s' : @State Obs) : only_draws s s' -> heap s' = heap s.
Proof. intros ->. done. Qed.

Lemma only_draws_dwarfs (s s' : @State Obs) : only_draws s s' -> dwarfs s' = dwarfs s.
Proof. intros ->. done. Qed.

Lemma only_draws_lifespan (s s' : @State Obs) :
  only_draws s s' -> lifespan s' = lifespan s.
Proof. intros ->. done. Qed.

Lemma preserves_draws_random : preserves (@only_draws Obs) Math_random.
Proof. by intros s. Qed.

Lemma preserves_draws_calculateDistance a b :
  preserves (@only_draws Obs) (calculateDistance Math_sqrt a b).
Proof. unfold calculateDistance. repeat pstep. Qed.

Lemma preserves_draws_shouldEngageInCombat config a b :
  preserves (@only_draws Obs) (shouldEngageInCombat config a b).
Proof. unfold shouldEngageInCombat. repeat pstep; apply preserves_draws_random. Qed.

(** What a filter with effects keeps: entries of the list for which the
    predicate answered true. *)
Lemma filterM_keeps {A} (R : relation (@State Obs)) `{!PreOrder R}
    (P : A -> Prop) (keep : A -> M bool) (l : list A) (s0 s : @State Obs) :
  (forall a, preserves R (keep a)) ->
  (forall a s1, R s0 s1 -> run (keep a) s1 (fun b _ => b = true -> P a) anyhow) ->
  R s0 s ->
  run (filterM keep l) s
    (fun l' s' => R s0 s' /\ Forall (fun a => a ∈ l /\ P a) l') anyhow.
Proof.
  intros Hkeep HP. revert s. induction l as [|a l IH]; intros s Hs; cbn [filterM].
  - apply run_ret. by split.
  - apply run_bind.
    assert (run (keep a) s (fun b s1 => R s0 s1 /\ (b = true -> P a)) anyhow) as Ha.
    { specialize (Hkeep a s). specialize (HP a s Hs). unfold run in *.
      destruct (keep a s); [|done]. split; [by etrans | done]. }
    eapply run_weaken; [exact Ha | | done].
    intros b s1 [Hs1 Hb]. cbn beta. apply run_bind.
    eapply run_weaken; [apply (IH s1 Hs1) | | done].
    intros rest s2 [Hs2 Hrest]. cbn beta. apply run_ret. split; [done|].
    assert (Forall (fun a' => a' ∈ a :: l /\ P a') rest) as Hrest'.
    { eapply Forall_impl; [exact Hrest|]. intros a' [Hin HPa]. split; [|done].
      by apply elem_of_cons; right. }
    destruct b; [|done]. constructor; [|done]. split; [apply elem_of_cons; by left | auto].
Qed.

Lemma run_anyhow {A} (m : @M Obs A) s : run m s (fun _ _ => True) anyhow.
Proof. unfold run. by destruct (m s). Qed.

Lemma run_getNearbyDwarfs center radius (s : @State Obs) :
  run (getNearbyDwarfs Math_sqrt center radius) s
    (fun l s' =>
       only_draws s s' /\
       Forall (fun a =>
         a ∈ default [] (dwarfs s) /\ a <> center /\
         exists d t,
           heap s !! center = Some d /\ heap s !! a = Some t /\
           Qlt_bool
             (Math_sqrt ((x d - x t) * (x d - x t) + (y d - y t) * (y d - y t)))
             radius = true) l) anyhow.
Proof.
  unfold getNearbyDwarfs. mstep. mstep.
  eapply run_weaken;
    [apply (filterM_keeps only_draws
              (fun a => a <> center /\
                 exists d t,
                   heap s !! center = Some d /\ heap s !! a = Some t /\
                   Qlt_bool
                     (Math_sqrt ((x d - x t) * (x d - x t) + (y d - y t) * (y d - y t)))
                     radius = true) _ _ s s) | | done].
  - intros a. repeat pstep. apply preserves_draws_calculateDistance.
  - intros a s1 Hs1. apply only_draws_heap in Hs1.
    unfold calculateDistance. mstep.
    + mstep. done.
    + apply Nat.eqb_neq in Heqb. repeat mstep. intros Hnear.
      split; [done|]. rewrite Hs1 in *. eauto.
  - reflexivity.
  - intros l s' [Hs' Hl]. split; [done|].
    eapply Forall_impl; [exact Hl|]. cbn beta. intros a (Hin & Hne & H). by split_and!.
Qed.

Lemma run_potentialTargets config dwarf (s : @State Obs) :
  run (potentialTargets Math_sqrt config dwarf) s
    (fun l s' =>
       only_draws s s' /\
       Forall (eligible_near Math_sqrt s dwarf (LifespanConfig.attackRange config * 2)) l)
    anyhow.
Proof.
  unfold potentialTargets. mstep.
  eapply run_weaken; [apply run_getNearbyDwarfs | | done].
  intros nearby s1 [Hs1 Hnearby]. cbn beta.
  eapply run_weaken;
    [apply (filterM_keeps only_draws
              (fun a => exists t, heap s !! a = Some t
                                  /\ num_gt (health (vital t)) 0 = true) _ _ s s1) | | done].
  - intros a. repeat pstep. apply preserves_draws_shouldEngageInCombat.
  - intros a s2 Hs2. apply only_draws_heap in Hs2. mstep. mstep. mstep.
    + apply andb_prop in Heqb as [Hhealth _].
      eapply run_weaken; [apply run_anyhow | | done].
      intros b _ _ _. rewrite Hs2 in *. eauto.
    + mstep. done.
  - done.
  - intros l s2 [Hs2 Hl]. split; [done|].
    apply Forall_forall. intros a Ha.
    rewrite Forall_forall in Hl. destruct (Hl a Ha) as (Hin & t & Ht & Hhealth).
    rewrite Forall_forall in Hnearby.
    destruct (Hnearby a Hin) as (Hpop & Hne & d & t' & Hd & Ht' & Hnear).
    assert (t' = t) as -> by congruence.
    split_and!; [done..|]. exists d, t. by split_and!.
Qed.

Lemma run_performAttack config attacker target (s : @State Obs) a t sa st h :
  heap s !! attacker = Some a -> heap s !! target = Some t -> attacker <> target ->
  num_gt (attackCooldown (vital a)) 0 = false ->
  combatStats (vital a) = Some sa -> combatStats (vital t) = Some st ->
  health (vital t) = Some h ->
  Qeq_bool (defense st) 0 = false -> Qeq_bool (speed sa) 0 = false ->
  run (performAttack config attacker target) s
    (fun _ s' => exists dmg a' t',
       heap s' !! attacker = Some a' /\ heap s' !! target = Some t'
       /\ health (vital t') = Some (h - inject_Z dmg)
       /\ lastAttacker (vital t') = Obj attacker
       /\ isInCombat (vital a') = Some true /\ isInCombat (vital t') = Some true
       /\ combatTarget (vital a') = Obj target
       /\ combatTarget (vital t') = Obj attacker
       /\ totalCombats (stats (lifespan s'))
          = (totalCombats (stats (lifespan s)) + 1)%Z
       /\ totalDamageDealt (stats (lifespan s'))
          = (totalDamageDealt (stats (lifespan s)) + dmg)%Z
       /\ x a' = x a /\ y a' = y a
       /\ dwarfs s' = dwarfs s) never.
Proof.
  intros Ha Ht Hne Hcd Hsa Hst Hh Hdef Hspeed.
  destruct s as [h0 pop rnd n clk con glog b o ls pf tm]. cbn [heap] in Ha, Ht.
  unfold performAttack, combatStats_of, addDamageNumber, addCombatEffect.
  tstep2 Ha Ht. tstep2 Ha Ht. rewrite Hcd.
  tstep2 Ha Ht. tstep2 Ha Ht. tstep2 Ha Ht. rewrite Hsa. tstep2 Ha Ht.
  tstep2 Ha Ht. tstep2 Ha Ht. tstep2 Ha Ht. rewrite Hst. tstep2 Ha Ht.
  tstep2 Ha Ht. tstep2 Ha Ht; [congruence|].
  tstep2 Ha Ht. tstep2 Ha Ht. rewrite Hh.
  set (dmg := Math_floor _).
  repeat (tstep2 Ha Ht); try (exfalso; congruence);
  (exists dmg; eexists; eexists;
   split; [lookup2 Ha Ht|]; split; [lookup2 Ha Ht|];
   cbn; by split_and!).
Qed.

Lemma run_moveTowardsTarget dwarf target (s : @State Obs) d t sd :
  heap s !! dwarf = Some d -> heap s !! target = Some t -> dwarf <> target ->
  combatStats (vital d) = Some sd ->
  run (moveTowardsTarget Math_sqrt dwarf target) s
    (fun _ s' => exists d',
       heap s' !! dwarf = Some d' /\
       let dx := x t - x d in
       let dy := y t - y d in
       let distance := Math_sqrt (dx * dx + dy * dy) in
       let moveSpeed :=
         (if num_truthy (walkSpeed d) then default 1 (walkSpeed d) else 1) * speed sd in
       if Qlt_bool 0 distance then
         x d' = x d + (dx / distance) * moveSpeed
         /\ y d' = y d + (dy / distance) * moveSpeed
         /\ targetX d' = Some (x t) /\ targetY d' = Some (y t)
       else d' = d) never.
Proof.
  intros Hd Ht Hne Hsd.
  destruct s as [h0 pop rnd n clk con glog b o ls pf tm]. cbn [heap] in Hd, Ht.
  unfold moveTowardsTarget, combatStats_of.
  tstep2 Hd Ht. tstep2 Hd Ht. tstep2 Hd Ht. tstep2 Hd Ht.
  destruct (Qlt_bool 0 _) eqn:Hpos.
  - tstep2 Hd Ht. rewrite Hsd. repeat (tstep2 Hd Ht).
    eexists. split; [lookup2 Hd Ht|]. cbn. by split_and!.
  - tstep2 Hd Ht. exists d. by split.
Qed.
(** ** LifespanUtils: efficiency and health status *)

Lemma quotient_some (a b : Q) : ~ b == 0 -> quotient a b = Some (a / b).
Proof.
  intros Hb. unfold quotient. destruct (Qeq_bool b 0) eqn:E; [|done].
  apply Qeq_bool_iff in E. contradiction.
Qed.

Lemma Qdiv_le_mono (a b c : Q) : 0 < c -> a <= b -> a / c <= b / c.
Proof.
  intros Hc Hab. unfold Qdiv. apply Qmult_le_compat_r; [done|].
  apply Qlt_le_weak, Qinv_lt_0_compat, Hc.
Qed.

Lemma Qdiv_lt_bound (a b c : Q) : 0 < c -> a < b * c <-> a / c < b.
Proof. intros Hc. split; intros H; [by apply Qlt_shift_div_r | ].
  apply (Qmult_lt_r _ _ c Hc) in H. revert H. unfold Qdiv.
  rewrite <- Qmult_assoc, (Qmult_comm (/ c)), Qmult_inv_r, Qmult_1_r; [done|].
  intros E. rewrite E in Hc. by apply Qlt_irrefl in Hc.
Qed.

Lemma Qdiv_le_bound (a b c : Q) : 0 < c -> b * c <= a <-> b <= a / c.
Proof.
  intros Hc. split; intros H.
  - by apply Qle_shift_div_l.
  - apply Qnot_lt_le. intros Hlt. apply (Qdiv_lt_bound _ _ _ Hc) in Hlt.
    by apply Qlt_not_le in Hlt.
Qed.

(** X1: the age efficiency of a dwarf with a positive lifespan lies between
    0.3 and 1, never grows with age, is 1 before 70% of the lifespan and
    0.3 from the end of the lifespan on. *)
Theorem calculateAgeEfficiency_declines (age1 age2 lifespan' : Q) :
  0 < lifespan' -> age1 <= age2 ->
  exists e1 e2,
    calculateAgeEfficiency age1 lifespan' = Some e1
    /\ calculateAgeEfficiency age2 lifespan' = Some e2
    /\ (3 # 10) <= e2 /\ e2 <= e1 /\ e1 <= 1
    /\ (age1 < (7 # 10) * lifespan' -> e1 == 1)
    /\ (lifespan' <= age2 -> e2 == (3 # 10)).
Proof.
  intros HL Hle. unfold calculateAgeEfficiency.
  assert (~ lifespan' == 0) as HL0.
  { intros E. rewrite E in HL. by apply Qlt_irrefl in HL. }
  rewrite !quotient_some by done.
  pose proof (Qdiv_le_mono _ _ _ HL Hle) as Hr.
  pose proof (Qdiv_lt_bound age1 (7 # 10) _ HL) as H1.
  pose proof (Qdiv_le_bound age2 1 _ HL) as H2. rewrite Qmult_1_l in H2.
  set (r1 := age1 / lifespan') in *. set (r2 := age2 / lifespan') in *.
  clearbody r1 r2.
  destruct (Qlt_bool r1 (7 # 10)) eqn:E1; destruct (Qlt_bool r2 (7 # 10)) eqn:E2;
    first [apply Qlt_bool_true in E1 | apply Qlt_bool_false in E1];
    first [apply Qlt_bool_true in E2 | apply Qlt_bool_false in E2];
    eexists _, _; (split; [reflexivity|]); (split; [reflexivity|]).
  all: split_and!; try done; try lra;
    try (intros H; first [apply H1 in H | apply H2 in H]; try lra).
  all: try (apply Q.max_lub; [lra | unfold Qdiv; change (/ (3 # 10)) with (10 # 3); lra]).
  all: try (apply Q.le_max_l).
  all: try (apply Q.max_l; unfold Qdiv; change (/ (3 # 10)) with (10 # 3); lra).
  all: try (apply Q.max_le_compat_l; unfold Qdiv; change (/ (3 # 10)) with (10 # 3); lra).
Qed.
(** ** Healing and aging *)

Lemma run_handleHealthUpdate config dwarf (s : @State Obs) d h mh :
  heap s !! dwarf = Some d ->
  health (vital d) = Some h -> maxHealth (vital d) = Some mh ->
  run (handleHealthUpdate config dwarf) s
    (fun _ s' => exists d' h',
       heap s' = <[dwarf := d']> (heap s) /\ dwarfs s' = dwarfs s
       /\ lifespan s' = lifespan s
       /\ health (vital d') = Some h'
       /\ (h' = h \/
           (h' = Qmin mh (h + LifespanConfig.naturalHealing config)
            /\ h < mh /\ mh * (3 # 10) < h
            /\ truthy (isInCombat (vital d)) = false))
       /\ healthBarVisible (vital d') = Some (Qlt_bool h' (mh * (9 # 10)))
       /\ maxHealth (vital d') = Some mh
       /\ isDead (vital d') = isDead (vital d) /\ age (vital d') = age (vital d)
       /\ repro d' = repro d) never.
Proof.
  intros Hd Hh Hmh. unfold handleHealthUpdate.
  tstep Hd. tstep Hd. rewrite Hh, Hmh. tstep Hd.
  apply run_when; [intros Hc | intros _].
  - apply andb_prop in Hc as [Hc H3]. apply andb_prop in Hc as [H1 H2].
    apply Qlt_bool_true in H1, H3. apply negb_true_iff in H2.
    repeat (tstep Hd).
    eexists _, _. rewrite (alter_present _ _ _ _ Hd), !alter_insert_eq.
    split; [reflexivity|]. cbn. split_and!; try done. right. by split_and!.
  - repeat (tstep Hd). rewrite Hh.
    eexists _, _. rewrite (alter_present _ _ _ _ Hd).
    split; [reflexivity|]. cbn. rewrite Hh. split_and!; try done. by left.
Qed.

(** X2: natural healing never lowers the health of a dwarf and never lifts
    it above the maximum; a dwarf in combat, or at 30% of its maximum or
    less, is not healed; the health bar is shown exactly when the health
    left is below 90% of the maximum; no other object changes. *)
Theorem handleHealthUpdate_heals_within_bounds (config : LifespanConfig.t)
    (dwarf : ref) (s : @State Obs) (d : Dwarf) (h mh : Q) :
  heap s !! dwarf = Some d ->
  health (vital d) = Some h -> maxHealth (vital d) = Some mh ->
  0 <= LifespanConfig.naturalHealing config ->
  exists s' d' h',
    handleHealthUpdate config dwarf s = Ok tt s'
    /\ heap s' !! dwarf = Some d' /\ health (vital d') = Some h'
    /\ h <= h' /\ (h <= mh -> h' <= mh)
    /\ (truthy (isInCombat (vital d)) = true -> h' = h)
    /\ (h <= mh * (3 # 10) -> h' = h)
    /\ healthBarVisible (vital d') = Some (Qlt_bool h' (mh * (9 # 10)))
    /\ (forall r, r <> dwarf -> heap s' !! r = heap s !! r)
    /\ dwarfs s' = dwarfs s.
Proof.
  intros Hd Hh Hmh Hheal.
  pose proof (run_handleHealthUpdate config dwarf s d h mh Hd Hh Hmh) as H.
  apply run_never in H
    as ([] & s' & Hrun & d' & h' & Hheap & Hpop & _ & Hh' & Hcase & Hbar & _).
  exists s', d', h'. rewrite Hheap, lookup_insert_eq.
  split_and!; try done.
  - destruct Hcase as [-> | (-> & H1 & H2 & H3)]; [apply Qle_refl|].
    apply Q.min_glb; [by apply Qlt_le_weak | lra].
  - intros Hle. destruct Hcase as [-> | (-> & _)]; [done | apply Q.le_min_l].
  - intros Hc. destruct Hcase as [-> | (_ & _ & _ & H3)]; [done | congruence].
  - intros Hlow. destruct Hcase as [-> | (_ & _ & H2 & _)]; [done|].
    by apply Qlt_not_le in H2.
  - intros r Hr. by rewrite lookup_insert_ne.
Qed.

(** X4: aging never raises the health of a dwarf and never leaves a changed
    efficiency below 0.3; before 70% of its lifespan the dwarf is left as
    it is; no other object changes. *)
Theorem handleAging_wears_down (config : LifespanConfig.t) (dwarf : ref)
    (s : @State Obs) (d : Dwarf) (a lifespan' h : Q) :
  heap s !! dwarf = Some d ->
  age (vital d) = Some a -> maxLifespan (vital d) = Some lifespan' ->
  ~ lifespan' == 0 -> health (vital d) = Some h ->
  0 <= LifespanConfig.agingDamage config ->
  exists s' d' h',
    handleAging config dwarf s = Ok tt s'
    /\ heap s' !! dwarf = Some d' /\ health (vital d') = Some h' /\ h' <= h
    /\ (a / lifespan' < (7 # 10) -> s' = s)
    /\ (forall e', efficiency d' = Some e' ->
          efficiency d = Some e' \/ (3 # 10) <= e')
    /\ (forall r, r <> dwarf -> heap s' !! r = heap s !! r)
    /\ dwarfs s' = dwarfs s.
Proof.
  intros Hd Ha HL HL0 Hh Hdmg.
  cut (run (handleAging config dwarf) s
    (fun _ s' => exists d' h',
       heap s' !! dwarf = Some d' /\ health (vital d') = Some h' /\ h' <= h
       /\ (a / lifespan' < (7 # 10) -> s' = s)
       /\ (forall e', efficiency d' = Some e' ->
             efficiency d = Some e' \/ (3 # 10) <= e')
       /\ (forall r, r <> dwarf -> heap s' !! r = heap s !! r)
       /\ dwarfs s' = dwarfs s) never).
  { intros H. apply run_never in H as ([] & s' & Hrun & d' & h' & H).
    by exists s', d', h'. }
  unfold handleAging. tstep Hd. tstep Hd. rewrite Ha, HL.
  tstep Hd. apply run_divide; intros E.
  { apply Qeq_bool_iff in E. contradiction. }
  destruct (Qle_bool (7 # 10) (a / lifespan')) eqn:Hold.
  - apply Qle_bool_iff in Hold. rewrite Hh.
    assert (h - LifespanConfig.agingDamage config
                * ((a / lifespan' - (7 # 10)) / (3 # 10)) <= h) as Hless.
    { assert (0 <= (a / lifespan' - (7 # 10)) / (3 # 10)) as Hf.
      { unfold Qdiv at 1. change (/ (3 # 10)) with (10 # 3). lra. }
      pose proof (Qmult_le_0_compat _ _ Hdmg Hf). lra. }
    tstep Hd. tstep Hd. apply run_when; [intros He | intros _].
    + tstep Hd. eexists _, _. split; [heap_lookup Hd|]. cbn.
      split_and!; [done | done | intros Hy; by apply Qlt_not_le in Hy | |
                   intros r Hr; by rewrite !lookup_alter_ne | done].
      intros e'. destruct (efficiency d) as [e|]; [|done]. cbn.
      intros [= <-]. right. apply Q.le_max_l.
    + eexists _, _. split; [heap_lookup Hd|]. cbn.
      split_and!; [done | done | intros Hy; by apply Qlt_not_le in Hy | |
                   intros r Hr; by rewrite !lookup_alter_ne | done].
      intros e' ->. by left.
  - tstep Hd. exists d, h. split_and!; try done; [apply Qle_refl | by left].
Qed.

(** ** Skulls *)

#[local] Instance Qlt_bool_proper : Proper (Qeq ==> Qeq ==> eq) Qlt_bool.
Proof. intros a a' Ha b b' Hb. unfold Qlt_bool. by rewrite Ha, Hb. Qed.

#[local] Instance same_skull_equiv : Equivalence same_skull.
Proof.
  split.
  - intros k. by unfold same_skull; split_and!.
  - intros k k' (? & ? & ? & ? & ? & ?). by unfold same_skull; split_and!.
  - intros k1 k2 k3 (? & ? & ? & H4 & ? & H6) (? & ? & ? & H4' & ? & H6').
    unfold same_skull; split_and!; try congruence; by etrans.
Qed.

Lemma mapM_tick_skull (ks : list Skull) (s : @State Obs) :
  Forall (fun k => ~ skull_maxAge k == 0) ks ->
  mapM tick_skull ks s = Ok (map (aged_by 1) ks) s.
Proof.
  induction 1 as [|k ks Hk _ IH]; [done|].
  cbn [mapM map]. unfold bind at 1. rewrite IH.
  unfold bind, tick_skull, divide, bind.
  destruct (Qeq_bool (skull_maxAge k) 0) eqn:E; [|done].
  apply Qeq_bool_iff in E. contradiction.
Qed.

Lemma alive_lasts (l : list Skull) :
  List.filter (fun k => Qlt_bool (skull_age k) (skull_maxAge k)) l
  = List.filter (lasts 0) l.
Proof.
  apply filter_ext. intros k. unfold lasts. apply Qlt_bool_proper; [|done].
  change (inject_Z (Z.of_nat 0)) with 0. ring.
Qed.

Lemma updateSkulls_step (s : @State Obs) :
  Forall (fun k => ~ skull_maxAge k == 0) (skulls (lifespan s)) ->
  updateSkulls s
  = Ok tt (set_lifespan
             (with_skulls (fun _ =>
                List.filter (lasts 0) (map (aged_by 1) (skulls (lifespan s))))
                (lifespan s)) s).
Proof.
  intros Hks. unfold updateSkulls, bind at 1, gets, bind at 1.
  rewrite (mapM_tick_skull _ _ Hks). unfold system, modify, with_skulls.
  by rewrite alive_lasts.
Qed.

Lemma inject_succ (m : nat) :
  inject_Z (Z.of_nat (S m)) == inject_Z (Z.of_nat m) + 1.
Proof. by rewrite Nat2Z.inj_succ, <- Z.add_1_r, inject_Z_plus. Qed.

Lemma lasts_succ (n : nat) (k : Skull) : lasts (S n) k = true -> lasts n k = true.
Proof.
  unfold lasts. intros H. apply Qlt_bool_true in H. apply Qlt_bool_true.
  rewrite inject_succ in H. lra.
Qed.

Lemma lasts_aged (m : nat) (k : Skull) : lasts m (aged_by 1 k) = lasts (S m) k.
Proof.
  unfold lasts, aged_by. cbn [skull_age skull_maxAge]. apply Qlt_bool_proper; [|done].
  change (inject_Z (Z.of_nat 1)) with 1. rewrite inject_succ. ring.
Qed.

Lemma aged_aged (m : nat) (k : Skull) :
  same_skull (aged_by m (aged_by 1 k)) (aged_by (S m) k).
Proof.
  assert (skull_age k + inject_Z (Z.of_nat 1) + inject_Z (Z.of_nat m)
          == skull_age k + inject_Z (Z.of_nat (S m))) as E.
  { change (inject_Z (Z.of_nat 1)) with 1. rewrite inject_succ. ring. }
  unfold same_skull, aged_by. cbn. split_and!; try done. by rewrite E.
Qed.

(** The skulls that one update leaves, [m] updates later. *)
Lemma skulls_later (m : nat) (ks : list Skull) :
  Forall2 same_skull
    (map (aged_by m)
       (List.filter (lasts m) (List.filter (lasts 0) (map (aged_by 1) ks))))
    (map (aged_by (S m)) (List.filter (lasts (S m)) ks)).
Proof.
  induction ks as [|k ks IH]; [constructor|].
  cbn [map List.filter]. rewrite (lasts_aged 0 k).
  destruct (lasts (S m) k) eqn:Hm.
  - assert (lasts 1 k = true) as ->.
    { clear -Hm. induction m as [|m IH]; [done|]. by apply IH, lasts_succ. }
    cbn [List.filter]. rewrite lasts_aged, Hm. cbn [map].
    constructor; [apply aged_aged | exact IH].
  - destruct (lasts 1 k); [|exact IH].
    cbn [List.filter]. rewrite lasts_aged, Hm. exact IH.
Qed.

Lemma skulls_first (ks : list Skull) :
  Forall2 same_skull
    (List.filter (lasts 0) (map (aged_by 1) ks))
    (map (aged_by 1) (List.filter (lasts 1) ks)).
Proof.
  induction ks as [|k ks IH]; [constructor|].
  cbn [map List.filter]. rewrite (lasts_aged 0 k).
  destruct (lasts 1 k); [|exact IH]. cbn [map]. by constructor.
Qed.

Lemma skulls_maxAge_kept (ks : list Skull) :
  Forall (fun k => ~ skull_maxAge k == 0) ks ->
  Forall (fun k => ~ skull_maxAge k == 0)
    (List.filter (lasts 0) (map (aged_by 1) ks)).
Proof.
  intros H. apply List.Forall_forall. intros k Hk.
  apply filter_In in Hk as [Hk _].
  apply in_map_iff in Hk as (k0 & <- & Hk0).
  rewrite List.Forall_forall in H. exact (H k0 Hk0).
Qed.

(** X6: after [n + 1] updates the skulls left are exactly those whose age
    plus [n + 1] is still below their maximum age, in their order, each
    older by [n + 1], with the opacity [max(0, 1 - age / maxAge)]; no
    dwarf and nothing else of the system changes. *)
Theorem updateSkulls_fades_and_removes (n : nat) (s : @State Obs) :
  Forall (fun k => ~ skull_maxAge k == 0) (skulls (lifespan s)) ->
  exists s',
    ticks (S n) updateSkulls s = Ok tt s'
    /\ Forall2 same_skull (skulls (lifespan s'))
         (map (aged_by (S n)) (List.filter (lasts (S n)) (skulls (lifespan s))))
    /\ heap s' = heap s /\ dwarfs s' = dwarfs s
    /\ stats (lifespan s') = stats (lifespan s)
    /\ combatEffects (lifespan s') = combatEffects (lifespan s)
    /\ deathEffects (lifespan s') = deathEffects (lifespan s).
Proof.
  revert s. induction n as [|n IH]; intros s Hks.
  - cbn [ticks]. unfold bind. rewrite (updateSkulls_step s Hks). cbn [ret].
    eexists. split; [reflexivity|]. cbn. split_and!; try done.
    apply skulls_first.
  - cbn [ticks]. unfold bind at 1. rewrite (updateSkulls_step s Hks).
    destruct (IH (set_lifespan
             (with_skulls (fun _ =>
                List.filter (lasts 0) (map (aged_by 1) (skulls (lifespan s))))
                (lifespan s)) s)) as (s' & Hrun & Hsk & Hrest).
    { cbn. by apply skulls_maxAge_kept. }
    change (bind updateSkulls (fun _ => ticks n updateSkulls))
      with (ticks (S n) (@updateSkulls Obs)).
    exists s'. split; [exact Hrun|]. split; [|exact Hrest].
    etrans; [exact Hsk|]. cbn [lifespan set_lifespan skulls with_skulls].
    apply skulls_later.
Qed.
(** ** What a tick of the aging and combat engine keeps *)

Lemma preserves_mapM (R : relation (@State Obs)) `{!PreOrder R} {A B}
    (f : A -> M B) (l : list A) :
  (forall a, preserves R (f a)) -> preserves R (mapM f l).
Proof.
  intros H. induction l as [|a l IH]; cbn [mapM].
  - by apply preserves_ret.
  - apply preserves_bind; [done | done |]. intros rest.
    apply preserves_bind; [done | auto |]. intros b. by apply preserves_ret.
Qed.

Lemma preserves_addLog (R : relation (@State Obs)) message important type :
  (forall s g c, R s (set_console c (set_gameLog g s))) ->
  preserves R (addLog message important type).
Proof. intros H s. apply run_addLog; intros; apply H. Qed.

#[local] Instance deaths_accounted_preorder : PreOrder (@deaths_accounted Obs).
Proof.
  split.
  - intros s. unfold deaths_accounted. cbn zeta. lia.
  - intros s1 s2 s3. unfold deaths_accounted. cbn zeta. lia.
Qed.

#[local] Instance vitality_only_preorder : PreOrder (@vitality_only Obs).
Proof.
  split.
  - intros s. unfold vitality_only. split_and!; try done.
    intros r d Hd. exists d. by split_and!.
  - intros s1 s2 s3 (H1 & H2 & H3 & H4 & H5 & H6) (H1' & H2' & H3' & H4' & H5' & H6').
    unfold vitality_only. split_and!; try congruence; [auto|].
    intros r d Hd.
    destruct (H6 r d Hd) as (d2 & Hd2 & ? & ? & ? & ? & ? & ? & ? & ? & ? & ?).
    destruct (H6' r d2 Hd2) as (d3 & Hd3 & ? & ? & ? & ? & ? & ? & ? & ? & ? & ?).
    exists d3. split_and!; try congruence. auto.
Qed.

Lemma vitality_only_assign r (f : Dwarf -> Dwarf) (s : @State Obs) :
  (forall d,
     name (f d) = name d /\ gender (f d) = gender d /\ isAdult (f d) = isAdult d
     /\ personality (f d) = personality d /\ walkSpeed (f d) = walkSpeed d
     /\ repro (f d) = repro d
     /\ maxLifespan (vital (f d)) = maxLifespan (vital d)
     /\ maxHealth (vital (f d)) = maxHealth (vital d)
     /\ combatStats (vital (f d)) = combatStats (vital d)
     /\ (isDead (vital d) = Some true -> isDead (vital (f d)) = Some true)) ->
  vitality_only s (set_heap (alter f r (heap s)) s).
Proof.
  intros Hf. unfold vitality_only. cbn [heap set_heap dwarfs bus obs pregnantFemales].
  split_and!; try done.
  - intros r' Hr'. destruct (decide (r = r')) as [<-|Hne].
    + by rewrite lookup_alter_eq, Hr'.
    + by rewrite lookup_alter_ne.
  - intros r' d Hd. destruct (decide (r = r')) as [<-|Hne].
    + exists (f d). rewrite lookup_alter_eq, Hd. split; [done|]. apply Hf.
    + exists d. rewrite lookup_alter_ne by done. by split_and!.
Qed.

Lemma vitality_only_frame (s s' : @State Obs) :
  heap s' = heap s -> dwarfs s' = dwarfs s -> bus s' = bus s -> obs s' = obs s ->
  pregnantFemales s' = pregnantFemales s -> vitality_only s s'.
Proof.
  intros Hh Hp Hb Ho Hf. unfold vitality_only. rewrite Hh.
  split_and!; try done. intros r d Hd. exists d. by split_and!.
Qed.

(** One step of a computation of the engine, for either relation. *)
Ltac ustep :=
  cbn beta;
  lazymatch goal with
  | |- preserves vitality_only (assign _ _) =>
      let s := fresh "s" in
      intros s; apply vitality_only_assign;
      let d := fresh "d" in
      intros d; destruct d as [? ? ? ? ? ? ? ? ? ? ? []];
      cbn; split_and!; try done
  | |- preserves vitality_only (modify _) =>
      apply preserves_modify; preorder;
      let s := fresh "s" in intros s; by apply vitality_only_frame
  | |- preserves vitality_only (system _) =>
      apply preserves_modify; preorder;
      let s := fresh "s" in intros s; by apply vitality_only_frame
  | |- preserves vitality_only (console_write _) =>
      apply preserves_modify; preorder;
      let s := fresh "s" in intros s; by apply vitality_only_frame
  | |- preserves vitality_only Math_random =>
      let s := fresh "s" in intros s; by apply vitality_only_frame
  | |- preserves vitality_only (addLog _ _ _) =>
      apply preserves_addLog; intros; by apply vitality_only_frame
  | |- preserves deaths_accounted (assign _ _) =>
      let s := fresh "s" in
      intros s; unfold run, assign, modify, deaths_accounted; cbn; lia
  | |- preserves deaths_accounted (modify _) =>
      let s := fresh "s" in
      intros s; unfold run, modify, deaths_accounted; cbn; lia
  | |- preserves deaths_accounted (console_write _) =>
      let s := fresh "s" in
      intros s; unfold run, console_write, modify, deaths_accounted; cbn; lia
  | |- preserves deaths_accounted (system _) =>
      let s := fresh "s" in
      intros s; unfold run, system, modify, deaths_accounted; cbn;
      repeat case_match; lia
  | |- preserves deaths_accounted Math_random =>
      let s := fresh "s" in
      intros s; unfold run, Math_random, deaths_accounted; cbn; lia
  | |- preserves deaths_accounted (addLog _ _ _) =>
      apply preserves_addLog; intros; unfold deaths_accounted; cbn; lia
  | |- preserves _ (mapM _ _) => apply preserves_mapM; preorder; intros ?
  | |- preserves _ (combatStats_of _) => unfold combatStats_of
  | _ => pstep
  end.

Ltac unfold_engine :=
  unfold update, updateDwarf, handleAging, handleHealthUpdate, updateDamageNumbers,
    handleCombatBehavior, potentialTargets, getNearbyDwarfs, calculateDistance,
    shouldEngageInCombat, performAttack, addDamageNumber, addCombatEffect,
    moveTowardsTarget, handleDeath, createSkull, addDeathEffect,
    clear_combat_state, updateSkulls, tick_skull, updateEffects.

Lemma preserves_vitality_update config l :
  preserves (@vitality_only Obs) (update Math_sqrt config l).
Proof. unfold_engine. repeat ustep. Qed.

Lemma preserves_deaths_update config l :
  preserves (@deaths_accounted Obs) (update Math_sqrt config l).
Proof. unfold_engine. repeat ustep. Qed.

(** X7: a tick of the aging and combat engine, however it ends, changes
    only vitality, position, movement target and efficiency of dwarfs: it
    leaves the population list, the event bus and its subscribers, the set
    of objects and, of every object, the name, the gender, the adulthood,
    the personality, the reproductive state, the lifespan, the maximum
    health and the combat statistics as they were, and a dead dwarf
    dead. *)
Theorem update_changes_vitality_only (config : LifespanConfig.t) (l : list ref)
    (s : @State Obs) :
  vitality_only s (state_of (update Math_sqrt config l s)).
Proof.
  pose proof (preserves_vitality_update config l s) as H. unfold run in H.
  by destruct (update Math_sqrt config l s).
Qed.

(** X8: through a tick of the engine, however it ends, no death or combat
    counter goes down, and the deaths counted are the deaths by age plus
    the deaths in combat counted. *)
Theorem update_accounts_deaths (config : LifespanConfig.t) (l : list ref)
    (s : @State Obs) :
  deaths_accounted s (state_of (update Math_sqrt config l s)).
Proof.
  pose proof (preserves_deaths_update config l s) as H. unfold run in H.
  by destruct (update Math_sqrt config l s).
Qed.

(** X9: the tick of the engine reads neither [maxLifespan], [minLifespan],
    [agingStartAge] nor [maxHealth] of its configuration: with any other
    values for them it does the same (aging starts at 70% of the dwarf's
    own lifespan, whatever [agingStartAge] says). *)
Theorem update_ignores_lifespan_settings (config : LifespanConfig.t)
    (maxLifespan' minLifespan' agingStartAge' maxHealth' : Q) (l : list ref) :
  @update Obs Math_sqrt
    (with_lifespan_settings maxLifespan' minLifespan' agingStartAge' maxHealth' config) l
  = update Math_sqrt config l.
Proof. by destruct config. Qed.
(** ** Attacks *)

Lemma run_performAttack_exact config attacker target (s : @State Obs) a t sa st h :
  heap s !! attacker = Some a -> heap s !! target = Some t -> attacker <> target ->
  num_gt (attackCooldown (vital a)) 0 = false ->
  combatStats (vital a) = Some sa -> combatStats (vital t) = Some st ->
  health (vital t) = Some h ->
  Qeq_bool (defense st) 0 = false -> Qeq_bool (speed sa) 0 = false ->
  run (performAttack config attacker target) s
    (fun _ s' => exists a' t',
       heap s' !! attacker = Some a' /\ heap s' !! target = Some t'
       /\ health (vital t')
          = Some (h - inject_Z (attack_damage config sa st (random s (draws s))
                                  (random s (S (draws s)))))
       /\ health (vital a') = health (vital a)
       /\ attackCooldown (vital a')
          = Some (LifespanConfig.attackCooldown config / speed sa)
       /\ (forall r, r <> attacker -> r <> target -> heap s' !! r = heap s !! r)
       /\ dwarfs s' = dwarfs s) never.
Proof.
  intros Ha Ht Hne Hcd Hsa Hst Hh Hdef Hspeed.
  destruct s as [h0 pop rnd n clk con glog b o ls pf tm]. cbn [heap] in Ha, Ht.
  unfold performAttack, combatStats_of, addDamageNumber, addCombatEffect.
  tstep2 Ha Ht. tstep2 Ha Ht. rewrite Hcd.
  tstep2 Ha Ht. tstep2 Ha Ht. tstep2 Ha Ht. rewrite Hsa. tstep2 Ha Ht.
  tstep2 Ha Ht. tstep2 Ha Ht. tstep2 Ha Ht. rewrite Hst. tstep2 Ha Ht.
  tstep2 Ha Ht. tstep2 Ha Ht; [congruence|].
  tstep2 Ha Ht. tstep2 Ha Ht. rewrite Hh.
  set (dmg := Math_floor _).
  assert (attack_damage config sa st (rnd n) (rnd (S n)) = dmg) as Hdmg by reflexivity.
  cbn [random draws]. rewrite Hdmg. clearbody dmg. clear Hdmg.
  repeat (tstep2 Ha Ht); try (exfalso; congruence);
  (eexists; eexists;
   split; [lookup2 Ha Ht|]; split; [lookup2 Ha Ht|];
   cbn; split_and!; try done;
   intros r Hr1 Hr2; by rewrite !lookup_alter_ne).
Qed.

Lemma attack_damage_bounds config sa st (r r' : Q) :
  0 <= r -> r <= 1 ->
  0 <= LifespanConfig.baseDamage config -> 0 <= LifespanConfig.damageVariance config ->
  1 <= LifespanConfig.criticalMultiplier config ->
  0 <= attack sa -> 0 < defense st ->
  (Math_floor (LifespanConfig.baseDamage config * attack sa / defense st)
   <= attack_damage config sa st r r')%Z
  /\ inject_Z (attack_damage config sa st r r')
     <= (LifespanConfig.baseDamage config + LifespanConfig.damageVariance config)
        * attack sa / defense st * LifespanConfig.criticalMultiplier config.
Proof.
  intros Hr0 Hr1 Hb Hv Hm Ha Hd. unfold attack_damage. cbn zeta.
  set (b := LifespanConfig.baseDamage config) in *.
  set (v := LifespanConfig.damageVariance config) in *.
  set (m := LifespanConfig.criticalMultiplier config) in *.
  assert (0 <= r * v) as Hrv0 by (by apply Qmult_le_0_compat).
  assert (r * v <= v) as Hrv1.
  { rewrite <- (Qmult_1_l v) at 2. by apply Qmult_le_compat_r. }
  assert (b * attack sa / defense st <= (b + r * v) * attack sa / defense st) as Hlow.
  { apply Qdiv_le_mono; [done|]. apply Qmult_le_compat_r; [lra | done]. }
  assert ((b + r * v) * attack sa / defense st <= (b + v) * attack sa / defense st)
    as Hhigh.
  { apply Qdiv_le_mono; [done|]. apply Qmult_le_compat_r; [lra | done]. }
  assert (0 <= b * attack sa / defense st) as H0.
  { apply Qle_shift_div_l; [done|]. rewrite Qmult_0_l. by apply Qmult_le_0_compat. }
  set (lo := b * attack sa / defense st) in *.
  set (d := (b + r * v) * attack sa / defense st) in *.
  set (hi := (b + v) * attack sa / defense st) in *.
  assert (d <= d * m) as Hdm.
  { rewrite <- (Qmult_1_r d) at 1. rewrite !(Qmult_comm d).
    apply Qmult_le_compat_r; [done | lra]. }
  assert (d * m <= hi * m) as Hhm.
  { apply Qmult_le_compat_r; [done | lra]. }
  assert (hi <= hi * m) as Hhi.
  { rewrite <- (Qmult_1_r hi) at 1. rewrite !(Qmult_comm hi).
    apply Qmult_le_compat_r; [done | lra]. }
  destruct (Qlt_bool r' _).
  - split.
    + apply Qfloor_resp_le. lra.
    + pose proof (Qfloor_le (d * m)). unfold Math_floor. lra.
  - split.
    + by apply Qfloor_resp_le.
    + pose proof (Qfloor_le d). unfold Math_floor. lra.
Qed.

(** X10: an attack of a dwarf whose cooldown has run out, with random
    numbers between 0 and 1, a base damage and a variance that are not
    negative and a critical multiplier of at least one, takes from the
    target at least the rounded-down base damage scaled by attack over
    defense, and at most base damage plus variance, scaled, times the
    critical multiplier; so it never heals the target; the attacker's own
    health and every third dwarf are left as they are. *)
Theorem performAttack_damage_within_bounds (config : LifespanConfig.t)
    (attacker target : ref) (s : @State Obs) (a t : Dwarf) (sa st : CombatStats)
    (h : Q) :
  heap s !! attacker = Some a -> heap s !! target = Some t -> attacker <> target ->
  num_gt (attackCooldown (vital a)) 0 = false ->
  combatStats (vital a) = Some sa -> combatStats (vital t) = Some st ->
  health (vital t) = Some h ->
  0 <= attack sa -> 0 < defense st -> ~ speed sa == 0 ->
  0 <= random s (draws s) -> random s (draws s) <= 1 ->
  0 <= LifespanConfig.baseDamage config -> 0 <= LifespanConfig.damageVariance config ->
  1 <= LifespanConfig.criticalMultiplier config ->
  exists s' a' t' (damage : Z),
    performAttack config attacker target s = Ok tt s'
    /\ heap s' !! attacker = Some a' /\ heap s' !! target = Some t'
    /\ health (vital t') = Some (h - inject_Z damage)
    /\ (0 <= Math_floor (LifespanConfig.baseDamage config * attack sa / defense st)
        <= damage)%Z
    /\ inject_Z damage
       <= (LifespanConfig.baseDamage config + LifespanConfig.damageVariance config)
          * attack sa / defense st * LifespanConfig.criticalMultiplier config
    /\ health (vital a') = health (vital a)
    /\ (forall r, r <> attacker -> r <> target -> heap s' !! r = heap s !! r).
Proof.
  intros Ha Ht Hne Hcd Hsa Hst Hh Hatk Hdef Hspeed Hr0 Hr1 Hb Hv Hm.
  pose proof (run_performAttack_exact config attacker target s a t sa st h
                Ha Ht Hne Hcd Hsa Hst Hh) as H.
  destruct (Qeq_bool (defense st) 0) eqn:E1.
  { apply Qeq_bool_iff in E1. rewrite E1 in Hdef. by apply Qlt_irrefl in Hdef. }
  destruct (Qeq_bool (speed sa) 0) eqn:E2.
  { apply Qeq_bool_iff in E2. contradiction. }
  specialize (H eq_refl eq_refl).
  apply run_never in H
    as ([] & s' & Hrun & a' & t' & Ha' & Ht' & Hh' & Hown & _ & Hrest & _).
  destruct (attack_damage_bounds config sa st (random s (draws s))
              (random s (S (draws s))) Hr0 Hr1 Hb Hv Hm Hatk Hdef) as [Hlo Hhi].
  exists s', a', t',
    (attack_damage config sa st (random s (draws s)) (random s (S (draws s)))).
  split_and!; try done.
  change 0%Z with (Math_floor 0). apply Qfloor_resp_le.
  apply Qle_shift_div_l; [done|]. rewrite Qmult_0_l. by apply Qmult_le_0_compat.
Qed.

(** X11: after an attack the attacker has a cooldown of the configured
    attack cooldown over its speed; when that is above zero, a second
    attack of the same dwarf at once, on whatever target, does nothing. *)
Theorem performAttack_respects_cooldown (config : LifespanConfig.t)
    (attacker target : ref) (s : @State Obs) (a t : Dwarf) (sa st : CombatStats)
    (h : Q) :
  heap s !! attacker = Some a -> heap s !! target = Some t -> attacker <> target ->
  num_gt (attackCooldown (vital a)) 0 = false ->
  combatStats (vital a) = Some sa -> combatStats (vital t) = Some st ->
  health (vital t) = Some h ->
  ~ defense st == 0 -> 0 < speed sa -> 0 < LifespanConfig.attackCooldown config ->
  exists s' a',
    performAttack config attacker target s = Ok tt s'
    /\ heap s' !! attacker = Some a'
    /\ attackCooldown (vital a')
       = Some (LifespanConfig.attackCooldown config / speed sa)
    /\ forall other, performAttack config attacker other s' = Ok tt s'.
Proof.
  intros Ha Ht Hne Hcd Hsa Hst Hh Hdef Hspeed Hcool.
  pose proof (run_performAttack_exact config attacker target s a t sa st h
                Ha Ht Hne Hcd Hsa Hst Hh) as H.
  destruct (Qeq_bool (defense st) 0) eqn:E1.
  { apply Qeq_bool_iff in E1. contradiction. }
  destruct (Qeq_bool (speed sa) 0) eqn:E2.
  { apply Qeq_bool_iff in E2. rewrite E2 in Hspeed. by apply Qlt_irrefl in Hspeed. }
  specialize (H eq_refl eq_refl).
  apply run_never in H
    as ([] & s' & Hrun & a' & t' & Ha' & Ht' & _ & _ & Hcd' & _).
  exists s', a'. split_and!; try done.
  intros other. unfold performAttack, bind at 1, read. rewrite Ha', Hcd'.
  assert (num_gt (Some (LifespanConfig.attackCooldown config / speed sa)) 0 = true)
    as ->; [|done].
  unfold num_gt. apply Qlt_bool_true. apply Qlt_shift_div_l; [done|]. by rewrite Qmult_0_l.
Qed.

(** ** The choice of a combat target *)

(** A filter with effects keeps the order of its list. *)
Lemma run_filterM_sublist {A} (keep : A -> @M Obs bool) (l : list A) (s : @State Obs) :
  run (filterM keep l) s (fun l' _ => sublist l' l) anyhow.
Proof.
  revert s. induction l as [|a l IH]; intros s; cbn [filterM].
  - apply run_ret. constructor.
  - apply run_bind. eapply run_weaken; [apply run_anyhow | | done].
    intros b s1 _. cbn beta. apply run_bind.
    eapply run_weaken; [apply IH | | done].
    intros rest s2 Hrest. cbn beta. apply run_ret. destruct b; by constructor.
Qed.

(** The candidates stand in the order of the population. *)
Lemma run_potentialTargets_in_order config dwarf (s : @State Obs) :
  run (potentialTargets Math_sqrt config dwarf) s
    (fun l _ => sublist l (default [] (dwarfs s))) anyhow.
Proof.
  unfold potentialTargets, getNearbyDwarfs, getAllDwarfs. mstep. mstep. mstep.
  eapply run_weaken; [apply run_filterM_sublist | | done].
  intros nearby s1 Hnearby. cbn beta.
  eapply run_weaken; [apply run_filterM_sublist | | done].
  intros l s2 Hl. cbn beta. by transitivity nearby.
Qed.

(** C6, as the code has it: the dwarf engages the head of the candidates,
    which stand in the order of the population: every other candidate
    comes after the target in [game.dwarfs], and no distance ranks them.
    Within the attack range the attack is resolved at once, on this target
    and on no other dwarf, however near another candidate stands; out of
    range the dwarf steps toward the target only when it is already its
    combat target, and otherwise stays where it is. *)
Theorem handleCombatBehavior_engages_first_eligible (config : LifespanConfig.t)
    (dwarf target : ref) (rest : list ref) (s s1 : @State Obs) (d : Dwarf)
    (sd : CombatStats) :
  heap s !! dwarf = Some d -> isAdult d = true ->
  num_gt (attackCooldown (vital d)) 0 = false ->
  combatStats (vital d) = Some sd -> Qeq_bool (speed sd) 0 = false ->
  potentialTargets Math_sqrt config dwarf s = Ok (target :: rest) s1 ->
  (exists before after,
     default [] (dwarfs s) = before ++ target :: after /\ sublist rest after)
  /\ Forall (eligible_near Math_sqrt s dwarf (LifespanConfig.attackRange config * 2))
       (target :: rest)
  /\ exists t h,
       heap s !! target = Some t /\ health (vital t) = Some h
       /\ let distance :=
            Math_sqrt ((x d - x t) * (x d - x t) + (y d - y t) * (y d - y t)) in
          (distance <= LifespanConfig.attackRange config ->
           forall st, combatStats (vital t) = Some st ->
                      Qeq_bool (defense st) 0 = false ->
           exists s' dmg a' t',
             handleCombatBehavior Math_sqrt config dwarf s = Ok tt s'
             /\ heap s' !! dwarf = Some a' /\ heap s' !! target = Some t'
             /\ health (vital t') = Some (h - inject_Z dmg)
             /\ lastAttacker (vital t') = Obj dwarf
             /\ isInCombat (vital a') = Some true /\ isInCombat (vital t') = Some true
             /\ combatTarget (vital a') = Obj target
             /\ combatTarget (vital t') = Obj dwarf
             /\ totalCombats (stats (lifespan s'))
                = (totalCombats (stats (lifespan s)) + 1)%Z
             /\ x a' = x d /\ y a' = y d
             /\ (forall r, r <> dwarf -> r <> target -> heap s' !! r = heap s !! r))
          /\ (LifespanConfig.attackRange config < distance ->
              combatTarget (vital d) = Obj target ->
              exists s' d',
                handleCombatBehavior Math_sqrt config dwarf s = Ok tt s'
                /\ heap s' !! dwarf = Some d'
                /\ let dx := x t - x d in
                   let dy := y t - y d in
                   let toTarget := Math_sqrt (dx * dx + dy * dy) in
                   let moveSpeed :=
                     (if num_truthy (walkSpeed d) then default 1 (walkSpeed d) else 1)
                     * speed sd in
                   if Qlt_bool 0 toTarget then
                     x d' = x d + (dx / toTarget) * moveSpeed
                     /\ y d' = y d + (dy / toTarget) * moveSpeed
                     /\ targetX d' = Some (x t) /\ targetY d' = Some (y t)
                   else d' = d)
          /\ (LifespanConfig.attackRange config < distance ->
              combatTarget (vital d) <> Obj target ->
              handleCombatBehavior Math_sqrt config dwarf s = Ok tt s1
              /\ heap s1 = heap s).
Proof.
  intros Hd Hadult Hcd Hsd Hspeed Hpt.
  pose proof (run_ok _ _ _ _ _ _ (run_potentialTargets config dwarf s) Hpt)
    as [Hs1 Hall].
  pose proof (run_ok _ _ _ _ _ _ (run_potentialTargets_in_order config dwarf s) Hpt)
    as Horder.
  apply sublist_cons_l in Horder as (before & after & Hpop' & Hafter).
  split; [by exists before, after|]. split; [done|].
  pose proof Hall as Helig. apply Forall_cons in Helig as [Helig _].
  pose proof (only_draws_heap _ _ Hs1) as Hheap.
  destruct Helig as (Hpop & Hne & d0 & t & Hd0 & Ht & Hhealth & Hnear).
  assert (d0 = d) as -> by congruence.
  assert (dwarf <> target) as Hne' by congruence.
  destruct (health (vital t)) as [h|] eqn:Hh; [|done].
  exists t, h. split; [done|]. split; [done|]. cbn zeta.
  assert (forall k : Q -> @M Obs unit,
    handleCombatBehavior Math_sqrt config dwarf s
    = (if Qle_bool (Math_sqrt ((x d - x t) * (x d - x t) + (y d - y t) * (y d - y t)))
            (LifespanConfig.attackRange config)
       then performAttack config dwarf target s1
       else if points_to (combatTarget (vital d)) target
            then moveTowardsTarget Math_sqrt dwarf target s1
            else Ok tt s1)) as Hunfold.
  { intros _. unfold handleCombatBehavior, bind at 1, read at 1. rewrite Hd.
    rewrite Hadult, Hcd. cbn [negb orb]. unfold bind at 1. rewrite Hpt.
    unfold bind at 1, calculateDistance, bind at 1, read at 1.
    rewrite Hheap, Hd. unfold bind at 1, read at 1. rewrite Hheap, Ht.
    cbn [ret]. destruct (Qle_bool _ _); [done|].
    unfold bind at 1, read at 1. rewrite Hheap, Hd.
    by destruct (points_to _ _). }
  specialize (Hunfold (fun _ => ret tt)).
  split_and!.
  - intros Hle st Hst Hdef. apply Qle_bool_iff in Hle. rewrite Hunfold, Hle.
    pose proof (run_performAttack config dwarf target s1 d t sd st h) as Hrun.
    rewrite Hheap in Hrun. specialize (Hrun Hd Ht Hne' Hcd Hsd Hst Hh Hdef Hspeed).
    apply run_never in Hrun
      as ([] & s' & Hrun & dmg & a' & t' & Ha' & Ht' & H1 & H2 & H3 & H4 & H5 & H6
          & H7 & _ & H9 & H10 & _).
    pose proof (run_performAttack_exact config dwarf target s1 d t sd st h) as Hframe.
    rewrite Hheap in Hframe.
    specialize (Hframe Hd Ht Hne' Hcd Hsd Hst Hh Hdef Hspeed).
    apply run_never in Hframe
      as ([] & s'' & Hrun' & _ & _ & _ & _ & _ & _ & _ & Hothers & _).
    assert (s'' = s') as -> by congruence.
    exists s', dmg, a', t'.
    rewrite (only_draws_lifespan _ _ Hs1) in H7. by split_and!.
  - intros Hlt Hct. apply Qle_bool_false in Hlt. rewrite Hunfold, Hlt, Hct.
    cbn [points_to]. rewrite Nat.eqb_refl.
    pose proof (run_moveTowardsTarget dwarf target s1 d t sd) as Hrun.
    rewrite Hheap in Hrun. specialize (Hrun Hd Ht Hne' Hsd).
    apply run_never in Hrun as ([] & s' & Hrun & d' & Hd' & Hmoved).
    by exists s', d'.
  - intros Hlt Hct. apply Qle_bool_false in Hlt. rewrite Hunfold, Hlt.
    split; [|done].
    destruct (combatTarget (vital d)) as [| |r'] eqn:Hr; cbn [points_to]; try done.
    destruct (Nat.eqb r' target) eqn:Heq; [|done].
    apply Nat.eqb_eq in Heq. congruence.
Qed.
(** ** Subscriptions *)

Lemma insert_by_priority_perm (l : @Listener Obs) ls : insert_by_priority l ls ≡ₚ l :: ls.
Proof.
  induction ls as [|l' ls IH]; [done|]. cbn [insert_by_priority].
  destruct (Qle_bool (priority l') (priority l)); [done|].
  rewrite IH. apply Permutation_swap.
Qed.

Lemma sort_by_priority_perm (ls : list (@Listener Obs)) : sort_by_priority ls ≡ₚ ls.
Proof.
  induction ls as [|l ls IH]; [done|]. cbn [sort_by_priority].
  by rewrite insert_by_priority_perm, IH.
Qed.

Lemma insert_by_priority_descending (l : @Listener Obs) ls :
  descending ls -> descending (insert_by_priority l ls).
Proof.
  induction ls as [|l' ls IH]; intros Hls.
  - cbn. by split.
  - cbn [insert_by_priority]. destruct Hls as [Hall Hls].
    destruct (Qle_bool (priority l') (priority l)) eqn:E.
    + apply Qle_bool_iff in E. cbn [descending]. split_and!; try done.
      constructor; [done|]. eapply Forall_impl; [exact Hall|].
      intros l0 H0. cbn beta in *. by eapply Qle_trans.
    + apply Qle_bool_false in E. cbn [descending]. split; [|by apply IH].
      rewrite insert_by_priority_perm. constructor; [by apply Qlt_le_weak | done].
Qed.

Lemma sort_by_priority_descending (ls : list (@Listener Obs)) : descending (sort_by_priority ls).
Proof.
  induction ls as [|l ls IH]; [done|]. cbn [sort_by_priority].
  by apply insert_by_priority_descending.
Qed.

Lemma sort_by_priority_sorted (ls : list (@Listener Obs)) : descending ls -> sort_by_priority ls = ls.
Proof.
  induction ls as [|l ls IH]; [done|]. intros [Hall Hls].
  cbn [sort_by_priority]. rewrite IH by done.
  destruct ls as [|l' ls]; [done|]. cbn [insert_by_priority].
  apply Forall_cons in Hall as [Hl' _]. apply Qle_bool_iff in Hl'. by rewrite Hl'.
Qed.

(** Where a sorted list takes a listener that was pushed at its end. *)
Lemma sort_by_priority_snoc (ls : list (@Listener Obs)) l :
  descending ls ->
  exists before after,
    ls = before ++ after
    /\ sort_by_priority (ls ++ [l]) = before ++ l :: after
    /\ Forall (fun l' => priority l <= priority l') before
    /\ Forall (fun l' => priority l' < priority l) after.
Proof.
  induction ls as [|a ls IH]; intros Hls.
  - exists [], []. by split_and!.
  - destruct Hls as [Hall Hls].
    destruct (IH Hls) as (before & after & -> & Hsort & Hb & Ha).
    cbn [app sort_by_priority]. rewrite Hsort.
    destruct before as [|b before].
    + cbn [app insert_by_priority] in *.
      destruct (Qle_bool (priority l) (priority a)) eqn:E.
      * apply Qle_bool_iff in E. exists [a], after. split_and!; try done.
        by constructor.
      * apply Qle_bool_false in E. exists [], (a :: after).
        split_and!; try done; [|by constructor].
        cbn [app]. f_equal. destruct after as [|a' after]; [done|].
        cbn [insert_by_priority]. apply Forall_cons in Hall as [Ha' _].
        apply Qle_bool_iff in Ha'. by rewrite Ha'.
    + cbn [app insert_by_priority] in *. apply Forall_cons in Hall as [Hb' _].
      apply Qle_bool_iff in Hb'. rewrite Hb'.
      exists (a :: b :: before), after. split_and!; try done.
      constructor; [|done]. apply Forall_cons in Hb as [Hb _].
      apply Qle_bool_iff in Hb'. by eapply Qle_trans.
Qed.

(** X12: [subscribe] leaves the listeners of the event type sorted by
    falling priority, the old ones and the new one and no other; when the
    old ones were sorted, they keep their order and the new listener
    stands behind every listener of its priority or a higher one and
    before every listener of a lower one; the listeners of other event
    types stay. *)
Theorem subscribe_keeps_priority_order (eventType : string) (cb : Callback)
    (options : SubscribeOptions) (s : @State Obs) :
  let old := default [] (listeners (bus s) !! eventType) in
  let l := listener_of cb options in
  exists s' new,
    subscribe eventType cb options s = Ok tt s'
    /\ listeners (bus s') !! eventType = Some new
    /\ descending new
    /\ new ≡ₚ old ++ [l]
    /\ (descending old ->
        exists before after,
          old = before ++ after /\ new = before ++ l :: after
          /\ Forall (fun l' => priority l <= priority l') before
          /\ Forall (fun l' => priority l' < priority l) after)
    /\ (forall other, other <> eventType ->
          listeners (bus s') !! other = listeners (bus s) !! other)
    /\ eventHistory (bus s') = eventHistory (bus s) /\ heap s' = heap s.
Proof.
  intros old l. unfold subscribe, modify. fold l. fold old.
  eexists _, _. split; [reflexivity|].
  cbn [bus set_bus listeners with_listeners eventHistory heap set_heap].
  rewrite lookup_insert_eq. split; [reflexivity|].
  split_and!; try done.
  - apply sort_by_priority_descending.
  - apply sort_by_priority_perm.
  - intros Hold. destruct (sort_by_priority_snoc old l Hold)
      as (before & after & ? & ? & ? & ?). by exists before, after.
  - intros other Hne. by rewrite lookup_insert_ne.
Qed.

Lemma remove_first_fresh id before (l : @Listener Obs) after :
  Forall (fun l' => cb_id (callback l') <> id) before ->
  cb_id (callback l) = id ->
  remove_first id (before ++ l :: after) = before ++ after.
Proof.
  intros Hb Hl. induction Hb as [|b before Hb _ IH]; cbn [app remove_first].
  - rewrite Hl, Nat.eqb_refl. done.
  - apply Nat.eqb_neq in Hb. by rewrite Hb, IH.
Qed.

(** X13: subscribing a callback that no listener of the event type has yet,
    to a sorted list of listeners, and unsubscribing it at once leaves the
    whole state as it was. *)
Theorem subscribe_unsubscribe_restores (eventType : string) (cb : Callback)
    (options : SubscribeOptions) (s : @State Obs) :
  let old := default [] (listeners (bus s) !! eventType) in
  descending old ->
  Forall (fun l' => cb_id (callback l') <> cb_id cb) old ->
  listeners (bus s) !! eventType <> Some [] ->
  (subscribe eventType cb options ;; unsubscribe eventType cb) s = Ok tt s.
Proof.
  intros old Hold Hfresh Hnonempty.
  unfold bind, subscribe, unsubscribe, modify.
  cbv beta iota. fold (listener_of cb options).
  unfold with_listeners, set_bus.
  cbn [bus listeners eventHistory maxHistorySize debugMode]. fold old.
  rewrite lookup_insert_eq.
  destruct (sort_by_priority_snoc old (listener_of cb options) Hold)
    as (before & after & Hsplit & -> & _).
  rewrite Hsplit in Hfresh. apply Forall_app in Hfresh as [Hb Ha].
  rewrite (remove_first_fresh (cb_id cb) before (listener_of cb options) after Hb eq_refl).
  rewrite <- Hsplit.
  assert (match old with
          | [] => delete eventType
                    (<[eventType := before ++ listener_of cb options :: after]>
                       (listeners (bus s)))
          | _ :: _ => <[eventType := old]>
                    (<[eventType := before ++ listener_of cb options :: after]>
                       (listeners (bus s)))
          end = listeners (bus s)) as ->.
  { unfold old in *. destruct (listeners (bus s) !! eventType) as [[|l0 ls0]|] eqn:E;
      cbn [default].
    - done.
    - rewrite insert_insert_eq. by apply insert_id.
    - rewrite delete_insert_eq. by apply delete_id. }
  by destruct s as [? ? ? ? ? ? ? [] ? ? ? ?].
Qed.
(** ** Delivery: one-time listeners and the history *)

Lemma notify_once eventType ev (l : @Listener Obs) (s : @State Obs) K todo :
  listeners (bus s) !! eventType = Some (K ++ l :: todo) ->
  Forall (fun l' => cb_id (callback l') <> cb_id (callback l)) K ->
  exists s',
    notify eventType ev l s = Ok tt s'
    /\ listeners (bus s') !! eventType
       = listed (K ++ (if once l && negb (raises ev l (obs s)) then [] else [l]) ++ todo)
    /\ (forall other, other <> eventType ->
          listeners (bus s') !! other = listeners (bus s) !! other)
    /\ eventHistory (bus s') = eventHistory (bus s)
    /\ maxHistorySize (bus s') = maxHistorySize (bus s)
    /\ obs s' = after_call l ev (obs s)
    /\ heap s' = heap s /\ dwarfs s' = dwarfs s.
Proof.
  intros Hls HK.
  unfold notify, try_catch, bind, call_listener, raises, after_call.
  destruct (cb_run (callback l) ev (obs s)) as [o|o msg].
  - destruct (once l) eqn:Honce; cbn [when andb negb].
    + unfold unsubscribe, modify. eexists. split; [reflexivity|].
      unfold with_listeners, set_bus, set_obs.
      cbn [bus listeners eventHistory maxHistorySize obs heap dwarfs].
      rewrite Hls, (remove_first_fresh _ K l todo HK eq_refl). cbn [app].
      split_and!; try done.
      * destruct (K ++ todo) eqn:E; cbn [listed].
        -- by rewrite lookup_delete_eq.
        -- by rewrite lookup_insert_eq.
      * intros other Hne. destruct (K ++ todo).
        -- by rewrite lookup_delete_ne.
        -- by rewrite lookup_insert_ne.
    + eexists. split; [reflexivity|]. cbn. rewrite Hls.
      split_and!; try done. by destruct K.
  - cbn. eexists. split; [reflexivity|]. cbn. rewrite Hls, andb_false_r.
    split_and!; try done. by destruct K.
Qed.

Lemma forEach_notify eventType ev (todo : list (@Listener Obs)) :
  forall K (s : @State Obs),
    listeners (bus s) !! eventType = listed (K ++ todo) ->
    NoDup (map (fun l => cb_id (callback l)) (K ++ todo)) ->
    exists s',
      forEach todo (notify eventType ev) s = Ok tt s'
      /\ listeners (bus s') !! eventType = listed (K ++ kept ev todo (obs s))
      /\ (forall other, other <> eventType ->
            listeners (bus s') !! other = listeners (bus s) !! other)
      /\ eventHistory (bus s') = eventHistory (bus s)
      /\ maxHistorySize (bus s') = maxHistorySize (bus s)
      /\ heap s' = heap s /\ dwarfs s' = dwarfs s.
Proof.
  induction todo as [|l todo IH]; intros K s Hls Hnodup.
  - exists s. by split_and!.
  - cbn [forEach kept]. unfold bind.
    assert (listeners (bus s) !! eventType = Some (K ++ l :: todo)) as Hls'.
    { rewrite Hls. by destruct K. }
    assert (Forall (fun l' => cb_id (callback l') <> cb_id (callback l)) K) as HK.
    { rewrite map_app in Hnodup. apply NoDup_app in Hnodup as (_ & Hdisj & _).
      apply Forall_forall. intros l' Hl' Heq.
      apply (Hdisj (cb_id (callback l'))).
      - apply list_elem_of_fmap. by exists l'.
      - rewrite Heq. cbn [map]. left. }
    destruct (notify_once eventType ev l s K todo Hls' HK)
      as (s1 & -> & Hls1 & Hother1 & Hh1 & Hm1 & Ho1 & Hheap1 & Hpop1).
    set (here := if once l && negb (raises ev l (obs s)) then [] else [l]) in *.
    destruct (IH (K ++ here) s1) as (s' & Hrun & Hls2 & Hother2 & Hh2 & Hm2 & Hheap2 & Hpop2).
    { by rewrite <- app_assoc. }
    { rewrite <- app_assoc. unfold here.
      destruct (once l && negb (raises ev l (obs s))); cbn [app].
      - rewrite map_app in *. cbn [map] in Hnodup.
        apply NoDup_app in Hnodup as (H1 & H2 & H3).
        apply NoDup_cons in H3 as [_ H3].
        apply NoDup_app. split_and!; try done.
        intros i Hi Hi'. apply (H2 i Hi). by right.
      - done. }
    exists s'. rewrite Hrun. split; [done|].
    rewrite Hls2, Ho1, <- app_assoc.
    split_and!; try congruence.
    intros other Hne. by rewrite Hother2, Hother1.
Qed.

(** X14: a delivery to listeners with different callbacks unsubscribes the
    one-time listeners that returned, and only them: a one-time listener
    that raised stays subscribed, and so does every other listener, in the
    order they had; when no listener is left the event type has no entry;
    the listeners of other event types stay. *)
Theorem emit_drops_returned_once_listeners (eventType : string)
    (eventData : EventData) (s : @State Obs) (ls : list Listener) :
  listeners (bus s) !! eventType = Some ls -> ls <> [] ->
  NoDup (map (fun l => cb_id (callback l)) ls) ->
  let ev := {| ev_type := eventType; ev_timestamp := clock s; ev_data := eventData |} in
  exists s',
    emit eventType eventData s = Ok tt s'
    /\ listeners (bus s') !! eventType = listed (kept ev ls (obs s))
    /\ (forall other, other <> eventType ->
          listeners (bus s') !! other = listeners (bus s) !! other).
Proof.
  intros Hls Hne Hnodup ev.
  unfold emit, bind, Date_now, gets, _addToHistory, modify.
  cbn [bus set_bus debugMode with_history listeners].
  assert (forall s0 : @State Obs,
    listeners (bus s0) = listeners (bus s) -> obs s0 = obs s ->
    exists s',
      forEach ls (notify eventType ev) s0 = Ok tt s'
      /\ listeners (bus s') !! eventType = listed (kept ev ls (obs s))
      /\ (forall other, other <> eventType ->
            listeners (bus s') !! other = listeners (bus s) !! other)) as Hloop.
  { intros s0 Hsame Hobs.
    destruct (forEach_notify eventType ev ls [] s0) as (s' & Hrun & H1 & H2 & _).
    - cbn [app]. rewrite Hsame, Hls. by destruct ls.
    - done.
    - exists s'. rewrite Hrun, H1, Hobs. split_and!; try done.
      intros other Ho. by rewrite H2, Hsame. }
  destruct (debugMode (bus s));
    cbn [when console_write modify ret bus set_bus set_console listeners with_history];
    rewrite Hls; by apply Hloop.
Qed.

(** X15: [emit] puts the event at the end of the history and, when that
    makes the history longer than [maxHistorySize], drops the oldest
    entry: a history within the bound stays within it, and the listeners
    cannot change the history. *)
Theorem emit_records_within_bound (eventType : string) (eventData : EventData)
    (s : @State Obs) :
  let ev := {| ev_type := eventType; ev_timestamp := clock s; ev_data := eventData |} in
  let h := eventHistory (bus s) in
  let size := maxHistorySize (bus s) in
  exists s',
    emit eventType eventData s = Ok tt s'
    /\ eventHistory (bus s') = recorded size h ev
    /\ maxHistorySize (bus s') = size
    /\ (length h <= size -> length (eventHistory (bus s')) <= size)%nat
    /\ (0 < size -> last (eventHistory (bus s')) = Some ev)%nat
    /\ (exists dropped, h ++ [ev] = dropped ++ eventHistory (bus s')
                         /\ (length dropped <= 1)%nat).
Proof.
  intros ev h size.
  assert (exists s', emit eventType eventData s = Ok tt s'
            /\ eventHistory (bus s') = recorded size h ev
            /\ maxHistorySize (bus s') = size) as (s' & Hrun & Hh & Hsize).
  { unfold emit, bind, Date_now, gets, _addToHistory, modify.
    cbn [bus set_bus debugMode with_history listeners].
    assert (forall (ls : list (@Listener Obs)) (s0 : @State Obs), exists s',
              forEach ls (notify eventType ev) s0 = Ok tt s'
              /\ eventHistory (bus s') = eventHistory (bus s0)
              /\ maxHistorySize (bus s') = maxHistorySize (bus s0)) as Hloop.
    { induction ls as [|l ls IH]; intros s0; [by exists s0|].
      cbn [forEach]. unfold bind.
      assert (exists s1, notify eventType ev l s0 = Ok tt s1
                /\ eventHistory (bus s1) = eventHistory (bus s0)
                /\ maxHistorySize (bus s1) = maxHistorySize (bus s0))
        as (s1 & -> & H1 & H2).
      { unfold notify, try_catch, bind, call_listener.
        destruct (cb_run (callback l) ev (obs s0)) as [o|o msg].
        - destruct (once l); cbn [when]; [|by eexists].
          unfold unsubscribe, modify. eexists. split; [reflexivity|].
          cbn. by repeat case_match.
        - by eexists. }
      destruct (IH s1) as (s' & -> & H3 & H4). exists s'. split; [done|].
      split; congruence. }
    destruct (debugMode (bus s));
      cbn [when console_write modify ret bus set_bus set_console listeners
           with_history];
      (destruct (listeners (bus s) !! eventType) as [ls|];
       [ edestruct (Hloop ls) as (s' & -> & H1 & H2); exists s';
         split; [done|]; rewrite H1, H2; by split
       | eexists; split; [reflexivity|]; by split ]). }
  exists s'. split; [done|]. rewrite Hh. split; [done|]. split; [done|].
  unfold recorded. rewrite length_app. cbn [length].
  destruct (size <? length h + 1)%nat eqn:E.
  - apply Nat.ltb_lt in E. destruct h as [|e h]; cbn [app tail length] in *.
    + split_and!; [lia | lia | exists [ev]; split; [done | cbn; lia]].
    + split_and!.
      * rewrite length_app. cbn [length]. lia.
      * intros _. apply last_snoc.
      * exists [e]. split; [done | cbn; lia].
  - apply Nat.ltb_ge in E. split_and!.
    + intros _. rewrite length_app. cbn. lia.
    + intros _. apply last_snoc.
    + exists []. split; [done | cbn; lia].
Qed.

(** X16: [getEventHistory(type, limit)] leaves the state as it is and
    returns events of that type only, in the order of the history: the
    latest [trunc(limit)] of them when the limit is at least one, and all
    of them when the limit is missing, zero, negative or below one. *)
Theorem getEventHistory_returns_latest (eventType : string) (limit : option Q)
    (s : @State Obs) :
  eventType <> ""%string ->
  let matching :=
    List.filter (fun event => String.eqb (ev_type event) eventType)
      (eventHistory (bus s)) in
  exists l,
    getEventHistory (Some eventType) limit s = Ok l s
    /\ (exists older, matching = older ++ l)
    /\ (forall n, limit = Some n -> 1 <= n ->
          length l = Nat.min (Z.to_nat (Qfloor n)) (length matching))
    /\ (limit = None \/ (exists n, limit = Some n /\ n < 1) -> l = matching).
Proof.
  intros Hty matching. unfold getEventHistory, bind, gets, ret.
  apply String.eqb_neq in Hty. rewrite Hty. fold matching.
  eexists. split; [reflexivity|].
  destruct limit as [n|].
  - destruct (Qlt_bool 0 n) eqn:Hpos.
    + unfold slice_last.
      destruct (Z.to_nat (Qfloor n) =? 0)%nat eqn:Hk.
      * apply Nat.eqb_eq in Hk. split_and!.
        -- by exists [].
        -- intros n' [= <-] Hn. apply Qfloor_resp_le in Hn.
           change (Qfloor 1) with 1%Z in Hn. lia.
        -- done.
      * apply Nat.eqb_neq in Hk. split_and!.
        -- exists (take (length matching - Z.to_nat (Qfloor n)) matching).
           by rewrite take_drop.
        -- intros n' [= <-] Hn. rewrite length_drop. lia.
        -- intros [? | (n' & [= <-] & Hlt)]; [done|]. exfalso.
           pose proof (Qfloor_le n) as Hfl.
           assert (inject_Z (Qfloor n) < inject_Z 1) as H1.
           { eapply Qle_lt_trans; [exact Hfl | exact Hlt]. }
           rewrite <- Zlt_Qlt in H1. lia.
    + apply Qlt_bool_false in Hpos. split_and!.
      * by exists [].
      * intros n' [= <-] Hn. exfalso. lra.
      * done.
  - split_and!; [by exists [] | done | done].
Qed.
(** ** Queries on the population *)

(** A filter whose test only reads objects that exist. *)
Lemma filterM_pure (p : Dwarf -> bool) (keep : ref -> @M Obs bool) (l : list ref)
    (s : @State Obs) :
  (forall r d, heap s !! r = Some d -> keep r s = Ok (p d) s) ->
  Forall (fun r => is_Some (heap s !! r)) l ->
  filterM keep l s = Ok (List.filter (holds_of s p) l) s.
Proof.
  intros Hkeep Hl. induction Hl as [|r l [d Hd] _ IH]; [done|].
  cbn [filterM List.filter]. unfold bind. rewrite (Hkeep r d Hd), IH.
  assert (holds_of s p r = p d) as -> by (unfold holds_of; by rewrite Hd).
  by destruct (p d).
Qed.

Lemma filterM_cons {A} (keep : A -> @M Obs bool) (a : A) (l : list A) (s : @State Obs) :
  filterM keep (a :: l) s
  = match keep a s with
    | Ok b s1 =>
        match filterM keep l s1 with
        | Ok rest s2 => Ok (if b then a :: rest else rest) s2
        | Throw e s2 => Throw e s2
        end
    | Throw e s1 => Throw e s1
    end.
Proof. done. Qed.

Lemma filter_In_heap (s : @State Obs) (p : Dwarf -> bool) (l : list ref) :
  Forall (fun r => is_Some (heap s !! r)) l ->
  Forall (fun r => is_Some (heap s !! r)) (List.filter (holds_of s p) l).
Proof.
  intros H. apply List.Forall_forall. intros r Hr. apply filter_In in Hr as [Hr _].
  rewrite List.Forall_forall in H. by apply H.
Qed.

Lemma filter_sublist {A} (p : A -> bool) (l : list A) : sublist (List.filter p l) l.
Proof.
  induction l as [|a l IH]; [constructor|]. cbn [List.filter].
  destruct (p a); by constructor.
Qed.

Lemma getNearbyDwarfs_filter center radius (s : @State Obs) c :
  heap s !! center = Some c -> population_in_heap s ->
  getNearbyDwarfs Math_sqrt center radius s
  = Ok (List.filter
          (fun r => negb (Nat.eqb r center)
                    && holds_of s (fun d => Qlt_bool (distance_between Math_sqrt c d) radius) r)
          (default [] (dwarfs s))) s.
Proof.
  intros Hc Hpop. unfold getNearbyDwarfs, bind at 1, getAllDwarfs, gets.
  unfold population_in_heap in Hpop. revert Hpop.
  generalize (default [] (dwarfs s)). intros l Hl.
  induction Hl as [|r l [d Hd] _ IH]; [done|].
  rewrite filterM_cons. cbv beta. cbn [List.filter].
  destruct (Nat.eqb r center) eqn:E; cbn [negb andb].
  - unfold ret at 1. by rewrite IH.
  - assert ((distance <- calculateDistance Math_sqrt center r ;;
             ret (Qlt_bool distance radius)) s
            = Ok (Qlt_bool (distance_between Math_sqrt c d) radius) s) as ->.
    { unfold bind, calculateDistance, bind, read. by rewrite Hc, Hd. }
    rewrite IH.
    assert (holds_of s (fun d => Qlt_bool (distance_between Math_sqrt c d) radius) r
            = Qlt_bool (distance_between Math_sqrt c d) radius) as ->
      by (unfold holds_of; by rewrite Hd).
    unfold distance_between. by destruct (Qlt_bool _ radius).
Qed.

Lemma getNearbyDwarfs_members (center : ref) (radius : Q) (s : @State Obs)
    (c : Dwarf) :
  heap s !! center = Some c -> population_in_heap s ->
  exists l,
    getNearbyDwarfs Math_sqrt center radius s = Ok l s
    /\ sublist l (default [] (dwarfs s))
    /\ forall r, r ∈ l <->
         r ∈ default [] (dwarfs s) /\ r <> center
         /\ exists d, heap s !! r = Some d
                      /\ distance_between Math_sqrt c d < radius.
Proof.
  intros Hc Hpop. eexists. split; [by apply getNearbyDwarfs_filter|].
  split; [apply filter_sublist|]. intros r.
  rewrite list_elem_of_In, filter_In, <- list_elem_of_In.
  rewrite andb_true_iff, negb_true_iff, Nat.eqb_neq. unfold holds_of.
  split.
  - intros (Hr & Hne & Hnear). destruct (heap s !! r) as [d|]; [|done].
    split_and!; try done. exists d. split; [done|]. by apply Qlt_bool_true.
  - intros (Hr & Hne & d & -> & Hnear). split_and!; try done.
    by apply Qlt_bool_true.
Qed.

(** X17: when no reference of the population dangles, [getNearbyDwarfs]
    leaves the state as it is and returns, in the order of the population,
    exactly the dwarfs of the population other than the centre whose
    distance to the centre is below the radius. *)
Theorem getNearbyDwarfs_exact (center : ref) (radius : Q) (s : @State Obs)
    (c : Dwarf) :
  heap s !! center = Some c -> population_in_heap s ->
  exists l,
    getNearbyDwarfs Math_sqrt center radius s = Ok l s
    /\ sublist l (default [] (dwarfs s))
    /\ forall r, r ∈ l <->
         r ∈ default [] (dwarfs s) /\ r <> center
         /\ exists d, heap s !! r = Some d
                      /\ distance_between Math_sqrt c d < radius.
Proof. apply getNearbyDwarfs_members. Qed.

(** X18: with a square root that answers equal numbers equally, nearness is
    mutual: a dwarf of the population is returned for a centre and a
    radius exactly when the centre is returned for that dwarf and the same
    radius. *)
Theorem getNearbyDwarfs_mutual (a b : ref) (radius : Q) (s : @State Obs) :
  (forall u v : Q, u == v -> Math_sqrt u == Math_sqrt v) ->
  population_in_heap s ->
  a ∈ default [] (dwarfs s) -> b ∈ default [] (dwarfs s) ->
  exists la lb,
    getNearbyDwarfs Math_sqrt a radius s = Ok la s
    /\ getNearbyDwarfs Math_sqrt b radius s = Ok lb s
    /\ (b ∈ la <-> a ∈ lb).
Proof.
  intros Hsqrt Hpop Ha Hb.
  assert (is_Some (heap s !! a)) as [da Hda].
  { unfold population_in_heap in Hpop. rewrite Forall_forall in Hpop. by apply Hpop. }
  assert (is_Some (heap s !! b)) as [db Hdb].
  { unfold population_in_heap in Hpop. rewrite Forall_forall in Hpop. by apply Hpop. }
  destruct (getNearbyDwarfs_members a radius s da Hda Hpop) as (la & Hla & _ & Hin_a).
  destruct (getNearbyDwarfs_members b radius s db Hdb Hpop) as (lb & Hlb & _ & Hin_b).
  exists la, lb. split; [done|]. split; [done|].
  rewrite Hin_a, Hin_b.
  assert (distance_between Math_sqrt da db == distance_between Math_sqrt db da) as Hsym.
  { unfold distance_between. apply Hsqrt. ring. }
  split.
  - intros (_ & Hne & d & Hd & Hnear). assert (d = db) as -> by congruence.
    split_and!; [done | congruence |]. exists da. split; [done|]. by rewrite <- Hsym.
  - intros (_ & Hne & d & Hd & Hnear). assert (d = da) as -> by congruence.
    split_and!; [done | congruence |]. exists db. split; [done|]. by rewrite Hsym.
Qed.

Lemma read_then (p : Dwarf -> bool) (r : ref) (s : @State Obs) d :
  heap s !! r = Some d -> (d <- read r ;; ret (p d)) s = Ok (p d) s.
Proof. intros Hd. unfold bind, read. by rewrite Hd. Qed.

Lemma count_two {A} (p q : A -> bool) (l : list A) :
  (forall a, p a = true -> q a = false) ->
  (length (List.filter p l) + length (List.filter q l) <= length l)%nat.
Proof.
  intros Hpq. induction l as [|a l IH]; [done|]. cbn [List.filter].
  destruct (p a) eqn:Ep; [rewrite (Hpq a Ep) | destruct (q a)]; cbn [length]; lia.
Qed.

Lemma count_three {A} (p q r : A -> bool) (l : list A) :
  (forall a, p a = true -> q a = false /\ r a = false) ->
  (forall a, q a = true -> r a = false) ->
  (length (List.filter p l) + length (List.filter q l) + length (List.filter r l)
   <= length l)%nat.
Proof.
  intros Hp Hq. induction l as [|a l IH]; [done|]. cbn [List.filter].
  destruct (p a) eqn:Ep.
  - destruct (Hp a Ep) as [-> ->]. cbn [length]. lia.
  - destruct (q a) eqn:Eq; [rewrite (Hq a Eq) | destruct (r a)]; cbn [length]; lia.
Qed.

Lemma filter_filter_and {A} (p q : A -> bool) (l : list A) :
  List.filter q (List.filter p l) = List.filter (fun a => p a && q a) l.
Proof.
  induction l as [|a l IH]; [done|]. cbn [List.filter].
  destruct (p a); cbn [List.filter andb]; [|done]. by rewrite IH.
Qed.

(** X19: when no reference of the population dangles, [getPopulationStats]
    leaves the state as it is and its counts agree: the children are the
    dwarfs that are not adult, the adult males and the adult females are
    no more than the adults, the pregnant and the available females
    together no more than the females, and the males counted by strategy
    no more than the males. *)
Theorem getPopulationStats_consistent (s : @State Obs) :
  population_in_heap s ->
  exists st,
    getPopulationStats s = Ok st s
    /\ ps_total st = length (default [] (dwarfs s))
    /\ (ps_adults st <= ps_total st)%nat
    /\ ps_children st = (Z.of_nat (ps_total st) - Z.of_nat (ps_adults st))%Z
    /\ (0 <= ps_children st)%Z
    /\ (ps_males st + ps_females st <= ps_adults st)%nat
    /\ (ps_pregnant st + ps_availableFemales st <= ps_females st)%nat
    /\ (count_orange (ps_malesByStrategy st) + count_blue (ps_malesByStrategy st)
        + count_yellow (ps_malesByStrategy st) <= ps_males st)%nat.
Proof.
  intros Hpop. unfold population_in_heap in Hpop.
  set (pop := default [] (dwarfs s)) in *.
  set (adults := List.filter (holds_of s isAdult) pop).
  set (males := List.filter (holds_of s (fun d => String.eqb (gender d) "male")) adults).
  set (females :=
         List.filter (holds_of s (fun d => String.eqb (gender d) "female")) adults).
  assert (Forall (fun r => is_Some (heap s !! r)) adults) as Hadults
    by by apply filter_In_heap.
  assert (Forall (fun r => is_Some (heap s !! r)) males) as Hmales
    by by apply filter_In_heap.
  assert (Forall (fun r => is_Some (heap s !! r)) females) as Hfemales
    by by apply filter_In_heap.
  assert (@getAdultDwarfs Obs s = Ok adults s) as Had.
  { unfold getAdultDwarfs, bind at 1, getAllDwarfs, gets.
    rewrite (filterM_pure isAdult); [done | | done].
    intros r d Hd. by apply read_then. }
  assert (@getAdultMales Obs s = Ok males s) as Hma.
  { unfold getAdultMales, bind at 1. rewrite Had.
    rewrite (filterM_pure (fun d => String.eqb (gender d) "male")); [done | | done].
    intros r d Hd. by apply (read_then (fun d => String.eqb (gender d) "male")). }
  set (available_test := fun d : Dwarf =>
         isAdult d && String.eqb (gender d) "female"
         && negb (truthy (isPregnant (repro d)))
         && num_le (reproductionCooldown (repro d)) 0).
  assert (@getAvailableFemales Obs s
          = Ok (List.filter (holds_of s available_test) pop) s) as Hav.
  { unfold getAvailableFemales, bind at 1, getAllDwarfs, gets.
    rewrite (filterM_pure available_test); [done | | done].
    intros r d Hd. by apply (read_then available_test). }
  unfold getPopulationStats, bind at 1, getAllDwarfs, gets.
  unfold bind at 1. rewrite Had. unfold bind at 1. rewrite Hma.
  unfold bind at 1.
  rewrite (filterM_pure (fun d => String.eqb (gender d) "female") _ adults s);
    [| intros r d Hd; by apply (read_then (fun d => String.eqb (gender d) "female"))
     | done].
  fold females. unfold bind at 1.
  rewrite (filterM_pure (fun d => truthy (isPregnant (repro d))) _ females s);
    [| intros r d Hd; by apply (read_then (fun d => truthy (isPregnant (repro d))))
     | done].
  unfold bind at 1.
  rewrite (filterM_pure
             (fun m => strategy_is (reproductionStrategy (repro m)) "orange") _ males s);
    [| intros r d Hd;
       by apply (read_then
                   (fun m => strategy_is (reproductionStrategy (repro m)) "orange"))
     | done].
  unfold bind at 1.
  rewrite (filterM_pure
             (fun m => strategy_is (reproductionStrategy (repro m)) "blue") _ males s);
    [| intros r d Hd;
       by apply (read_then
                   (fun m => strategy_is (reproductionStrategy (repro m)) "blue"))
     | done].
  unfold bind at 1.
  rewrite (filterM_pure
             (fun m => strategy_is (reproductionStrategy (repro m)) "yellow") _ males s);
    [| intros r d Hd;
       by apply (read_then
                   (fun m => strategy_is (reproductionStrategy (repro m)) "yellow"))
     | done].
  unfold bind at 1. rewrite Hav. unfold ret.
  eexists. split; [reflexivity|].
  cbn [ps_total ps_adults ps_children ps_males ps_females ps_pregnant
       ps_availableFemales ps_malesByStrategy count_orange count_blue count_yellow].
  assert (length adults <= length pop)%nat as Hle by apply List.filter_length_le.
  fold pop. split_and!; try done; try lia.
  - apply count_two. intros r. unfold holds_of.
    destruct (heap s !! r) as [d|]; [|done].
    intros E. apply String.eqb_eq in E. by rewrite E.
  - assert (List.filter (holds_of s available_test) pop
            = List.filter
                (holds_of s (fun d => negb (truthy (isPregnant (repro d)))
                                      && num_le (reproductionCooldown (repro d)) 0))
                females) as ->.
    { unfold females, adults. rewrite !filter_filter_and. apply filter_ext.
      intros r. unfold holds_of, available_test.
      destruct (heap s !! r) as [d|]; [|done]. by rewrite !andb_assoc. }
    apply count_two. intros r. unfold holds_of.
    destruct (heap s !! r) as [d|]; [|done]. by intros ->.
  - apply count_three; intros r; unfold holds_of;
      (destruct (heap s !! r) as [d|]; [|done]);
      destruct (reproductionStrategy (repro d)) as [st|]; try done; cbn [strategy_is];
      intros E; apply String.eqb_eq in E; by rewrite E.
Qed.

(** ** The integration layer *)

Lemma living_filter (l : list ref) (s : @State Obs) :
  Forall (fun r => is_Some (heap s !! r)) l ->
  living l s = Ok (List.filter (holds_of s alive) l) s.
Proof.
  intros Hl. unfold living. apply (filterM_pure alive); [|done].
  intros r d Hd. by apply (read_then alive).
Qed.

(** X20: [findOldestDwarf] starts its [reduce] from [null] and reads
    [oldest.age] at the first step: with a population whose references all
    exist it returns [null] when no dwarf of the population lives, and
    raises a [TypeError] as soon as one does. *)
Theorem findOldestDwarf_raises_when_someone_lives (s : @State Obs) :
  population_in_heap s ->
  findOldestDwarf s
  = if existsb (holds_of s alive) (default [] (dwarfs s))
    then Throw (TypeError "Cannot read properties of null (reading 'age')") s
    else Ok Null s.
Proof.
  intros Hpop. unfold findOldestDwarf, bind at 1, gets. unfold bind at 1.
  rewrite living_filter by done.
  unfold population_in_heap in Hpop. revert Hpop.
  generalize (default [] (dwarfs s)). intros l Hl.
  induction Hl as [|r l [d Hd] _ IH]; [done|].
  cbn [List.filter existsb].
  assert (holds_of s alive r = alive d) as -> by (unfold holds_of; by rewrite Hd).
  destruct (alive d); cbn [orb]; [|done].
  cbn [reduce]. unfold bind at 1, older, bind at 1, read. by rewrite Hd.
Qed.

Lemma healthPercent_of_ratio d (s : @State Obs) :
  has_health d -> healthPercent_of d s = Ok (health_ratio d) s.
Proof.
  intros (h & mh & Hh & Hmh & Hnz). unfold healthPercent_of, health_ratio, divide.
  rewrite Hh, Hmh. cbn [default].
  destruct (Qeq_bool mh 0) eqn:E; [|done]. by apply Qeq_bool_iff in E.
Qed.

Lemma reduce_healthier (s : @State Obs) (l : list ref) (acc : jsref) :
  Forall (fun r => exists d, heap s !! r = Some d /\ has_health d) l ->
  match acc with
  | Obj a => exists d, heap s !! a = Some d /\ has_health d
  | Null => True
  | Undefined => False
  end ->
  exists best,
    reduce healthier l acc s = Ok best s
    /\ (best = acc \/ exists b, best = Obj b /\ In b l /\ standing s acc < standing s best)
    /\ standing s acc <= standing s best
    /\ Forall (fun r => standing s (Obj r) <= standing s best) l.
Proof.
  intros Hl. revert acc. induction Hl as [|r l (d & Hd & Hh) _ IH]; intros acc Hacc.
  { exists acc. split_and!; [done | by left | apply Qle_refl | constructor]. }
  cbn [reduce]. unfold bind at 1.
  assert (exists acc',
            healthier acc r s = Ok acc' s
            /\ acc' = (if Qlt_bool (standing s acc) (health_ratio d) then Obj r else acc))
    as (acc' & Hstep & Hacc').
  { eexists. split; [|reflexivity].
    unfold healthier, bind at 1, read. rewrite Hd. unfold bind at 1.
    rewrite healthPercent_of_ratio by done. unfold bind at 1.
    destruct acc as [| |a]; [done | done |].
    destruct Hacc as (da & Hda & Hha). unfold bind at 1, read. rewrite Hda.
    rewrite healthPercent_of_ratio by done. unfold ret, standing. by rewrite Hda. }
  rewrite Hstep.
  assert (standing s (Obj r) = health_ratio d) as Hr
    by (unfold standing; by rewrite Hd).
  destruct (IH acc') as (best & Hrun & Hfrom & Hge & Hall).
  { rewrite Hacc'. destruct (Qlt_bool _ _); [by exists d | done]. }
  exists best. split; [done|]. rewrite Hacc' in Hfrom, Hge.
  destruct (Qlt_bool (standing s acc) (health_ratio d)) eqn:E.
  - apply Qlt_bool_true in E. rewrite Hr in Hge.
    assert (standing s acc < standing s best) as Hlt
      by (eapply Qlt_le_trans; [exact E | exact Hge]).
    split_and!.
    + right. destruct Hfrom as [-> | (b & -> & Hb & _)].
      * exists r. split_and!; [done | by left | done].
      * exists b. split_and!; [done | by right | done].
    + by apply Qlt_le_weak.
    + constructor; [by rewrite Hr | done].
  - apply Qlt_bool_false in E. split_and!.
    + destruct Hfrom as [-> | (b & -> & Hb & Hlt)]; [by left|].
      right. exists b. split_and!; [done | by right | done].
    + done.
    + constructor; [|done]. rewrite Hr. eapply Qle_trans; [exact E | exact Hge].
Qed.

(** X21: when every living dwarf of the population has a health and a
    maximum health other than zero, [findHealthiestDwarf] changes nothing
    and returns a living dwarf of the population whose ratio of health to
    maximum health is above zero and at least that of every living dwarf;
    it returns [null] exactly when no living dwarf has a ratio above
    zero. *)
Theorem findHealthiestDwarf_is_maximal (s : @State Obs) :
  population_in_heap s ->
  (forall r d, In r (default [] (dwarfs s)) -> heap s !! r = Some d ->
               alive d = true -> has_health d) ->
  exists best,
    findHealthiestDwarf s = Ok best s
    /\ (forall r d, In r (default [] (dwarfs s)) -> heap s !! r = Some d ->
                    alive d = true -> health_ratio d <= standing s best)
    /\ match best with
       | Obj b =>
           In b (default [] (dwarfs s))
           /\ exists d, heap s !! b = Some d /\ alive d = true /\ 0 < health_ratio d
       | Null => True
       | Undefined => False
       end.
Proof.
  intros Hpop Hhealth. unfold findHealthiestDwarf, bind at 1, gets. unfold bind at 1.
  rewrite living_filter by done.
  set (l := List.filter (holds_of s alive) (default [] (dwarfs s))).
  assert (forall r, In r l ->
            In r (default [] (dwarfs s))
            /\ exists d, heap s !! r = Some d /\ alive d = true) as Hin.
  { intros r Hr. apply filter_In in Hr as [Hr Ha]. split; [done|].
    unfold holds_of in Ha. destruct (heap s !! r) as [d|]; [by exists d | done]. }
  destruct (reduce_healthier s l Null) as (best & Hrun & Hfrom & _ & Hall); [|done|].
  { apply List.Forall_forall. intros r Hr. destruct (Hin r Hr) as (Hr' & d & Hd & Ha).
    exists d. split; [done|]. by apply (Hhealth r d). }
  exists best. split; [done|]. split.
  - intros r d Hr Hd Ha. rewrite List.Forall_forall in Hall.
    assert (standing s (Obj r) = health_ratio d) as <-
      by (unfold standing; by rewrite Hd).
    apply Hall. apply filter_In. split; [done|]. unfold holds_of. by rewrite Hd.
  - destruct Hfrom as [-> | (b & -> & Hb & Hlt)]; [done|].
    destruct (Hin b Hb) as (Hb' & d & Hd & Ha). split; [done|].
    exists d. split_and!; [done | done |].
    unfold standing in Hlt. by rewrite Hd in Hlt.
Qed.

(** X22: the integration's [update] runs the tick of the engine on
    [game.dwarfs] and then keeps, in their order, exactly the dwarfs of
    the list that are not flagged dead after the tick, so that a dwarf
    that was dead before the call is gone; when the tick raises, the
    exception passes through and the list is as it was. *)
Theorem Integration_update_drops_the_dead (config : LifespanConfig.t)
    (s : @State Obs) (l : list ref) :
  dwarfs s = Some l ->
  population_in_heap s ->
  match update Math_sqrt config l s with
  | Ok _ s1 =>
      exists l',
        Integration_update Math_sqrt config s = Ok tt (set_dwarfs (Some l') s1)
        /\ l' = List.filter (holds_of s1 alive) l
        /\ forall r d, heap s !! r = Some d -> alive d = false -> ~ In r l'
  | Throw e s1 =>
      Integration_update Math_sqrt config s = Throw e s1 /\ dwarfs s1 = Some l
  end.
Proof.
  intros Hl Hpop. unfold population_in_heap in Hpop. rewrite Hl in Hpop.
  simpl in Hpop.
  pose proof (preserves_vitality_update config l s) as H. unfold run in H.
  assert (forall res, update Math_sqrt config l s = res ->
            Integration_update Math_sqrt config s
            = match res with
              | Ok _ s1 =>
                  (pop' <- gets dwarfs ;;
                   l' <- living (default [] pop') ;;
                   modify (set_dwarfs (Some l'))) s1
              | Throw e s1 => Throw e s1
              end) as Hstep.
  { intros res <-. unfold Integration_update, bind at 1, gets. by rewrite Hl. }
  destruct (update Math_sqrt config l s) as [[] s1 | e s1];
    rewrite (Hstep _ eq_refl); destruct H as (Hdw & _ & _ & _ & _ & Hheap);
    [|split; [done | by rewrite Hdw]].
  exists (List.filter (holds_of s1 alive) l). split_and!; [|done|].
  - unfold bind at 1, gets. rewrite Hdw, Hl. simpl default. unfold bind at 1.
    rewrite living_filter; [done|].
    apply List.Forall_forall. intros r Hr. rewrite List.Forall_forall in Hpop.
    destruct (Hpop r Hr) as [d Hd]. destruct (Hheap r d Hd) as (d' & Hd' & _).
    by exists d'.
  - intros r d Hd Ha Hin. apply filter_In in Hin as [_ Hin].
    destruct (Hheap r d Hd) as (d' & Hd' & Hrest).
    unfold holds_of in Hin. rewrite Hd' in Hin.
    assert (isDead (vital d') = Some true) as Hdead.
    { apply Hrest. unfold alive in Ha. by destruct (isDead (vital d)) as [[]|]. }
    unfold alive in Hin. by rewrite Hdead in Hin.
Qed.

(** ** Gestation before term *)

Lemma updatePregnancy_before_term config rs female (s : @State Obs) f t :
  heap s !! female = Some f ->
  isPregnant (repro f) = Some true ->
  pregnancyTimer (repro f) = Some t ->
  t + 1 < PREGNANCY_DURATION config ->
  updatePregnancy Dwarf_constructor config rs female s
  = Ok tt
      (set_heap (<[female := with_repro (set_pregnancyTimer (Some (t + 1))) f]> (heap s))
         (set_pregnantFemales
            (if bool_decide (female ∈ pregnantFemales s) then pregnantFemales s
             else pregnantFemales s ++ [female]) s)).
Proof.
  intros Hf Hp Ht Hlt. unfold updatePregnancy, bind at 1, read. rewrite Hf, Hp.
  change (truthy (Some true)) with true. cbn [negb].
  unfold bind at 1, pregnantFemales_add, modify. rewrite Ht.
  unfold bind at 1, assign, modify.
  assert (Qle_bool (PREGNANCY_DURATION config) (t + 1) = false) as ->
    by by apply Qle_bool_false.
  unfold ret. cbn [heap set_pregnantFemales]. by rewrite (alter_present _ _ _ f).
Qed.

Lemma gestation_ticks (config : Config) (rs : bool) (female : ref)
    (n : nat) (s : @State Obs) (f : Dwarf) (t : Q) :
  heap s !! female = Some f ->
  isPregnant (repro f) = Some true ->
  pregnancyTimer (repro f) = Some t ->
  t + inject_Z (Z.of_nat (S n)) < PREGNANCY_DURATION config ->
  exists t',
    t' == t + inject_Z (Z.of_nat (S n))
    /\ ticks (S n) (updatePregnancy Dwarf_constructor config rs female) s
       = Ok tt
           (set_heap (<[female := with_repro (set_pregnancyTimer (Some t')) f]> (heap s))
              (set_pregnantFemales
                 (if bool_decide (female ∈ pregnantFemales s) then pregnantFemales s
                  else pregnantFemales s ++ [female]) s)).
Proof.
  revert s f t. induction n as [|n IH]; intros s f t Hf Hp Ht Hlt.
  - exists (t + 1). split; [done|]. cbn [ticks]. unfold bind.
    by rewrite (updatePregnancy_before_term _ _ _ _ f t).
  - rewrite inject_succ in Hlt.
    assert (0 <= inject_Z (Z.of_nat (S n))) as Hpos.
    { change 0 with (inject_Z 0). rewrite <- Zle_Qle. lia. }
    change (ticks (S (S n)) ?m) with (bind m (fun _ => ticks (S n) m)).
    unfold bind at 1.
    rewrite (updatePregnancy_before_term _ _ _ _ f t) by (done || lra).
    set (s1 := set_heap _ _).
    destruct (IH s1 (with_repro (set_pregnancyTimer (Some (t + 1))) f) (t + 1))
      as (t' & Ht' & ->).
    + unfold s1. cbn [heap set_heap]. by rewrite lookup_insert_eq.
    + done.
    + done.
    + lra.
    + exists t'. split; [rewrite Ht', (inject_succ (S n)); lra|].
      unfold s1. cbn [heap set_heap pregnantFemales set_pregnantFemales].
      rewrite insert_insert_eq. f_equal.
      destruct s as [h0 pop rnd n0 clk con glog b o ls pf tm].
      unfold set_heap, set_pregnantFemales.
      cbn. f_equal.
      destruct (bool_decide (female ∈ pf)) eqn:Hin.
      * by rewrite Hin.
      * rewrite bool_decide_true; [done|]. apply elem_of_app. right. by left.
Qed.

(** X23: before term, [updatePregnancy] only counts: for a pregnant female
    whose timer stays below [PREGNANCY_DURATION], [n + 1] calls return,
    leave her pregnant with the timer [n + 1] higher, have her in the set
    of tracked females, and change nothing else: no birth, no event, no
    new dwarf, no random number drawn. *)
Theorem updatePregnancy_counts_until_term (config : Config) (rs : bool) (female : ref)
    (n : nat) (s : @State Obs) (f : Dwarf) (t : Q) :
  heap s !! female = Some f ->
  isPregnant (repro f) = Some true ->
  pregnancyTimer (repro f) = Some t ->
  t + inject_Z (Z.of_nat (S n)) < PREGNANCY_DURATION config ->
  exists t',
    t' == t + inject_Z (Z.of_nat (S n))
    /\ ticks (S n) (updatePregnancy Dwarf_constructor config rs female) s
       = Ok tt
           (set_heap (<[female := with_repro (set_pregnancyTimer (Some t')) f]> (heap s))
              (set_pregnantFemales
                 (if bool_decide (female ∈ pregnantFemales s) then pregnantFemales s
                  else pregnantFemales s ++ [female]) s)).
Proof. apply gestation_ticks. Qed.

(** X24: the countdown follows the timer: for a pregnant female whose timer
    stays below [PREGNANCY_DURATION] through [n + 1] calls of
    [updatePregnancy], [getTimeUntilBirth] answers [n + 1] less after the
    calls than before them, still more than zero, and [isReadyForBirth]
    answers no. *)
Theorem getTimeUntilBirth_counts_down (config : Config) (rs : bool) (female : ref)
    (n : nat) (s : @State Obs) (f : Dwarf) (t : Q) :
  heap s !! female = Some f ->
  isPregnant (repro f) = Some true ->
  pregnancyTimer (repro f) = Some t ->
  t + inject_Z (Z.of_nat (S n)) < PREGNANCY_DURATION config ->
  exists s' before after,
    getTimeUntilBirth config female s = Ok before s
    /\ ticks (S n) (updatePregnancy Dwarf_constructor config rs female) s = Ok tt s'
    /\ getTimeUntilBirth config female s' = Ok after s'
    /\ after == before - inject_Z (Z.of_nat (S n))
    /\ 0 < after
    /\ isReadyForBirth config female s' = Ok false s'.
Proof.
  intros Hf Hp Ht Hlt.
  destruct (gestation_ticks config rs female n s f t Hf Hp Ht Hlt) as (t' & Ht' & Hrun).
  assert (0 <= inject_Z (Z.of_nat (S n))) as Hpos.
  { change 0 with (inject_Z 0). rewrite <- Zle_Qle. lia. }
  eexists _, (Qmax 0 (PREGNANCY_DURATION config - t)),
    (Qmax 0 (PREGNANCY_DURATION config - t')).
  split_and!; [| exact Hrun | | | |].
  - unfold getTimeUntilBirth, bind, read. by rewrite Hf, Hp, Ht.
  - unfold getTimeUntilBirth, bind, read. cbn [heap set_heap].
    rewrite lookup_insert_eq. destruct f as [? ? ? ? ? ? ? ? ? ? [] ?].
    cbn in Hp |- *. by rewrite Hp.
  - rewrite !Q.max_r by (rewrite ?Ht'; lra). rewrite Ht'. lra.
  - rewrite Q.max_r by (rewrite ?Ht'; lra). rewrite Ht'. lra.
  - unfold isReadyForBirth, bind, read. cbn [heap set_heap].
    rewrite lookup_insert_eq. destruct f as [? ? ? ? ? ? ? ? ? ? [] ?].
    cbn in Hp |- *. rewrite Hp. unfold ret. f_equal. cbn.
    apply Qle_bool_false. rewrite Ht'. lra.
Qed.

(** ** Mating with an available female *)

Lemma run_attemptMating_available config male female (s : @State Obs) m f :
  heap s !! male = Some m -> heap s !! female = Some f -> male <> female ->
  num_gt (reproductionCooldown (repro f)) 0 = false ->
  truthy (isPregnant (repro f)) = false ->
  run (attemptMating Math_sqrt config male female) s
    (fun success s' =>
       success = Qlt_bool (random s (draws s)) (MATING_SUCCESS_RATE config)
       /\ draws s' = S (draws s) /\ dwarfs s' = dwarfs s
       /\ pregnantFemales s' = pregnantFemales s
       /\ (forall r, r <> male -> r <> female -> heap s' !! r = heap s !! r)
       /\ heap s' !! female
          = Some (if success
                  then with_repro
                         (fun rp =>
                            set_reproductionCooldown
                              (Some (FEMALE_REPRODUCTION_COOLDOWN config))
                              (set_pregnancyTimer (Some 0)
                                 (set_isPregnant (Some true) rp))) f
                  else f)
       /\ heap s' !! male
          = Some (if success
                  then with_repro
                         (set_reproductionCooldown
                            (Some (MALE_REPRODUCTION_COOLDOWN config))) m
                  else m)) never.
Proof.
  intros Hm Hf Hne Hcd Hp.
  destruct s as [h0 pop rnd n clk con glog b o ls pf tm]. cbn [heap] in Hm, Hf.
  unfold attemptMating, calculateDistance.
  tstep2 Hm Hf. tstep2 Hm Hf. rewrite Hcd, Hp. cbn [orb].
  repeat (tstep2 Hm Hf);
    cbn [random draws];
    (split; [done|]); (split; [done|]); (split; [done|]); (split; [done|]);
    (split; [intros r Hr1 Hr2; by rewrite ?lookup_alter_ne by done|]);
    (split; [|lookup2 Hm Hf]);
    repeat first [rewrite lookup_alter_eq | rewrite lookup_alter_ne by congruence];
    by rewrite Hf.
Qed.

(** X25: a male-initiated attempt on a female who is not pregnant and has
    no cooldown left succeeds exactly when the next random number is below
    [MATING_SUCCESS_RATE]. On success the female is pregnant with her
    timer at zero and the female cooldown, the male carries the male
    cooldown and no other object changes; on failure no object changes.
    She is not put among the tracked pregnant females by the attempt. *)
Theorem attemptMating_succeeds_below_rate (config : Config) (male female : ref)
    (s : @State Obs) (m f : Dwarf) :
  heap s !! male = Some m -> heap s !! female = Some f -> male <> female ->
  num_gt (reproductionCooldown (repro f)) 0 = false ->
  truthy (isPregnant (repro f)) = false ->
  exists success s',
    attemptMating Math_sqrt config male female s = Ok success s'
    /\ success = Qlt_bool (random s (draws s)) (MATING_SUCCESS_RATE config)
    /\ dwarfs s' = dwarfs s
    /\ pregnantFemales s' = pregnantFemales s
    /\ (forall r, r <> male -> r <> female -> heap s' !! r = heap s !! r)
    /\ heap s' !! female
       = Some (if success
               then with_repro
                      (fun rp =>
                         set_reproductionCooldown
                           (Some (FEMALE_REPRODUCTION_COOLDOWN config))
                           (set_pregnancyTimer (Some 0)
                              (set_isPregnant (Some true) rp))) f
               else f)
    /\ heap s' !! male
       = Some (if success
               then with_repro
                      (set_reproductionCooldown
                         (Some (MALE_REPRODUCTION_COOLDOWN config))) m
               else m).
Proof.
  intros Hm Hf Hne Hcd Hp.
  destruct (proj1 (run_never _ _ _)
              (run_attemptMating_available config male female s m f Hm Hf Hne Hcd Hp))
    as (success & s' & Hrun & Hsuccess & _ & Hrest).
  by exists success, s'.
Qed.

Lemma run_acceptMating_available config male female (s : @State Obs) m f :
  heap s !! male = Some m -> heap s !! female = Some f -> male <> female ->
  num_gt (reproductionCooldown (repro f)) 0 = false ->
  truthy (isPregnant (repro f)) = false ->
  run (acceptMating config female male) s
    (fun success s' =>
       success = Qlt_bool (random s (draws s)) (MATING_SUCCESS_RATE config)
       /\ draws s' = S (draws s) /\ dwarfs s' = dwarfs s
       /\ pregnantFemales s' = pregnantFemales s
       /\ (forall r, r <> male -> r <> female -> heap s' !! r = heap s !! r)
       /\ heap s' !! female
          = Some (if success
                  then with_repro
                         (fun rp =>
                            set_reproductionCooldown
                              (Some (FEMALE_REPRODUCTION_COOLDOWN config))
                              (set_pregnancyTimer (Some 0)
                                 (set_isPregnant (Some true) rp))) f
                  else f)
       /\ heap s' !! male
          = Some (if success
                  then with_repro
                         (set_reproductionCooldown
                            (Some (MALE_REPRODUCTION_COOLDOWN config))) m
                  else m)) never.
Proof.
  intros Hm Hf Hne Hcd Hp.
  destruct s as [h0 pop rnd n clk con glog b o ls pf tm]. cbn [heap] in Hm, Hf.
  unfold acceptMating, attemptMatingWithFemale.
  tstep2 Hm Hf. tstep2 Hm Hf. tstep2 Hm Hf. rewrite Hcd, Hp. cbn [orb].
  repeat (tstep2 Hm Hf);
    cbn [random draws];
    (split; [done|]); (split; [done|]); (split; [done|]); (split; [done|]);
    (split; [intros r Hr1 Hr2; by rewrite ?lookup_alter_ne by done|]);
    (split; [|lookup2 Hm Hf]);
    repeat first [rewrite lookup_alter_eq | rewrite lookup_alter_ne by congruence];
    by rewrite Hf.
Qed.

Lemma run_attemptMating_unavailable config male female (s : @State Obs) m f :
  heap s !! male = Some m -> heap s !! female = Some f ->
  num_gt (reproductionCooldown (repro f)) 0 || truthy (isPregnant (repro f)) = true ->
  run (attemptMating Math_sqrt config male female) s
    (fun success s' =>
       success = false /\ heap s' = heap s /\ draws s' = draws s
       /\ dwarfs s' = dwarfs s /\ pregnantFemales s' = pregnantFemales s) never.
Proof.
  intros Hm Hf Hbusy.
  destruct s as [h0 pop rnd n clk con glog b o ls pf tm]. cbn [heap] in Hm, Hf.
  unfold attemptMating.
  tstep Hf. tstep Hf. rewrite Hbusy. repeat (tstep Hm). done.
Qed.

Lemma run_acceptMating_unavailable config male female (s : @State Obs) m f :
  heap s !! male = Some m -> heap s !! female = Some f ->
  num_gt (reproductionCooldown (repro f)) 0 || truthy (isPregnant (repro f)) = true ->
  run (acceptMating config female male) s
    (fun success s' =>
       success = false /\ heap s' = heap s /\ draws s' = draws s
       /\ dwarfs s' = dwarfs s /\ pregnantFemales s' = pregnantFemales s) never.
Proof.
  intros Hm Hf Hbusy.
  destruct s as [h0 pop rnd n clk con glog b o ls pf tm]. cbn [heap] in Hm, Hf.
  unfold acceptMating, attemptMatingWithFemale.
  tstep Hf. tstep Hf. tstep Hf. rewrite Hbusy. tstep Hf. tstep Hf. tstep Hf.
  tstep Hf. tstep Hm. repeat (tstep Hm). done.
Qed.

(** X26: the two ways into a mating agree on the dwarfs: for a male and a
    female of the world, the male-initiated [attemptMating] and the
    female-initiated [acceptMating] return the same answer from the same
    state, draw the same count of random numbers and leave the same
    objects, references tracked as pregnant and population; they differ
    only in what they log and emit. *)
Theorem mating_paths_agree (config : Config) (male female : ref) (s : @State Obs)
    (m f : Dwarf) :
  heap s !! male = Some m -> heap s !! female = Some f -> male <> female ->
  exists success s1 s2,
    attemptMating Math_sqrt config male female s = Ok success s1
    /\ acceptMating config female male s = Ok success s2
    /\ heap s1 = heap s2 /\ draws s1 = draws s2 /\ dwarfs s1 = dwarfs s2
    /\ pregnantFemales s1 = pregnantFemales s2.
Proof.
  intros Hm Hf Hne.
  destruct (num_gt (reproductionCooldown (repro f)) 0
            || truthy (isPregnant (repro f))) eqn:Hbusy.
  - destruct (proj1 (run_never _ _ _)
                (run_attemptMating_unavailable config male female s m f Hm Hf Hbusy))
      as (b1 & s1 & Hrun1 & -> & Hh1 & Hd1 & Hp1 & Hf1).
    destruct (proj1 (run_never _ _ _)
                (run_acceptMating_unavailable config male female s m f Hm Hf Hbusy))
      as (b2 & s2 & Hrun2 & -> & Hh2 & Hd2 & Hp2 & Hf2).
    exists false, s1, s2. split_and!; congruence.
  - apply orb_false_elim in Hbusy as [Hcd Hp].
    destruct (proj1 (run_never _ _ _)
                (run_attemptMating_available config male female s m f Hm Hf Hne Hcd Hp))
      as (b1 & s1 & Hrun1 & -> & Hd1 & Hp1 & Hf1 & Ho1 & Hfe1 & Hma1).
    destruct (proj1 (run_never _ _ _)
                (run_acceptMating_available config male female s m f Hm Hf Hne Hcd Hp))
      as (b2 & s2 & Hrun2 & -> & Hd2 & Hp2 & Hf2 & Ho2 & Hfe2 & Hma2).
    eexists _, s1, s2. split_and!; [done | done | | congruence..].
    apply map_eq. intros r.
    destruct (decide (r = male)) as [->|Hr1]; [by rewrite Hma1, Hma2|].
    destruct (decide (r = female)) as [->|Hr2]; [by rewrite Hfe1, Hfe2|].
    by rewrite Ho1, Ho2.
Qed.

(** ** The draw of a strategy *)

Lemma Qfloor_between (q : Q) (i : Z) :
  inject_Z i <= q -> q < inject_Z i + 1 -> Qfloor q = i.
Proof.
  intros Hlo Hhi.
  pose proof (Qfloor_le q) as H1. pose proof (Qlt_floor q) as H2.
  rewrite inject_Z_plus in H2. change (inject_Z 1) with 1 in H2.
  assert (inject_Z (Qfloor q) < inject_Z (i + 1)) as H3
    by (rewrite inject_Z_plus; change (inject_Z 1) with 1; lra).
  assert (inject_Z i < inject_Z (Qfloor q + 1)) as H4
    by (rewrite inject_Z_plus; change (inject_Z 1) with 1; lra).
  rewrite <- Zlt_Qlt in H3, H4. lia.
Qed.


(** ** Initialization of a dwarf *)

Lemma run_initializeDwarf config class dwarf (s : @State Obs) d :
  heap s !! dwarf = Some d ->
  run (initializeDwarf config class dwarf) s
    (fun _ s' => exists d',
       heap s' !! dwarf = Some d'
       /\ maxLifespan (vital d')
          = Some (LifespanConfig.minLifespan config
                  + random s (draws s)
                    * (LifespanConfig.maxLifespan config
                       - LifespanConfig.minLifespan config))
       /\ maxHealth (vital d')
          = Some (LifespanConfig.maxHealth config + random s (S (draws s)) * 20 - 10)
       /\ health (vital d') = maxHealth (vital d')
       /\ age (vital d')
          = Some (if num_truthy (age (vital d)) then default 0 (age (vital d)) else 0)
       /\ attackCooldown (vital d') = Some 0
       /\ isInCombat (vital d') = Some false
       /\ combatTarget (vital d') = Null /\ lastAttacker (vital d') = Null
       /\ combatStats (vital d') = Some (assignCombatStats class)
       /\ isDead (vital d') = isDead (vital d)
       /\ repro d' = repro d /\ x d' = x d /\ y d' = y d
       /\ (forall r, r <> dwarf -> heap s' !! r = heap s !! r)
       /\ draws s' = S (S (draws s)) /\ dwarfs s' = dwarfs s) never.
Proof.
  intros Hd. destruct s as [h0 pop rnd n clk con glog b o ls pf tm]. cbn [heap] in Hd.
  unfold initializeDwarf.
  repeat (tstep Hd).
  eexists. split; [heap_lookup Hd|]. cbn.
  split_and!; try done. intros r Hr. by rewrite !lookup_alter_ne.
Qed.

(** X28: [initializeDwarf] draws two random numbers and, when they lie
    between zero and one and the configured minimum lifespan is not above
    the maximum, gives the dwarf a lifespan between the two, a maximum
    health within ten of the configured one and full health; it keeps an
    age other than zero and sets a missing one to zero, resets the combat
    state, gives the statistics of the class, and leaves the death flag,
    the reproductive state, the position and every other dwarf alone. *)
Theorem initializeDwarf_within_ranges (config : LifespanConfig.t) (class : option string)
    (dwarf : ref) (s : @State Obs) (d : Dwarf) :
  heap s !! dwarf = Some d ->
  0 <= random s (draws s) <= 1 ->
  0 <= random s (S (draws s)) <= 1 ->
  LifespanConfig.minLifespan config <= LifespanConfig.maxLifespan config ->
  exists s' d' lifespan' health',
    initializeDwarf config class dwarf s = Ok tt s'
    /\ heap s' !! dwarf = Some d'
    /\ maxLifespan (vital d') = Some lifespan'
    /\ LifespanConfig.minLifespan config <= lifespan'
       <= LifespanConfig.maxLifespan config
    /\ maxHealth (vital d') = Some health'
    /\ LifespanConfig.maxHealth config - 10 <= health'
       <= LifespanConfig.maxHealth config + 10
    /\ health (vital d') = Some health'
    /\ (num_truthy (age (vital d)) = true -> age (vital d') = age (vital d))
    /\ (num_truthy (age (vital d)) = false -> age (vital d') = Some 0)
    /\ attackCooldown (vital d') = Some 0
    /\ isInCombat (vital d') = Some false
    /\ combatTarget (vital d') = Null /\ lastAttacker (vital d') = Null
    /\ combatStats (vital d') = Some (assignCombatStats class)
    /\ isDead (vital d') = isDead (vital d)
    /\ repro d' = repro d /\ x d' = x d /\ y d' = y d
    /\ (forall r, r <> dwarf -> heap s' !! r = heap s !! r)
    /\ draws s' = S (S (draws s)) /\ dwarfs s' = dwarfs s.
Proof.
  intros Hd [Hr1 Hr1'] [Hr2 Hr2'] Hcfg.
  pose proof (run_initializeDwarf config class dwarf s d Hd) as Hrun.
  apply run_never in Hrun
    as ([] & s' & Hs' & d' & Hd' & Hml & Hmh & Hh & Hage & Hrest).
  set (w := LifespanConfig.maxLifespan config - LifespanConfig.minLifespan config) in *.
  assert (0 <= random s (draws s) * w) as Hlo
    by (apply Qmult_le_0_compat; [done | unfold w; lra]).
  assert (random s (draws s) * w <= w) as Hhi.
  { rewrite <- (Qmult_1_l w) at 2. apply Qmult_le_compat_r; [done | unfold w; lra]. }
  eexists s', d', _, _. split; [exact Hs'|]. split; [exact Hd'|].
  split; [exact Hml|]. split; [unfold w in *; split; lra|].
  split; [exact Hmh|]. split; [split; lra|].
  split; [by rewrite Hh|].
  split.
  { intros Ht. rewrite Hage, Ht. unfold num_truthy in Ht.
    by destruct (age (vital d)). }
  split; [intros Ht; by rewrite Hage, Ht|]. exact Hrest.
Qed.

(** ** A birth the host cannot serve *)

(** X29: without a [Dwarf] constructor in the global scope, [giveBirth] on a
    pregnant female raises the error of [createDwarf] after it has ended
    the pregnancy: she is left not pregnant, with her timer at zero and
    the cooldown of a birth, and is dropped from the tracked females, two
    random numbers are drawn, and no dwarf is added. *)
Theorem giveBirth_without_constructor (config : Config) (rs : bool) (mother : ref)
    (s : @State Obs) (m : Dwarf) :
  Dwarf_constructor = None ->
  heap s !! mother = Some m ->
  truthy (isPregnant (repro m)) = true ->
  giveBirth Dwarf_constructor config rs mother s
  = Throw (Error "Dwarf constructor not available in global scope")
      (set_draws (S (S (draws s)))
         (set_heap
            (<[mother :=
                 with_repro
                   (fun rp =>
                      set_reproductionCooldown
                        (Some (FEMALE_REPRODUCTION_COOLDOWN config))
                        (set_pregnancyTimer (Some 0)
                           (set_isPregnant (Some false) rp))) m]> (heap s))
            (set_pregnantFemales
               (filter (fun r => r <> mother) (pregnantFemales s)) s))).
Proof.
  intros Hnone Hm Hp.
  set (s' := set_draws _ _).
  assert (run (giveBirth Dwarf_constructor config rs mother) s (fun _ _ => False)
            (fun e s1 =>
               e = Error "Dwarf constructor not available in global scope" /\ s1 = s'))
    as Hrun.
  { subst s'. destruct s as [h0 pop rnd n clk con glog b o ls pf tm]. cbn [heap] in Hm.
    unfold giveBirth, pregnantFemales_delete.
    tstep Hm. tstep Hm. rewrite Hp. cbn [negb].
    do 12 (tstep Hm). unfold createDwarf. rewrite Hnone. apply run_throw.
    split; [done|]. f_equal.
    rewrite (alter_present _ _ h0 m Hm).
    rewrite 2!(alter_present _ _ _ _ (lookup_insert_eq _ _ _)).
    by rewrite !insert_insert_eq. }
  unfold run in Hrun.
  destruct (giveBirth Dwarf_constructor config rs mother s) as [a s1|e s1]; [done|].
  by destruct Hrun as [-> ->].
Qed.
End Facts.

(** ** The theorems at concrete worlds *)

Lemma death_leaves_other_references :
  let s' := state_of (updateDwarf exact_sqrt LifespanConfig.defaults 0%nat last_day) in
  returned (updateDwarf exact_sqrt LifespanConfig.defaults 0%nat last_day) = Some tt
  /\ look (fun d => isDead (vital d)) 0%nat s' = Some (Some true)
  /\ look (fun d => combatTarget (vital d)) 1%nat s' = Some Null
  /\ look (fun d => lastAttacker (vital d)) 1%nat last_day = Some (Obj 0%nat)
  /\ look (fun d => lastAttacker (vital d)) 1%nat s' = Some (Obj 0%nat)
  /\ look (fun d => guardedFemale (repro d)) 2%nat last_day = Some (Obj 0%nat)
  /\ look (fun d => guardedFemale (repro d)) 2%nat s' = Some (Obj 0%nat).
Proof. vm_compute. by split_and!. Qed.

Lemma death_clears_combat_targets_witness :
  exists o',
    heap (state_of (updateDwarf exact_sqrt LifespanConfig.defaults 0%nat last_day))
      !! 1%nat = Some o' /\
    (combatTarget (vital rival) = Obj 0%nat ->
     combatTarget (vital o') = Null /\ isInCombat (vital o') = Some false) /\
    (lastAttacker (vital rival) = Obj 0%nat -> lastAttacker (vital o') = Obj 0%nat) /\
    guardedFemale (repro o') = guardedFemale (repro rival).
Proof.
  eapply (death_clears_combat_targets exact_sqrt LifespanConfig.defaults 0%nat
            last_day _ elder
            (default elder
               (heap (state_of (updateDwarf exact_sqrt LifespanConfig.defaults
                                  0%nat last_day)) !! 0%nat))).
  - vm_compute. reflexivity.
  - vm_compute. reflexivity.
  - discriminate.
  - vm_compute. reflexivity.
  - vm_compute. reflexivity.
  - vm_compute. set_solver.
  - discriminate.
  - vm_compute. reflexivity.
Defined.

Lemma failed_mating_changes_nothing_witness :
  attemptMating exact_sqrt ReproductionConfig.REPRODUCTION_CONFIG 0%nat 2%nat courtship
  = Ok false (state_of (attemptMating exact_sqrt
                          ReproductionConfig.REPRODUCTION_CONFIG 0%nat 2%nat courtship))
  /\ (heap (state_of (attemptMating exact_sqrt
                        ReproductionConfig.REPRODUCTION_CONFIG 0%nat 2%nat courtship))
      = heap courtship
      /\ exists m' f',
           heap (state_of (attemptMating exact_sqrt
                   ReproductionConfig.REPRODUCTION_CONFIG 0%nat 2%nat courtship))
             !! 0%nat = Some m'
           /\ heap (state_of (attemptMating exact_sqrt
                   ReproductionConfig.REPRODUCTION_CONFIG 0%nat 2%nat courtship))
                !! 2%nat = Some f'
           /\ isPregnant (repro f') = isPregnant (repro available_female)
           /\ pregnancyTimer (repro f') = pregnancyTimer (repro available_female)
           /\ reproductionCooldown (repro f')
              = reproductionCooldown (repro available_female)
           /\ reproductionCooldown (repro m') = reproductionCooldown (repro suitor)).
Proof.
  split; [vm_compute; reflexivity|].
  apply (failed_mating_changes_nothing exact_sqrt
           ReproductionConfig.REPRODUCTION_CONFIG 0%nat 2%nat courtship _
           suitor available_female).
  - left. vm_compute. reflexivity.
  - vm_compute. reflexivity.
  - vm_compute. reflexivity.
Defined.

Lemma updateDwarf_skips_without_health_witness :
  (health (vital resting_female) = None
   \/ exists h, health (vital (with_vital (set_health (Some 0)) resting_female)) = Some h
                /\ h <= 0)
  /\ updateDwarf exact_sqrt LifespanConfig.defaults 0%nat
       (quiet_world [with_vital (set_health (Some 0)) resting_female] (fun _ => 0))
     = Ok tt (quiet_world [with_vital (set_health (Some 0)) resting_female] (fun _ => 0)).
Proof.
  assert (exists h, health (vital (with_vital (set_health (Some 0)) resting_female)) = Some h
                    /\ h <= 0) as H.
  { exists 0. split; [reflexivity | discriminate]. }
  split; [by right|].
  apply (updateDwarf_skips_without_health exact_sqrt LifespanConfig.defaults 0%nat _
           (with_vital (set_health (Some 0)) resting_female)).
  - vm_compute. reflexivity.
  - by right.
Defined.


(** C6, where the code leaves the rule: of two eligible females within the
    attack range the raider attacks the first of the population, 18 away,
    and leaves the nearer one, 5 away, alone; and with two eligible
    females beyond the attack range, neither of them his combat target
    yet, he does not move toward the first, 30 away, nor toward the nearer
    one, 25 away. *)
Lemma first_target_engaged_not_nearest :
  let run1 := handleCombatBehavior exact_sqrt LifespanConfig.defaults 0%nat skirmish in
  let run2 := handleCombatBehavior exact_sqrt LifespanConfig.defaults 0%nat standoff in
  returned (potentialTargets exact_sqrt LifespanConfig.defaults 0%nat skirmish)
    = Some [1%nat; 2%nat]
  /\ returned (calculateDistance exact_sqrt 0%nat 1%nat skirmish) = Some 18
  /\ returned (calculateDistance exact_sqrt 0%nat 2%nat skirmish) = Some 5
  /\ returned run1 = Some tt
  /\ look (fun d => combatTarget (vital d)) 0%nat (state_of run1) = Some (Obj 1%nat)
  /\ look (fun d => lastAttacker (vital d)) 1%nat (state_of run1) = Some (Obj 0%nat)
  /\ look (fun d => health (vital d)) 1%nat (state_of run1) = Some (Some 58)
  /\ look (fun d => lastAttacker (vital d)) 2%nat (state_of run1) = Some Null
  /\ look (fun d => health (vital d)) 2%nat (state_of run1) = Some (Some 80)
  /\ returned (potentialTargets exact_sqrt LifespanConfig.defaults 0%nat standoff)
     = Some [1%nat; 2%nat]
  /\ returned (calculateDistance exact_sqrt 0%nat 1%nat standoff) = Some 30
  /\ returned (calculateDistance exact_sqrt 0%nat 2%nat standoff) = Some 25
  /\ returned run2 = Some tt
  /\ heap (state_of run2) = heap standoff
  /\ look (fun d => (x d, y d, targetX d, targetY d)) 0%nat (state_of run2)
     = Some (0, 0, None, None).
Proof. vm_compute. by split_and!. Qed.

Lemma handleCombatBehavior_engages_first_eligible_witness :
  (exists before after,
     default [] (dwarfs skirmish) = before ++ 1%nat :: after
     /\ sublist [2%nat] after)
  /\ Forall (eligible_near exact_sqrt skirmish 0%nat
               (LifespanConfig.attackRange LifespanConfig.defaults * 2))
       [1%nat; 2%nat]
  /\ exists s' a' t',
       handleCombatBehavior exact_sqrt LifespanConfig.defaults 0%nat skirmish = Ok tt s'
       /\ heap s' !! 0%nat = Some a' /\ heap s' !! 1%nat = Some t'
       /\ combatTarget (vital a') = Obj 1%nat
       /\ lastAttacker (vital t') = Obj 0%nat
       /\ heap s' !! 2%nat = heap skirmish !! 2%nat.
Proof.
  destruct (handleCombatBehavior_engages_first_eligible exact_sqrt
              LifespanConfig.defaults 0%nat 1%nat [2%nat] skirmish
              (state_of (potentialTargets exact_sqrt LifespanConfig.defaults 0%nat
                           skirmish))
              raider {| attack := 1; defense := 1; speed := 1; critChance := 1 # 10 |})
    as (Horder & Hall & t & h & Ht & _ & Hattack & _).
  - vm_compute. reflexivity.
  - reflexivity.
  - reflexivity.
  - reflexivity.
  - reflexivity.
  - vm_compute. reflexivity.
  - split; [exact Horder|]. split; [exact Hall|].
    assert (t = far_female) as ->
      by (apply (inj Some); rewrite <- Ht; vm_compute; reflexivity).
    destruct (Hattack ltac:(vm_compute; discriminate)
                {| attack := 1; defense := 1; speed := 1; critChance := 1 # 10 |}
                ltac:(reflexivity) ltac:(reflexivity))
      as (s' & dmg & a' & t' & Hrun & Ha' & Ht' & _ & Hlast & _ & _ & Htarget & _ & _
          & _ & _ & Hothers).
    exists s', a', t'. split_and!; [done..|]. apply Hothers; discriminate.
Defined.

(** C3: a pregnancy that starts at timer 0 and is advanced one tick at a
    time stands at 3599 after 3599 ticks and ends in a birth at the
    3600th; the birth event then reports a duration of 0, not 3600, since
    [giveBirth] resets the timer before it builds the event. *)
Theorem birth_event_reports_zero_duration :
  let tick := updatePregnancy (Some host_Dwarf) REPRODUCTION_CONFIG false 0%nat in
  let before := ticks 3599 tick (nursery 0) in
  let after := ticks 3600 tick (nursery 0) in
  returned before = Some tt
  /\ look (fun d => (isPregnant (repro d), pregnancyTimer (repro d))) 0%nat
       (state_of before) = Some (Some true, Some 3599)
  /\ reported_durations (state_of before) = []
  /\ returned after = Some tt
  /\ look (fun d => isPregnant (repro d)) 0%nat (state_of after) = Some (Some false)
  /\ dwarfs (state_of after) = Some [0%nat; 1%nat]
  /\ reported_durations (state_of after) = [Some 0]
  /\ reported_durations
       (state_of (giveBirth (Some host_Dwarf) REPRODUCTION_CONFIG false 0%nat
                    (nursery 3600))) = [Some 0].
Proof. vm_compute. by split_and!. Qed.

Lemma birth_at_term_witness :
  exists s' baby m b,
    updatePregnancy (Some host_Dwarf) REPRODUCTION_CONFIG false 0%nat (nursery 3599)
    = Ok tt s'
    /\ heap s' !! 0%nat = Some m
    /\ isPregnant (repro m) = Some false
    /\ pregnancyTimer (repro m) = Some 0
    /\ reproductionCooldown (repro m) = Some 7200
    /\ heap (nursery 3599) !! baby = None
    /\ heap s' !! baby = Some b
    /\ dom (heap s') = dom (heap (nursery 3599)) ∪ {[baby]}
    /\ dwarfs s' = Some (default [] (dwarfs (nursery 3599)) ++ [baby])
    /\ isAdult b = false
    /\ x b == x (expectant 3599)
              + random (nursery 3599) (draws (nursery 3599)) * 40 - 20
    /\ y b == y (expectant 3599)
              + random (nursery 3599) (S (draws (nursery 3599))) * 40 - 20.
Proof.
  apply (birth_at_term (Some host_Dwarf) false 0%nat (nursery 3599) (expectant 3599)
           3599 host_Dwarf).
  - reflexivity.
  - intros px py nm adult rnd. by split_and!.
  - vm_compute. reflexivity.
  - reflexivity.
  - reflexivity.
  - reflexivity.
Defined.

Lemma initializeReproductionTraits_fills_unset_witness :
  exists s' d',
    initializeReproductionTraits REPRODUCTION_CONFIG (Some 0%nat) restored = Ok tt s'
    /\ heap s' !! 0%nat = Some d'
    /\ reproductionCooldown (repro d') = Some 100
    /\ mateSeekingTimer (repro d') = Some 5
    /\ territoryX (repro d') = Some 10
    /\ guardedFemale (repro d') = Null
    /\ reproductionStrategy (repro d') = pick ["orange"; "blue"; "yellow"]%string (1 # 2).
Proof.
  destruct (initializeReproductionTraits_fills_unset REPRODUCTION_CONFIG 0%nat
              restored veteran)
    as (s' & d' & Hrun & Hd' & _ & _ & Hcool & Hseek & Htx & _ & Hguard & _ & Hstrategy).
  - vm_compute. reflexivity.
  - exists s', d'. split_and!; [done | done | by apply Hcool | by apply Hseek
      | by apply Htx | by apply Hguard | by apply Hstrategy].
Defined.

(** C5, refuted as stated: a male whose reproductive properties are all
    set, with the territorial strategy, has the guardian strategy after
    the hook is run on him. *)
Lemma restored_male_strategy_redrawn :
  let run := initializeReproductionTraits REPRODUCTION_CONFIG (Some 0%nat) restored in
  look (fun d => repro d) 0%nat restored
  = Some {| reproductionStrategy := Some "orange"%string; mateSeekingTimer := Some 5;
            reproductionCooldown := Some 100; isPregnant := Some false;
            pregnancyTimer := Some 0; guardedFemale := Null;
            territoryX := Some 10; territoryY := Some 20 |}
  /\ returned run = Some tt
  /\ look (fun d => reproductionStrategy (repro d)) 0%nat (state_of run)
     = Some (Some "blue"%string).
Proof. vm_compute. by split_and!. Qed.

Lemma guardian_outscores_territorial_witness :
  (forall u : Q, score_given REPRODUCTION_CONFIG 0%nat 1%nat choice u
                 == score_given REPRODUCTION_CONFIG 0%nat 2%nat choice u + 40)
  /\ expect three_points (score_given REPRODUCTION_CONFIG 0%nat 1%nat choice)
     == expect three_points (score_given REPRODUCTION_CONFIG 0%nat 2%nat choice)
        + 40
  /\ expect three_points (score_given REPRODUCTION_CONFIG 0%nat 2%nat choice)
     < expect three_points (score_given REPRODUCTION_CONFIG 0%nat 1%nat choice).
Proof.
  apply (guardian_outscores_territorial choice 0%nat 1%nat 2%nat chooser blue_male
           orange_male
           {| agreeableness := 80; openness := 50; neuroticism := 90;
              extraversion := 50; conscientiousness := 50 |} three_points).
  - vm_compute. reflexivity.
  - reflexivity.
  - reflexivity.
  - discriminate.
  - vm_compute. reflexivity.
  - reflexivity.
  - vm_compute. reflexivity.
  - reflexivity.
  - reflexivity.
Defined.

(** ** The added theorems at concrete worlds *)

Lemma calculateAgeEfficiency_declines_witness :
  exists e1 e2,
    calculateAgeEfficiency 800 1000 = Some e1
    /\ calculateAgeEfficiency 900 1000 = Some e2
    /\ (3 # 10) <= e2 /\ e2 <= e1 /\ e1 <= 1
    /\ (800 < (7 # 10) * 1000 -> e1 == 1)
    /\ (1000 <= 900 -> e2 == (3 # 10)).
Proof.
  apply (calculateAgeEfficiency_declines 800 900 1000); [reflexivity | discriminate].
Defined.

Lemma handleHealthUpdate_heals_within_bounds_witness :
  exists s' d' h',
    handleHealthUpdate LifespanConfig.defaults 0%nat courtship = Ok tt s'
    /\ heap s' !! 0%nat = Some d' /\ health (vital d') = Some h'
    /\ 80 <= h' /\ (80 <= 100 -> h' <= 100)
    /\ (truthy (isInCombat (vital suitor)) = true -> h' = 80)
    /\ (80 <= 100 * (3 # 10) -> h' = 80)
    /\ healthBarVisible (vital d') = Some (Qlt_bool h' (100 * (9 # 10)))
    /\ (forall r, r <> 0%nat -> heap s' !! r = heap courtship !! r)
    /\ dwarfs s' = dwarfs courtship.
Proof.
  apply (handleHealthUpdate_heals_within_bounds LifespanConfig.defaults 0%nat
           courtship suitor 80 100).
  - vm_compute. reflexivity.
  - reflexivity.
  - reflexivity.
  - vm_compute. discriminate.
Defined.

Lemma handleAging_wears_down_witness :
  exists s' d' h',
    handleAging LifespanConfig.defaults 0%nat last_day = Ok tt s'
    /\ heap s' !! 0%nat = Some d' /\ health (vital d') = Some h' /\ h' <= 50
    /\ (99 / 100 < (7 # 10) -> s' = last_day)
    /\ (forall e', efficiency d' = Some e' ->
          efficiency elder = Some e' \/ (3 # 10) <= e')
    /\ (forall r, r <> 0%nat -> heap s' !! r = heap last_day !! r)
    /\ dwarfs s' = dwarfs last_day.
Proof.
  apply (handleAging_wears_down LifespanConfig.defaults 0%nat last_day elder 99 100 50).
  - vm_compute. reflexivity.
  - reflexivity.
  - reflexivity.
  - discriminate.
  - reflexivity.
  - vm_compute. discriminate.
Defined.

Lemma updateSkulls_fades_and_removes_witness :
  exists s',
    ticks (S 1%nat) updateSkulls graveyard = Ok tt s'
    /\ Forall2 same_skull (skulls (lifespan s'))
         (map (aged_by (S 1%nat)) (List.filter (lasts (S 1%nat)) (skulls (lifespan graveyard))))
    /\ heap s' = heap graveyard /\ dwarfs s' = dwarfs graveyard
    /\ stats (lifespan s') = stats (lifespan graveyard)
    /\ combatEffects (lifespan s') = combatEffects (lifespan graveyard)
    /\ deathEffects (lifespan s') = deathEffects (lifespan graveyard).
Proof.
  apply (updateSkulls_fades_and_removes 1%nat graveyard).
  repeat constructor; discriminate.
Defined.

Lemma performAttack_damage_within_bounds_witness :
  exists s' a' t' (damage : Z),
    performAttack LifespanConfig.defaults 0%nat 1%nat skirmish = Ok tt s'
    /\ heap s' !! 0%nat = Some a' /\ heap s' !! 1%nat = Some t'
    /\ health (vital t') = Some (80 - inject_Z damage)
    /\ (0 <= Math_floor (LifespanConfig.baseDamage LifespanConfig.defaults
                          * attack plain_stats / defense plain_stats)
        <= damage)%Z
    /\ inject_Z damage
       <= (LifespanConfig.baseDamage LifespanConfig.defaults
           + LifespanConfig.damageVariance LifespanConfig.defaults)
          * attack plain_stats / defense plain_stats
          * LifespanConfig.criticalMultiplier LifespanConfig.defaults
    /\ health (vital a') = health (vital raider)
    /\ (forall r, r <> 0%nat -> r <> 1%nat -> heap s' !! r = heap skirmish !! r).
Proof.
  apply (performAttack_damage_within_bounds LifespanConfig.defaults 0%nat 1%nat skirmish
           raider far_female plain_stats plain_stats 80).
  - vm_compute. reflexivity.
  - vm_compute. reflexivity.
  - discriminate.
  - reflexivity.
  - reflexivity.
  - reflexivity.
  - reflexivity.
  - discriminate.
  - reflexivity.
  - discriminate.
  - discriminate.
  - discriminate.
  - vm_compute. discriminate.
  - vm_compute. discriminate.
  - vm_compute. discriminate.
Defined.

Lemma performAttack_respects_cooldown_witness :
  exists s' a',
    performAttack LifespanConfig.defaults 0%nat 1%nat skirmish = Ok tt s'
    /\ heap s' !! 0%nat = Some a'
    /\ attackCooldown (vital a')
       = Some (LifespanConfig.attackCooldown LifespanConfig.defaults / speed plain_stats)
    /\ forall other, performAttack LifespanConfig.defaults 0%nat other s' = Ok tt s'.
Proof.
  apply (performAttack_respects_cooldown LifespanConfig.defaults 0%nat 1%nat skirmish
           raider far_female plain_stats plain_stats 80).
  - vm_compute. reflexivity.
  - vm_compute. reflexivity.
  - discriminate.
  - reflexivity.
  - reflexivity.
  - reflexivity.
  - reflexivity.
  - discriminate.
  - reflexivity.
  - vm_compute. reflexivity.
Defined.

Lemma subscribe_unsubscribe_restores_witness :
  (subscribe "birth"%string (counting 7)
     {| opt_once := None; opt_priority := Some 1 |} ;;
   unsubscribe "birth"%string (counting 7)) audience
  = Ok tt audience.
Proof.
  apply (subscribe_unsubscribe_restores "birth" (counting 7)
           {| opt_once := None; opt_priority := Some 1 |} audience).
  - vm_compute. repeat constructor; discriminate.
  - vm_compute. repeat constructor; discriminate.
  - vm_compute. discriminate.
Defined.

Lemma emit_drops_returned_once_listeners_witness :
  let ev :=
    {| ev_type := "birth"%string; ev_timestamp := clock audience;
       ev_data := {| payload := Custom []; data_timestamp := None |} |} in
  exists s',
    emit "birth"%string {| payload := Custom []; data_timestamp := None |} audience = Ok tt s'
    /\ listeners (bus s') !! "birth"%string = listed (kept ev birth_listeners (obs audience))
    /\ (forall other, other <> "birth"%string ->
          listeners (bus s') !! other = listeners (bus audience) !! other).
Proof.
  apply (emit_drops_returned_once_listeners "birth"
           {| payload := Custom []; data_timestamp := None |} audience birth_listeners).
  - vm_compute. reflexivity.
  - discriminate.
  - apply (bool_decide_unpack _). vm_compute. exact I.
Defined.

Lemma getEventHistory_returns_latest_witness :
  let matching :=
    List.filter (fun event => String.eqb (ev_type event) "birth"%string)
      (eventHistory (bus courtship)) in
  exists l,
    getEventHistory (Some "birth"%string) (Some 5) courtship = Ok l courtship
    /\ (exists older, matching = older ++ l)
    /\ (forall n, (Some 5) = Some n -> 1 <= n ->
          length l = Nat.min (Z.to_nat (Qfloor n)) (length matching))
    /\ ((Some 5) = None \/ (exists n, (Some 5) = Some n /\ n < 1) -> l = matching).
Proof.
  apply (getEventHistory_returns_latest "birth" (Some 5) courtship). discriminate.
Defined.

Lemma getNearbyDwarfs_exact_witness :
  exists l,
    getNearbyDwarfs exact_sqrt 0%nat 20 skirmish = Ok l skirmish
    /\ sublist l (default [] (dwarfs skirmish))
    /\ forall r, r ∈ l <->
         r ∈ default [] (dwarfs skirmish) /\ r <> 0%nat
         /\ exists d, heap skirmish !! r = Some d
                      /\ distance_between exact_sqrt raider d < 20.
Proof.
  apply (getNearbyDwarfs_exact exact_sqrt 0%nat 20 skirmish raider).
  - vm_compute. reflexivity.
  - vm_compute. repeat constructor; eexists; reflexivity.
Defined.

Lemma getNearbyDwarfs_mutual_witness :
  exists la lb,
    getNearbyDwarfs exact_sqrt 0%nat 20 skirmish = Ok la skirmish
    /\ getNearbyDwarfs exact_sqrt 1%nat 20 skirmish = Ok lb skirmish
    /\ (1%nat ∈ la <-> 0%nat ∈ lb).
Proof.
  apply (getNearbyDwarfs_mutual exact_sqrt 0%nat 1%nat 20 skirmish).
  - intros u v Huv. unfold exact_sqrt. rewrite (Qred_complete u v Huv). reflexivity.
  - vm_compute. repeat constructor; eexists; reflexivity.
  - apply (bool_decide_unpack _). vm_compute. exact I.
  - apply (bool_decide_unpack _). vm_compute. exact I.
Defined.

Lemma getPopulationStats_consistent_witness :
  exists st,
    getPopulationStats courtship = Ok st courtship
    /\ ps_total st = length (default [] (dwarfs courtship))
    /\ (ps_adults st <= ps_total st)%nat
    /\ ps_children st = (Z.of_nat (ps_total st) - Z.of_nat (ps_adults st))%Z
    /\ (0 <= ps_children st)%Z
    /\ (ps_males st + ps_females st <= ps_adults st)%nat
    /\ (ps_pregnant st + ps_availableFemales st <= ps_females st)%nat
    /\ (count_orange (ps_malesByStrategy st) + count_blue (ps_malesByStrategy st)
        + count_yellow (ps_malesByStrategy st) <= ps_males st)%nat.
Proof.
  apply (getPopulationStats_consistent courtship).
  vm_compute. repeat constructor; eexists; reflexivity.
Defined.

Lemma findOldestDwarf_raises_when_someone_lives_witness :
  findOldestDwarf courtship
  = if existsb (holds_of courtship alive) (default [] (dwarfs courtship))
    then Throw (TypeError "Cannot read properties of null (reading 'age')") courtship
    else Ok Null courtship.
Proof.
  apply (findOldestDwarf_raises_when_someone_lives courtship).
  vm_compute. repeat constructor; eexists; reflexivity.
Defined.

Lemma findHealthiestDwarf_is_maximal_witness :
  exists best,
    findHealthiestDwarf courtship = Ok best courtship
    /\ (forall r d, In r (default [] (dwarfs courtship)) -> heap courtship !! r = Some d ->
                    alive d = true -> health_ratio d <= standing courtship best)
    /\ match best with
       | Obj b =>
           In b (default [] (dwarfs courtship))
           /\ exists d, heap courtship !! b = Some d /\ alive d = true /\ 0 < health_ratio d
       | Null => True
       | Undefined => False
       end.
Proof.
  apply (findHealthiestDwarf_is_maximal courtship).
  - vm_compute. repeat constructor; eexists; reflexivity.
  - intros r d Hr Hd _. exists 80, 100.
    destruct Hr as [<-|[<-|[<-|[]]]]; vm_compute in Hd; injection Hd as <-;
      (split; [reflexivity | split; [reflexivity | discriminate]]).
Defined.

Lemma Integration_update_drops_the_dead_witness :
  match update exact_sqrt LifespanConfig.defaults [0; 1; 2]%nat last_day with
  | Ok _ s1 =>
      exists l',
        Integration_update exact_sqrt LifespanConfig.defaults last_day
        = Ok tt (set_dwarfs (Some l') s1)
        /\ l' = List.filter (holds_of s1 alive) [0; 1; 2]%nat
        /\ forall r d, heap last_day !! r = Some d -> alive d = false -> ~ In r l'
  | Throw e s1 =>
      Integration_update exact_sqrt LifespanConfig.defaults last_day = Throw e s1
      /\ dwarfs s1 = Some [0; 1; 2]%nat
  end.
Proof.
  apply (Integration_update_drops_the_dead exact_sqrt LifespanConfig.defaults last_day
           [0; 1; 2]%nat).
  - reflexivity.
  - vm_compute. repeat constructor; eexists; reflexivity.
Defined.

Lemma updatePregnancy_counts_until_term_witness :
  exists t',
    t' == 0 + inject_Z (Z.of_nat (S 2%nat))
    /\ ticks (S 2%nat) (updatePregnancy (Some host_Dwarf) REPRODUCTION_CONFIG false 0%nat)
         (nursery 0)
       = Ok tt
           (set_heap
              (<[0%nat := with_repro (set_pregnancyTimer (Some t')) (expectant 0)]>
                 (heap (nursery 0)))
              (set_pregnantFemales
                 (if bool_decide (0%nat ∈ pregnantFemales (nursery 0))
                  then pregnantFemales (nursery 0)
                  else pregnantFemales (nursery 0) ++ [0%nat]) (nursery 0))).
Proof.
  apply (updatePregnancy_counts_until_term (Some host_Dwarf) REPRODUCTION_CONFIG false
           0%nat 2%nat (nursery 0) (expectant 0) 0).
  - vm_compute. reflexivity.
  - reflexivity.
  - reflexivity.
  - reflexivity.
Defined.

Lemma getTimeUntilBirth_counts_down_witness :
  exists s' before after,
    getTimeUntilBirth REPRODUCTION_CONFIG 0%nat (nursery 0) = Ok before (nursery 0)
    /\ ticks (S 2%nat) (updatePregnancy (Some host_Dwarf) REPRODUCTION_CONFIG false 0%nat)
         (nursery 0)
       = Ok tt s'
    /\ getTimeUntilBirth REPRODUCTION_CONFIG 0%nat s' = Ok after s'
    /\ after == before - inject_Z (Z.of_nat (S 2%nat))
    /\ 0 < after
    /\ isReadyForBirth REPRODUCTION_CONFIG 0%nat s' = Ok false s'.
Proof.
  apply (getTimeUntilBirth_counts_down (Some host_Dwarf) REPRODUCTION_CONFIG false
           0%nat 2%nat (nursery 0) (expectant 0) 0).
  - vm_compute. reflexivity.
  - reflexivity.
  - reflexivity.
  - reflexivity.
Defined.

Lemma attemptMating_succeeds_below_rate_witness :
  exists success s',
    attemptMating exact_sqrt REPRODUCTION_CONFIG 0%nat 2%nat fortunate = Ok success s'
    /\ success = Qlt_bool (random fortunate (draws fortunate))
                          (MATING_SUCCESS_RATE REPRODUCTION_CONFIG)
    /\ dwarfs s' = dwarfs fortunate
    /\ pregnantFemales s' = pregnantFemales fortunate
    /\ (forall r, r <> 0%nat -> r <> 2%nat -> heap s' !! r = heap fortunate !! r)
    /\ heap s' !! 2%nat
       = Some (if success
               then with_repro
                      (fun rp =>
                         set_reproductionCooldown
                           (Some (FEMALE_REPRODUCTION_COOLDOWN REPRODUCTION_CONFIG))
                           (set_pregnancyTimer (Some 0)
                              (set_isPregnant (Some true) rp))) available_female
               else available_female)
    /\ heap s' !! 0%nat
       = Some (if success
               then with_repro
                      (set_reproductionCooldown
                         (Some (MALE_REPRODUCTION_COOLDOWN REPRODUCTION_CONFIG))) suitor
               else suitor).
Proof.
  apply (attemptMating_succeeds_below_rate exact_sqrt REPRODUCTION_CONFIG 0%nat 2%nat
           fortunate suitor available_female).
  - vm_compute. reflexivity.
  - vm_compute. reflexivity.
  - discriminate.
  - reflexivity.
  - reflexivity.
Defined.

Lemma mating_paths_agree_witness :
  exists success s1 s2,
    attemptMating exact_sqrt REPRODUCTION_CONFIG 0%nat 2%nat fortunate = Ok success s1
    /\ acceptMating REPRODUCTION_CONFIG 2%nat 0%nat fortunate = Ok success s2
    /\ heap s1 = heap s2 /\ draws s1 = draws s2 /\ dwarfs s1 = dwarfs s2
    /\ pregnantFemales s1 = pregnantFemales s2.
Proof.
  apply (mating_paths_agree exact_sqrt REPRODUCTION_CONFIG 0%nat 2%nat
           fortunate suitor available_female).
  - vm_compute. reflexivity.
  - vm_compute. reflexivity.
  - discriminate.
Defined.


Lemma initializeDwarf_within_ranges_witness :
  exists s' d' lifespan' health',
    initializeDwarf LifespanConfig.defaults (Some "fighter"%string) 0%nat courtship = Ok tt s'
    /\ heap s' !! 0%nat = Some d'
    /\ maxLifespan (vital d') = Some lifespan'
    /\ LifespanConfig.minLifespan LifespanConfig.defaults <= lifespan'
       <= LifespanConfig.maxLifespan LifespanConfig.defaults
    /\ maxHealth (vital d') = Some health'
    /\ LifespanConfig.maxHealth LifespanConfig.defaults - 10 <= health'
       <= LifespanConfig.maxHealth LifespanConfig.defaults + 10
    /\ health (vital d') = Some health'
    /\ (num_truthy (age (vital suitor)) = true -> age (vital d') = age (vital suitor))
    /\ (num_truthy (age (vital suitor)) = false -> age (vital d') = Some 0)
    /\ attackCooldown (vital d') = Some 0
    /\ isInCombat (vital d') = Some false
    /\ combatTarget (vital d') = Null /\ lastAttacker (vital d') = Null
    /\ combatStats (vital d') = Some (assignCombatStats (Some "fighter"%string))
    /\ isDead (vital d') = isDead (vital suitor)
    /\ repro d' = repro suitor /\ x d' = x suitor /\ y d' = y suitor
    /\ (forall r, r <> 0%nat -> heap s' !! r = heap courtship !! r)
    /\ draws s' = S (S (draws courtship)) /\ dwarfs s' = dwarfs courtship.
Proof.
  apply (initializeDwarf_within_ranges LifespanConfig.defaults (Some "fighter"%string)
           0%nat courtship suitor).
  - vm_compute. reflexivity.
  - split; discriminate.
  - split; discriminate.
  - vm_compute. discriminate.
Defined.

Lemma giveBirth_without_constructor_witness :
  giveBirth None REPRODUCTION_CONFIG false 0%nat (nursery 3600)
  = Throw (Error "Dwarf constructor not available in global scope")
      (set_draws (S (S (draws (nursery 3600))))
         (set_heap
            (<[0%nat :=
                 with_repro
                   (fun rp =>
                      set_reproductionCooldown
                        (Some (FEMALE_REPRODUCTION_COOLDOWN REPRODUCTION_CONFIG))
                        (set_pregnancyTimer (Some 0)
                           (set_isPregnant (Some false) rp))) (expectant 3600)]>
               (heap (nursery 3600)))
            (set_pregnantFemales
               (filter (fun r => r <> 0%nat) (pregnantFemales (nursery 3600))) (nursery 3600)))).
Proof.
  apply (giveBirth_without_constructor None REPRODUCTION_CONFIG false 0%nat
           (nursery 3600) (expectant 3600)).
  - reflexivity.
  - vm_compute. reflexivity.
  - reflexivity.
Defined.
